(** * react-mse-player: the MSEVideoStream session runtime

    A shallow embedding of [src/MSEVideoStream.js] (the effect body of the
    component: connect, reconnect, cleanup, the stall watchdog, the segment
    queue in front of the SourceBuffer), of the second variant of
    [src/MSEVideoStream.tsx] (the reconnect with an adaptive delay, its
    cleanup and the playback sync of its updateend handler) and of the Safari
    effect of the first version of the component ([unnamed/part_003]).

    The component is single threaded: every piece of code below runs to
    completion inside one callback of the host event loop.  The host
    (WebSocket, MediaSource, SourceBuffer, timers, clock) is modelled as
    explicit data next to the component's [stateRef] record. *)

From Stdlib Require Import ZArith QArith Ascii Bool Lia Lqa.
From Stdlib.Strings Require Import Byte.
From stdpp Require Import base list strings.

Local Open Scope Z_scope.

(** ** JavaScript strings

    Strings are sequences of characters; every string the component inspects
    (scheme prefixes, codec identifiers, media kinds) is ASCII, where code
    units and bytes coincide. *)

Module JsString.

(** [s.startsWith(p)] *)
Fixpoint startsWith (s p : string) {struct p} : bool :=
  match p with
  | EmptyString => true
  | String c p' =>
      match s with
      | EmptyString => false
      | String d s' => if Ascii.eqb c d then startsWith s' p' else false
      end
  end.

(** [s.substring(n)]: the string without its first [n] characters. *)
Fixpoint substring (s : string) (n : nat) {struct n} : string :=
  match n with
  | O => s
  | S n' =>
      match s with
      | EmptyString => EmptyString
      | String _ s' => substring s' n'
      end
  end.

(** [s.includes(p)] *)
Fixpoint includes (s p : string) : bool :=
  startsWith s p ||
  match s with
  | EmptyString => false
  | String _ s' => includes s' p
  end.

(** [l.join()]: the separator defaults to a comma. *)
Fixpoint join (l : list string) : string :=
  match l with
  | [] => EmptyString
  | [x] => x
  | x :: rest => x +:+ "," +:+ join rest
  end.

End JsString.

(** ** Address normalisation, from [connect]

    [wsURL] after the two [startsWith] tests; [origin] is
    [window.location.origin]. *)

Definition wsURL (origin src : string) : string :=
  if JsString.startsWith src "http" then
    "ws" +:+ JsString.substring src 4
  else if JsString.startsWith src "/" then
    "ws" +:+ JsString.substring origin 4 +:+ src
  else src.

(** ** Codec negotiation, from [codecsRef] and [getSupportedCodecs] *)

Definition codecsRef : list string :=
  [ "avc1.640029"; "avc1.64002A"; "avc1.640033"; "hvc1.1.6.L153.B0";
    "mp4a.40.2"; "mp4a.40.5"; "flac"; "opus" ].

(** [codec.includes("vc1") ? "video" : "audio"] *)
Definition kindOf (codec : string) : string :=
  if JsString.includes codec "vc1" then "video" else "audio".

(** The template literal [video/mp4; codecs="${codec}"]. *)
Definition mimeOf (codec : string) : string :=
  "video/mp4; codecs=" +:+ String "034" (codec +:+ String "034" EmptyString).

Definition getSupportedCodecsFrom (candidates : list string) (media : string)
    (isSupported : string -> bool) : string :=
  JsString.join
    (filter (fun codec => isSupported (mimeOf codec) = true)
       (filter (fun codec => JsString.includes media (kindOf codec) = true)
          candidates)).

Definition getSupportedCodecs (media : string) (isSupported : string -> bool) : string :=
  getSupportedCodecsFrom codecsRef media isSupported.

(** A control message is a flat object with string fields, sent as
    [JSON.stringify(obj)]; the serialisation is kept symbolic. *)
Inductive JsonText := JSON_stringify (obj : list (string * string)).

Definition mseMessage (codecs : string) : JsonText :=
  JSON_stringify [("type", "mse"); ("value", codecs)].


(** ** Host objects

    Host objects live in tables of the world; a handle is the index of the
    object in its table.  Handlers are closures of the effect body; for every
    WebSocket the four handlers are the same code, so the object only records
    whether each handler is still attached. *)

Inductive ReadyState := CONNECTING | OPEN | CLOSING | CLOSED.

Record WebSocket := {
  url : string;
  readyState : ReadyState;
  onopen : bool;
  onmessage : bool;
  onclose : bool;
  onerror : bool
}.

Record MediaSource := {
  ms_open : bool;        (* readyState === "open" *)
  ms_attached : bool;    (* currently the src / srcObject of the video element *)
  ms_sourceopen : bool   (* the once-listener for "sourceopen" is still registered *)
}.

Record SourceBuffer := {
  sb_owner : nat;        (* the MediaSource that created it *)
  updating : bool;
  sb_removed : bool;     (* removed from its MediaSource *)
  sb_listener : bool     (* the "updateend" listener created with it is registered *)
}.

(** [Uint8Array]: a length and the byte at every index below it. *)
Record Uint8Array := { bytes : Z -> byte; byteLength : Z }.

Definition Uint8Array_new (n : Z) : Uint8Array :=
  {| bytes := fun _ => x00; byteLength := n |}.

(** [a.set(src, offset)]; [None] is the RangeError of a source that does not fit. *)
Definition Uint8Array_set (a : Uint8Array) (src : list byte) (offset : Z) : option Uint8Array :=
  if (offset <? 0) || (byteLength a <? offset + Z.of_nat (length src)) then None
  else Some {| bytes := fun i =>
                 if (offset <=? i) && (i <? offset + Z.of_nat (length src))
                 then nth (Z.to_nat (i - offset)) src x00
                 else bytes a i;
               byteLength := byteLength a |}.

(** [a.subarray(0, n)], read out as the bytes an append copies from the view. *)
Definition subarray0 (a : Uint8Array) (n : Z) : list byte :=
  map (fun k => bytes a (Z.of_nat k)) (seq 0 (Z.to_nat n)).

Inductive Callback := ReconnectFire | StalledTick.

Record Timer := {
  tid : nat;
  cb : Callback;
  delay : Z;
  repeating : bool       (* setInterval rather than setTimeout *)
}.

Inductive DOMException := QuotaExceededError | InvalidStateError.

(** What the component does to the outside, in the order it does it. *)
Inductive Obs :=
  | Status (s : string)                               (* updateStatus(s) *)
  | Error (e : option string)                         (* updateError(e); [None] is null *)
  | Fired (t : Timer)                                 (* a timer callback starts *)
  | Arrived (d : list byte)                           (* a binary message enters appendData *)
  | Appended (s : nat) (d : list byte)                (* sb.appendBuffer(d) returned *)
  | Rejected (s : nat) (d : list byte) (e : DOMException) (* sb.appendBuffer(d) threw e *)
  | Removed (s : nat) (from to : Q)                   (* sb.remove(from, to) returned *)
  | Sent (i : nat) (m : JsonText).                    (* ws.send(m) on an open socket *)

(** ** The component state, [stateRef.current] *)

Record MSEBuffer := { buf_data : Uint8Array; buf_length : Z }.

Record State := {
  ws : option nat;
  ms : option nat;
  sb : option nat;
  sbUpdateHandler : option nat;   (* the handler closed over this SourceBuffer *)
  buffer : MSEBuffer;
  lastDataTime : Z;
  reconnectTimer : option nat;
  stalledCheckTimer : option nat;
  isMounted : bool;
  isReconnecting : bool
}.

Record World := {
  state : State;
  sockets : list WebSocket;
  sources : list MediaSource;
  sinks : list SourceBuffer;
  timers : list Timer;            (* live timers *)
  nextTimer : nat;
  Date_now : Z;
  videoRef : bool;                (* videoRef.current is an element *)
  trace : list Obs                (* oldest first *)
}.

(** Props and page environment, fixed during one mount. *)
Record Config := {
  src : string;
  media : string;
  origin : string;                     (* window.location.origin *)
  validURL : string -> bool;           (* new WebSocket(url) does not throw *)
  mediaSourceClass : bool;             (* ManagedMediaSource || MediaSource exists *)
  isTypeSupported : string -> bool
}.

Definition capacity : Z := 2 * 1024 * 1024.

Definition stateRef : State :=
  {| ws := None; ms := None; sb := None; sbUpdateHandler := None;
     buffer := {| buf_data := Uint8Array_new capacity; buf_length := 0 |};
     lastDataTime := 0; reconnectTimer := None; stalledCheckTimer := None;
     isMounted := true; isReconnecting := false |}.

(** The world when the component has rendered and no effect has run yet. *)
Definition rendered (t0 : Z) : World :=
  {| state := stateRef; sockets := []; sources := []; sinks := [];
     timers := []; nextTimer := 1; Date_now := t0; videoRef := true; trace := [] |}.

(** ** Field assignment *)

Definition set_ws v (s : State) : State :=
  {| ws := v; ms := ms s; sb := sb s; sbUpdateHandler := sbUpdateHandler s;
     buffer := buffer s; lastDataTime := lastDataTime s;
     reconnectTimer := reconnectTimer s; stalledCheckTimer := stalledCheckTimer s;
     isMounted := isMounted s; isReconnecting := isReconnecting s |}.
Definition set_ms v (s : State) : State :=
  {| ws := ws s; ms := v; sb := sb s; sbUpdateHandler := sbUpdateHandler s;
     buffer := buffer s; lastDataTime := lastDataTime s;
     reconnectTimer := reconnectTimer s; stalledCheckTimer := stalledCheckTimer s;
     isMounted := isMounted s; isReconnecting := isReconnecting s |}.
Definition set_sb v (s : State) : State :=
  {| ws := ws s; ms := ms s; sb := v; sbUpdateHandler := sbUpdateHandler s;
     buffer := buffer s; lastDataTime := lastDataTime s;
     reconnectTimer := reconnectTimer s; stalledCheckTimer := stalledCheckTimer s;
     isMounted := isMounted s; isReconnecting := isReconnecting s |}.
Definition set_sbUpdateHandler v (s : State) : State :=
  {| ws := ws s; ms := ms s; sb := sb s; sbUpdateHandler := v;
     buffer := buffer s; lastDataTime := lastDataTime s;
     reconnectTimer := reconnectTimer s; stalledCheckTimer := stalledCheckTimer s;
     isMounted := isMounted s; isReconnecting := isReconnecting s |}.
Definition set_buffer v (s : State) : State :=
  {| ws := ws s; ms := ms s; sb := sb s; sbUpdateHandler := sbUpdateHandler s;
     buffer := v; lastDataTime := lastDataTime s;
     reconnectTimer := reconnectTimer s; stalledCheckTimer := stalledCheckTimer s;
     isMounted := isMounted s; isReconnecting := isReconnecting s |}.
Definition set_lastDataTime v (s : State) : State :=
  {| ws := ws s; ms := ms s; sb := sb s; sbUpdateHandler := sbUpdateHandler s;
     buffer := buffer s; lastDataTime := v;
     reconnectTimer := reconnectTimer s; stalledCheckTimer := stalledCheckTimer s;
     isMounted := isMounted s; isReconnecting := isReconnecting s |}.
Definition set_reconnectTimer v (s : State) : State :=
  {| ws := ws s; ms := ms s; sb := sb s; sbUpdateHandler := sbUpdateHandler s;
     buffer := buffer s; lastDataTime := lastDataTime s;
     reconnectTimer := v; stalledCheckTimer := stalledCheckTimer s;
     isMounted := isMounted s; isReconnecting := isReconnecting s |}.
Definition set_stalledCheckTimer v (s : State) : State :=
  {| ws := ws s; ms := ms s; sb := sb s; sbUpdateHandler := sbUpdateHandler s;
     buffer := buffer s; lastDataTime := lastDataTime s;
     reconnectTimer := reconnectTimer s; stalledCheckTimer := v;
     isMounted := isMounted s; isReconnecting := isReconnecting s |}.
Definition set_isMounted v (s : State) : State :=
  {| ws := ws s; ms := ms s; sb := sb s; sbUpdateHandler := sbUpdateHandler s;
     buffer := buffer s; lastDataTime := lastDataTime s;
     reconnectTimer := reconnectTimer s; stalledCheckTimer := stalledCheckTimer s;
     isMounted := v; isReconnecting := isReconnecting s |}.
Definition set_isReconnecting v (s : State) : State :=
  {| ws := ws s; ms := ms s; sb := sb s; sbUpdateHandler := sbUpdateHandler s;
     buffer := buffer s; lastDataTime := lastDataTime s;
     reconnectTimer := reconnectTimer s; stalledCheckTimer := stalledCheckTimer s;
     isMounted := isMounted s; isReconnecting := v |}.

(** [state.buffer.length = n]: the arena object is kept. *)
Definition set_buf_length (n : Z) (s : State) : State :=
  set_buffer {| buf_data := buf_data (buffer s); buf_length := n |} s.

Definition upd_state (f : State -> State) (w : World) : World :=
  {| state := f (state w); sockets := sockets w; sources := sources w;
     sinks := sinks w; timers := timers w; nextTimer := nextTimer w;
     Date_now := Date_now w; videoRef := videoRef w; trace := trace w |}.
Definition set_sockets v (w : World) : World :=
  {| state := state w; sockets := v; sources := sources w;
     sinks := sinks w; timers := timers w; nextTimer := nextTimer w;
     Date_now := Date_now w; videoRef := videoRef w; trace := trace w |}.
Definition set_sources v (w : World) : World :=
  {| state := state w; sockets := sockets w; sources := v;
     sinks := sinks w; timers := timers w; nextTimer := nextTimer w;
     Date_now := Date_now w; videoRef := videoRef w; trace := trace w |}.
Definition set_sinks v (w : World) : World :=
  {| state := state w; sockets := sockets w; sources := sources w;
     sinks := v; timers := timers w; nextTimer := nextTimer w;
     Date_now := Date_now w; videoRef := videoRef w; trace := trace w |}.
Definition set_timers v (w : World) : World :=
  {| state := state w; sockets := sockets w; sources := sources w;
     sinks := sinks w; timers := v; nextTimer := nextTimer w;
     Date_now := Date_now w; videoRef := videoRef w; trace := trace w |}.
Definition set_nextTimer v (w : World) : World :=
  {| state := state w; sockets := sockets w; sources := sources w;
     sinks := sinks w; timers := timers w; nextTimer := v;
     Date_now := Date_now w; videoRef := videoRef w; trace := trace w |}.
Definition set_Date_now v (w : World) : World :=
  {| state := state w; sockets := sockets w; sources := sources w;
     sinks := sinks w; timers := timers w; nextTimer := nextTimer w;
     Date_now := v; videoRef := videoRef w; trace := trace w |}.
Definition set_videoRef v (w : World) : World :=
  {| state := state w; sockets := sockets w; sources := sources w;
     sinks := sinks w; timers := timers w; nextTimer := nextTimer w;
     Date_now := Date_now w; videoRef := v; trace := trace w |}.
Definition log (o : Obs) (w : World) : World :=
  {| state := state w; sockets := sockets w; sources := sources w;
     sinks := sinks w; timers := timers w; nextTimer := nextTimer w;
     Date_now := Date_now w; videoRef := videoRef w; trace := trace w ++ [o] |}.

Definition set_readyState v (k : WebSocket) : WebSocket :=
  {| url := url k; readyState := v; onopen := onopen k; onmessage := onmessage k;
     onclose := onclose k; onerror := onerror k |}.
Definition set_updating v (k : SourceBuffer) : SourceBuffer :=
  {| sb_owner := sb_owner k; updating := v; sb_removed := sb_removed k;
     sb_listener := sb_listener k |}.
Definition set_sb_removed v (k : SourceBuffer) : SourceBuffer :=
  {| sb_owner := sb_owner k; updating := updating k; sb_removed := v;
     sb_listener := sb_listener k |}.
Definition set_sb_listener v (k : SourceBuffer) : SourceBuffer :=
  {| sb_owner := sb_owner k; updating := updating k; sb_removed := sb_removed k;
     sb_listener := v |}.

(** ** Host operations the component calls *)

Definition updateStatus (s : string) (w : World) : World := log (Status s) w.
Definition updateError (e : option string) (w : World) : World := log (Error e) w.

(** [clearTimeout(id)] / [clearInterval(id)] *)
Definition clearTimer (id : nat) (w : World) : World :=
  set_timers (filter (fun t => tid t <> id) (timers w)) w.

(** [setTimeout(c, d)] / [setInterval(c, d)]: registers a timer, returns its id. *)
Definition setTimer (c : Callback) (d : Z) (rep : bool) (w : World) : nat * World :=
  let id := nextTimer w in
  (id, set_nextTimer (S id)
         (set_timers (timers w ++ [{| tid := id; cb := c; delay := d; repeating := rep |}]) w)).

(** Setting the four [on...] properties to null. *)
Definition detach (k : WebSocket) : WebSocket :=
  {| url := url k; readyState := readyState k; onopen := false; onmessage := false;
     onclose := false; onerror := false |}.

(** [ws.close()]: a socket that is not yet closed starts closing. *)
Definition closing (k : WebSocket) : WebSocket :=
  match readyState k with
  | CONNECTING | OPEN => set_readyState CLOSING k
  | CLOSING | CLOSED => k
  end.

(** [ws.send(m)]: delivered on an open socket, discarded on a closing or
    closed one; on a connecting one it throws, which ends the caller. *)
Definition ws_send (i : nat) (m : JsonText) (w : World) : World :=
  match sockets w !! i with
  | Some k => match readyState k with OPEN => log (Sent i m) w | _ => w end
  | None => w
  end.

Definition sb_updating (s : nat) (w : World) : bool :=
  match sinks w !! s with Some k => updating k | None => false end.

(** [sb.removeEventListener("updateend", h)], [h] the handler made for sink [h]. *)
Definition removeEventListener (s h : nat) (w : World) : World :=
  if Nat.eqb s h then set_sinks (alter (set_sb_listener false) s (sinks w)) w else w.

(** The loop over [ms.sourceBuffers]: every buffer of [m] is removed. *)
Definition removeSourceBuffers (m : nat) (w : World) : World :=
  set_sinks
    ((fun k => if Nat.eqb (sb_owner k) m then set_sb_removed true k else k) <$> sinks w) w.

Definition ms_is_open (m : nat) (w : World) : bool :=
  match sources w !! m with Some k => ms_open k | None => false end.

(** [video.src = ""; video.srcObject = null]: whatever was attached is
    detached and closes. *)
Definition unattached (k : MediaSource) : MediaSource :=
  {| ms_open := false; ms_attached := false; ms_sourceopen := ms_sourceopen k |}.

Definition detach_video (w : World) : World :=
  set_sources ((fun k => if ms_attached k then unattached k else k) <$> sources w) w.

(** [video.srcObject = ms] or [video.src = URL.createObjectURL(ms)] *)
Definition attach_video (m : nat) (w : World) : World :=
  let w := detach_video w in
  set_sources
    (alter (fun k => {| ms_open := ms_open k; ms_attached := true;
                        ms_sourceopen := ms_sourceopen k |}) m (sources w)) w.

(** What the host answers when the sink is asked to take bytes. *)
Inductive AppendOutcome := AppendOk | AppendThrows (e : DOMException).

(** [sb.appendBuffer(d)]; the second component is the exception, if any. *)
Definition appendBuffer (s : nat) (d : list byte) (o : AppendOutcome) (w : World)
  : World * option DOMException :=
  match sinks w !! s with
  | None => (w, Some InvalidStateError)
  | Some k =>
      if updating k || sb_removed k then
        (log (Rejected s d InvalidStateError) w, Some InvalidStateError)
      else
        match o with
        | AppendOk =>
            (log (Appended s d) (set_sinks (alter (set_updating true) s (sinks w)) w), None)
        | AppendThrows e => (log (Rejected s d e) w, Some e)
        end
  end.

(** What the host reports about buffered media when [trimBuffer] looks:
    [sb.buffered.start(0)] if [sb.buffered.length > 0], the playback position,
    and whether [sb.remove] would throw.  Seconds are rationals. *)
Record SinkView := {
  buffered : option Q;
  currentTime : Q;
  removeThrows : bool
}.

Definition Qgtb (a b : Q) : bool := negb (Qle_bool a b).

(** ** The effect body of [MSEVideoStream.js] *)

(** [cleanup] is a sequence of guarded blocks; each block is one function. *)

(** [if (state.reconnectTimer) { clearTimeout(..); state.reconnectTimer = null; }] *)
Definition cleanup_reconnectTimer (w : World) : World :=
  match reconnectTimer (state w) with
  | Some id => upd_state (set_reconnectTimer None) (clearTimer id w)
  | None => w
  end.

(** [if (state.stalledCheckTimer) { clearInterval(..); state.stalledCheckTimer = null; }] *)
Definition cleanup_stalledCheckTimer (w : World) : World :=
  match stalledCheckTimer (state w) with
  | Some id => upd_state (set_stalledCheckTimer None) (clearTimer id w)
  | None => w
  end.

(** [if (state.sb && state.sbUpdateHandler) { removeEventListener; handler = null; }] *)
Definition cleanup_listener (w : World) : World :=
  match sb (state w), sbUpdateHandler (state w) with
  | Some s, Some h => upd_state (set_sbUpdateHandler None) (removeEventListener s h w)
  | _, _ => w
  end.

(** [if (state.ws) { state.ws = null; ws.on... = null; ws.close(); }] *)
Definition cleanup_ws (w : World) : World :=
  match ws (state w) with
  | Some i =>
      let w := upd_state (set_ws None) w in
      let w := set_sockets (alter detach i (sockets w)) w in
      set_sockets (alter closing i (sockets w)) w
  | None => w
  end.

(** [if (state.ms) { if (readyState === "open") remove the buffers; state.ms = null; }] *)
Definition cleanup_ms (w : World) : World :=
  match ms (state w) with
  | Some m =>
      let w := if ms_is_open m w then removeSourceBuffers m w else w in
      upd_state (set_ms None) w
  | None => w
  end.

(** [if (videoRef.current) { src = ""; srcObject = null; ... }] *)
Definition cleanup_video (w : World) : World :=
  if videoRef w then detach_video w else w.

Definition cleanup (w : World) : World :=
  let w := cleanup_reconnectTimer w in
  let w := cleanup_stalledCheckTimer w in
  let w := cleanup_listener w in
  let w := cleanup_ws w in
  let w := cleanup_ms w in
  let w := cleanup_video w in
  let w := upd_state (set_sb None) w in
  let w := upd_state (set_buf_length 0) w in
  upd_state (set_lastDataTime 0) w.

Definition connect (cfg : Config) (w : World) : World :=
  let w := updateStatus "connecting" w in
  let u := wsURL (origin cfg) (src cfg) in
  if validURL cfg u then
    let i := length (sockets w) in
    let w := set_sockets
               (sockets w ++ [{| url := u; readyState := CONNECTING; onopen := true;
                                 onmessage := true; onclose := true; onerror := true |}]) w in
    upd_state (set_ws (Some i)) w
  else w.

Definition reconnect (w : World) : World :=
  if negb (isMounted (state w)) || isReconnecting (state w) then w
  else
    let w := upd_state (set_isReconnecting true) w in
    let w := cleanup w in
    let w := updateStatus "reconnecting" w in
    let '(id, w) := setTimer ReconnectFire 2000 false w in
    upd_state (set_reconnectTimer (Some id)) w.

(** The callback given to [setTimeout] in [reconnect]. *)
Definition reconnectFire (cfg : Config) (w : World) : World :=
  let w := upd_state (set_isReconnecting false) w in
  if isMounted (state w) then connect cfg w else w.

(** The callback given to [setInterval] in [startStalledCheck]. *)
Definition stalledTick (w : World) : World :=
  if lastDataTime (state w) =? 0 then w
  else
    let timeSinceLastData := Date_now w - lastDataTime (state w) in
    if 2000 <? timeSinceLastData then reconnect (updateStatus "stalled" w) else w.

Definition startStalledCheck (w : World) : World :=
  let w := match stalledCheckTimer (state w) with
           | Some id => clearTimer id w
           | None => w
           end in
  let '(id, w) := setTimer StalledTick 2000 true w in
  upd_state (set_stalledCheckTimer (Some id)) w.

Definition trimBuffer (v : SinkView) (w : World) : World :=
  match sb (state w) with
  | None => w
  | Some s =>
      match sinks w !! s with
      | None => w
      | Some k =>
          if updating k then w
          else if sb_removed k then w       (* sb.buffered throws; swallowed *)
          else
            match buffered v with
            | None => w
            | Some bufferedStart =>
                let currentTime := if videoRef w then currentTime v else 0%Q in
                if Qgtb (currentTime - bufferedStart) 10 then
                  if removeThrows v then w  (* swallowed *)
                  else
                    log (Removed s bufferedStart (currentTime - 5))
                      (set_sinks (alter (set_updating true) s (sinks w)) w)
                else w
            end
      end
  end.

Definition appendData (d : list byte) (o : AppendOutcome) (v : SinkView) (w : World) : World :=
  let w := log (Arrived d) w in
  let w := upd_state (set_lastDataTime (Date_now w)) w in
  match sb (state w) with
  | None => w
  | Some s =>
      let b := buffer (state w) in
      if sb_updating s w || (0 <? buf_length b) then
        let byteLength_d := Z.of_nat (length d) in
        if buf_length b + byteLength_d <=? byteLength (buf_data b) then
          match Uint8Array_set (buf_data b) d (buf_length b) with
          | Some a =>
              upd_state
                (set_buffer {| buf_data := a; buf_length := buf_length b + byteLength_d |}) w
          | None => w
          end
        else w
      else
        match appendBuffer s d o w with
        | (w, Some QuotaExceededError) => trimBuffer v w
        | (w, _) => w
        end
  end.

(** [state.sbUpdateHandler], the closure over the SourceBuffer [s]. *)
Definition sbUpdateHandler_run (s : nat) (o : AppendOutcome) (v : SinkView) (w : World) : World :=
  let b := buffer (state w) in
  let w :=
    if negb (sb_updating s w) && (0 <? buf_length b) then
      match appendBuffer s (subarray0 (buf_data b) (buf_length b)) o w with
      | (w, None) => upd_state (set_buf_length 0) w
      | (w, Some QuotaExceededError) => trimBuffer v w
      | (w, Some _) => w
      end
    else w in
  trimBuffer v w.

(** [addOk]: [ms.addSourceBuffer(codecString)] accepts the type; it throws in
    any case on a MediaSource that is not open, which ends the handler. *)
Definition setupSourceBuffer (codecString : string) (addOk : bool) (w : World) : World :=
  match ms (state w) with
  | None => w
  | Some m =>
      if ms_is_open m w && addOk then
        let s := length (sinks w) in
        let w := upd_state (set_sbUpdateHandler (Some s)) w in
        let w := set_sinks
                   (sinks w ++ [{| sb_owner := m; updating := false; sb_removed := false;
                                   sb_listener := true |}]) w in
        let w := upd_state (set_sb (Some s)) w in
        let w := updateStatus "streaming" w in
        startStalledCheck w
      else w
  end.

(** The "sourceopen" listener registered by [setupMSE]. *)
Definition onSourceOpen (cfg : Config) (w : World) : World :=
  let codecs := getSupportedCodecs (media cfg) (isTypeSupported cfg) in
  match ws (state w) with
  | Some i => ws_send i (mseMessage codecs) w
  | None => w
  end.

Definition setupMSE (cfg : Config) (w : World) : World :=
  if negb (mediaSourceClass cfg) then
    updateStatus "error" (updateError (Some "MediaSource not supported") w)
  else
    let m := length (sources w) in
    let w := set_sources
               (sources w ++ [{| ms_open := false; ms_attached := false;
                                 ms_sourceopen := true |}]) w in
    let w := upd_state (set_ms (Some m)) w in
    if videoRef w then attach_video m w else w.

(** A text message after [JSON.parse]; anything that is neither an "mse" nor
    an "error" message, or does not parse, leaves the state alone. *)
Inductive TextMsg := MsgMse (value : string) | MsgError (value : string) | MsgOther.

Definition ws_onopen (cfg : Config) (w : World) : World :=
  let w := updateStatus "open" w in
  let w := updateError None w in
  setupMSE cfg w.

Definition ws_onmessage_text (m : TextMsg) (addOk : bool) (w : World) : World :=
  match m with
  | MsgMse value => setupSourceBuffer value addOk w
  | MsgError value =>
      let w := updateError (Some value) w in
      let w := updateStatus "error" w in
      reconnect w
  | MsgOther => w
  end.

Definition ws_onclose (i : nat) (w : World) : World :=
  match ws (state w) with
  | Some j =>
      if Nat.eqb j i then
        let w := upd_state (set_ws None) w in
        let w := updateStatus "closed" w in
        reconnect w
      else w
  | None => w
  end.

Definition ws_onerror (w : World) : World :=
  let w := updateError (Some "Connection failed") w in
  updateStatus "error" w.

(** The effect body, and the cleanup function it returns. *)
Definition start (cfg : Config) (w : World) : World :=
  if String.eqb (src cfg) "" || negb (videoRef w) then w
  else
    let w := upd_state (set_isMounted true) w in
    let w := upd_state (set_isReconnecting false) w in
    connect cfg w.

Definition stop (w : World) : World :=
  let w := upd_state (set_isMounted false) w in
  cleanup w.

(** ** The host event loop

    One event is one callback of the host, run to completion.  An event that
    the host cannot deliver in the current world (a message on a socket that
    is not open, a timer that is not live, ...) leaves the world unchanged.
    Timers may fire at any moment; their delay is recorded, not enforced. *)

Inductive Event :=
  | WsOpen (i : nat)
  | WsText (i : nat) (m : TextMsg) (addOk : bool)
  | WsBinary (i : nat) (d : list byte) (o : AppendOutcome) (v : SinkView)
  | WsError (i : nat)
  | WsClose (i : nat)
  | SourceOpen (m : nat)
  | UpdateEnd (s : nat) (o : AppendOutcome) (v : SinkView)
  | TimerFire (id : nat)
  | ClockAdvance (dt : N).

Definition runCallback (cfg : Config) (c : Callback) (w : World) : World :=
  match c with
  | ReconnectFire => reconnectFire cfg w
  | StalledTick => stalledTick w
  end.

Definition step (cfg : Config) (w : World) (e : Event) : World :=
  match e with
  | WsOpen i =>
      match sockets w !! i with
      | Some k =>
          match readyState k with
          | CONNECTING =>
              let w := set_sockets (alter (set_readyState OPEN) i (sockets w)) w in
              if onopen k then ws_onopen cfg w else w
          | _ => w
          end
      | None => w
      end
  | WsText i m addOk =>
      match sockets w !! i with
      | Some k =>
          match readyState k with
          | OPEN => if onmessage k then ws_onmessage_text m addOk w else w
          | _ => w
          end
      | None => w
      end
  | WsBinary i d o v =>
      match sockets w !! i with
      | Some k =>
          match readyState k with
          | OPEN => if onmessage k then appendData d o v w else w
          | _ => w
          end
      | None => w
      end
  | WsError i =>
      match sockets w !! i with
      | Some k =>
          match readyState k with
          | CLOSED => w
          | _ => if onerror k then ws_onerror w else w
          end
      | None => w
      end
  | WsClose i =>
      match sockets w !! i with
      | Some k =>
          match readyState k with
          | CLOSED => w
          | _ =>
              let w := set_sockets (alter (set_readyState CLOSED) i (sockets w)) w in
              if onclose k then ws_onclose i w else w
          end
      | None => w
      end
  | SourceOpen m =>
      match sources w !! m with
      | Some k =>
          if ms_attached k && negb (ms_open k) then
            let w := set_sources
                       (alter (fun _ => {| ms_open := true; ms_attached := true;
                                           ms_sourceopen := false |}) m (sources w)) w in
            if ms_sourceopen k then onSourceOpen cfg w else w
          else w
      | None => w
      end
  | UpdateEnd s o v =>
      match sinks w !! s with
      | Some k =>
          if updating k then
            let w := set_sinks (alter (set_updating false) s (sinks w)) w in
            if sb_listener k then sbUpdateHandler_run s o v w else w
          else w
      | None => w
      end
  | TimerFire id =>
      match find (fun t => Nat.eqb (tid t) id) (timers w) with
      | Some t =>
          let w := if repeating t then w else clearTimer id w in
          runCallback cfg (cb t) (log (Fired t) w)
      | None => w
      end
  | ClockAdvance dt => set_Date_now (Date_now w + Z.of_N dt) w
  end.

Definition run (cfg : Config) (w : World) (es : list Event) : World :=
  fold_left (step cfg) es w.

(** What React does with the effect: deliver a host event, unmount the
    component (the ref is cleared, then the cleanup runs), or run the cleanup
    and the effect again with the same props. *)
Inductive Action := Host (e : Event) | Unmount | Rerun.

Definition act (cfg : Config) (w : World) (a : Action) : World :=
  match a with
  | Host e => step cfg w e
  | Unmount => stop (set_videoRef false w)
  | Rerun => start cfg (stop w)
  end.

Definition mount (cfg : Config) (t0 : Z) : World := start cfg (rendered t0).

Definition reachable (cfg : Config) (w : World) : Prop :=
  exists t0 acts, w = fold_left (act cfg) acts (mount cfg t0).

(** Projections of the trace. *)
Definition is_callback (o : Obs) : bool :=
  match o with Status _ | Error _ | Fired _ => true | _ => false end.

Definition callbacks (tr : list Obs) : list Obs :=
  filter (fun o => is_callback o = true) tr.

Definition arrivals (tr : list Obs) : list (list byte) :=
  omap (fun o => match o with Arrived d => Some d | _ => None end) tr.

Definition deliveries (tr : list Obs) : list (list byte) :=
  omap (fun o => match o with Appended _ d => Some d | _ => None end) tr.

Definition attempts (tr : list Obs) : list (nat * list byte) :=
  omap (fun o => match o with
                 | Appended s d | Rejected s d _ => Some (s, d)
                 | _ => None
                 end) tr.

Definition sent_on (i : nat) (tr : list Obs) : list JsonText :=
  omap (fun o => match o with
                 | Sent j m => if Nat.eqb j i then Some m else None
                 | _ => None
                 end) tr.

(** ** The second variant of [MSEVideoStream.tsx]: adaptive reconnect delay

    This variant keeps the time of the last [connect] in [connectTSRef] and
    waits only for what is left of 15 seconds since then.  Its [stateRef] has
    no [lastDataTime] and no [stalledCheckTimer]; those fields of [State] stay
    at their initial values here. *)

Module Adaptive.

Record World2 := { base : World; connectTSRef : Z }.

Definition on_base (f : World -> World) (w : World2) : World2 :=
  {| base := f (base w); connectTSRef := connectTSRef w |}.

Definition RECONNECT_TIMEOUT : Z := 15000.

(** [if (state.ws) { state.ws.onclose = null; state.ws.close(); state.ws = null; }] *)
Definition cleanup_ws (w : World) : World :=
  match ws (state w) with
  | Some i =>
      let w := set_sockets
                 (alter (fun k => {| url := url k; readyState := readyState k;
                                     onopen := onopen k; onmessage := onmessage k;
                                     onclose := false; onerror := onerror k |})
                    i (sockets w)) w in
      let w := set_sockets (alter closing i (sockets w)) w in
      upd_state (set_ws None) w
  | None => w
  end.

Definition cleanup (w : World) : World :=
  let w := cleanup_reconnectTimer w in
  let w := cleanup_listener w in
  let w := cleanup_ws w in
  let w := cleanup_ms w in
  let w := cleanup_video w in
  let w := upd_state (set_sb None) w in
  upd_state (set_buf_length 0) w.

(** [Math.max(RECONNECT_TIMEOUT - (Date.now() - connectTSRef.current), 0)] *)
Definition reconnect_delay (w : World2) : Z :=
  Z.max (RECONNECT_TIMEOUT - (Date_now (base w) - connectTSRef w)) 0.

Definition connect (cfg : Config) (w : World2) : World2 :=
  let w := on_base (updateStatus "connecting") w in
  let w := {| base := base w; connectTSRef := Date_now (base w) |} in
  let u := wsURL (origin cfg) (src cfg) in
  if validURL cfg u then
    let i := length (sockets (base w)) in
    let w := on_base (fun b =>
               set_sockets
                 (sockets b ++ [{| url := u; readyState := CONNECTING; onopen := true;
                                   onmessage := true; onclose := true; onerror := true |}]) b) w in
    on_base (upd_state (set_ws (Some i))) w
  else w.

Definition reconnect (w : World2) : World2 :=
  if negb (isMounted (state (base w))) || isReconnecting (state (base w)) then w
  else
    let delay := reconnect_delay w in
    let w := on_base (upd_state (set_isReconnecting true)) w in
    let w := on_base cleanup w in
    let w := if 500 <? delay then on_base (updateStatus "reconnecting") w else w in
    let '(id, b) := setTimer ReconnectFire delay false (base w) in
    {| base := upd_state (set_reconnectTimer (Some id)) b; connectTSRef := connectTSRef w |}.

Definition reconnectFire (cfg : Config) (w : World2) : World2 :=
  let w := on_base (upd_state (set_isReconnecting false)) w in
  if isMounted (state (base w)) then connect cfg w else w.

(** [dt] milliseconds pass. *)
Definition elapse (dt : Z) (w : World2) : World2 :=
  on_base (fun b => set_Date_now (Date_now b + dt) b) w.

(** [ws.onerror] of this variant reports the error and leaves the status. *)
Definition ws_onerror (w : World) : World :=
  updateError (Some "Connection failed") w.

(** The function the effect returns; the "pause" listener it also removes
    from the video element is not part of the modelled state. *)
Definition stop (w : World) : World :=
  cleanup (upd_state (set_isMounted false) w).

(** The host raises "error" on socket [i]. *)
Definition error_event (i : nat) (w : World) : World :=
  match sockets w !! i with
  | Some k =>
      match readyState k with
      | CLOSED => w
      | _ => if onerror k then ws_onerror w else w
      end
  | None => w
  end.

(** The second half of the updateend handler of this variant, "buffer
    management and smooth playback sync".  It runs when the SourceBuffer is
    not updating, something is buffered and the video element is there;
    [bufferedStart] is [sb.buffered.start(0)] and [bufferedEnd] the end of the
    last buffered range. *)
Record Playback := { position : Q; playbackRate : Q }.

Record Synced := {
  removed : option (Q * Q);          (* the arguments of [sb.remove], if called *)
  playback : Playback
}.

Definition Qltb (a b : Q) : bool := negb (Qle_bool b a).

Definition bufferSync (bufferedStart bufferedEnd : Q) (video : Playback) : Synced :=
  let start := (bufferedEnd - 5)%Q in
  let removed := if Qgtb start bufferedStart then Some (bufferedStart, start) else None in
  let position := if Qltb (position video) start then start else position video in
  let gap := (bufferedEnd - position)%Q in
  {| removed := removed;
     playback := {| position := position;
                    playbackRate := if Qgtb gap (1 # 10) then gap else (1 # 10)%Q |} |}.

End Adaptive.

(** ** What the specification asks of the negotiation, in its own words

    The accepted list is the candidate list filtered by requested media kind
    and by the support probe, in candidate order; it is sent comma-joined in
    one message [{type: "negotiate", codecs: <list>}]. *)

Definition spec_accepted (candidates : list string) (media : string)
    (probe : string -> bool) : list string :=
  filter (fun c => (JsString.includes media (kindOf c) && probe (mimeOf c)) = true) candidates.

Definition spec_negotiate_message (codecs : string) : JsonText :=
  JSON_stringify [("type", "negotiate"); ("codecs", codecs)].

(** Observations that only concern the sink's refusals and trims. *)
Definition sink_noise (o : Obs) : Prop :=
  match o with Rejected _ _ _ | Removed _ _ _ => True | _ => False end.

(** ** Invariants of the reachable worlds *)

(** A socket that can still run one of the component's handlers. *)
Definition live (k : WebSocket) : bool :=
  (onopen k || onmessage k || onclose k || onerror k) &&
  match readyState k with CLOSED => false | _ => true end.

(** Every live timer is the one the state remembers for its callback. *)
Definition timers_owned (w : World) : Prop :=
  forall t, t ∈ timers w ->
    match cb t with
    | ReconnectFire => reconnectTimer (state w) = Some (tid t) /\ repeating t = false
    | StalledTick => stalledCheckTimer (state w) = Some (tid t) /\ repeating t = true
    end.

Definition timers_fresh (w : World) : Prop :=
  NoDup (tid <$> timers w) /\ forall t, t ∈ timers w -> (tid t < nextTimer w)%nat.

(** The only socket that can still call back is [state.ws]. *)
Definition sockets_owned (w : World) : Prop :=
  forall i k, sockets w !! i = Some k -> live k = true -> ws (state w) = Some i.

(** While a reconnect is scheduled there is no current socket. *)
Definition reconnect_pending (w : World) : Prop :=
  forall t, t ∈ timers w -> cb t = ReconnectFire -> ws (state w) = None.

Definition buffer_bounded (w : World) : Prop :=
  0 <= buf_length (buffer (state w)) <= byteLength (buf_data (buffer (state w))) /\
  byteLength (buf_data (buffer (state w))) = capacity.

Record Inv (w : World) : Prop := {
  inv_owned : timers_owned w;
  inv_fresh : timers_fresh w;
  inv_sockets : sockets_owned w;
  inv_pending : reconnect_pending w;
  inv_buffer : buffer_bounded w
}.

(** After the effect cleanup nothing of the component can run a status,
    error or timer callback any more. *)
Record Silent (w : World) : Prop := {
  silent_unmounted : isMounted (state w) = false;
  silent_timers : timers w = [];
  silent_ws : ws (state w) = None;
  silent_sb : sb (state w) = None;
  silent_queue : buf_length (buffer (state w)) = 0;
  silent_sockets : forall i k, sockets w !! i = Some k -> live k = false
}.

(** The timers left after [clearTimeout(o)] when [o] is not null. *)
Definition cleared (o : option nat) (l : list Timer) : list Timer :=
  match o with Some id => filter (fun t => tid t <> id) l | None => l end.

(** [w'] differs from [w] at most in the sinks, the queue, [lastDataTime],
    the clock and by a longer trace. *)
Record same_ctl (w w' : World) : Prop := {
  ctl_timers : timers w' = timers w;
  ctl_nextTimer : nextTimer w' = nextTimer w;
  ctl_sockets : sockets w' = sockets w;
  ctl_sources : sources w' = sources w;
  ctl_videoRef : videoRef w' = videoRef w;
  ctl_ws : ws (state w') = ws (state w);
  ctl_ms : ms (state w') = ms (state w);
  ctl_sb : sb (state w') = sb (state w);
  ctl_reconnectTimer : reconnectTimer (state w') = reconnectTimer (state w);
  ctl_stalledCheckTimer : stalledCheckTimer (state w') = stalledCheckTimer (state w);
  ctl_isMounted : isMounted (state w') = isMounted (state w);
  ctl_isReconnecting : isReconnecting (state w') = isReconnecting (state w)
}.

#[global] Instance Callback_eq_dec : EqDecision Callback.
Proof. solve_decision. Defined.


(** Observations other than a segment arriving, a segment being taken by the
    sink, or a message being sent. *)
Definition quiet_obs (o : Obs) : Prop :=
  match o with Arrived _ | Appended _ _ | Sent _ _ => False | _ => True end.

(** [w'] comes from [w] without a segment arriving or being delivered and
    without a message being sent, with the queue either untouched or
    emptied. *)
Record quiet (w w' : World) : Prop := {
  quiet_trace : exists rest, trace w' = trace w ++ rest /\ Forall quiet_obs rest;
  quiet_buffer :
    buffer (state w') = buffer (state w) \/
    buffer (state w') = {| buf_data := buf_data (buffer (state w)); buf_length := 0 |}
}.

(** The bytes the sink has taken, and the bytes still queued, are the
    segments of a sub-sequence of the arrivals, in arrival order. *)
Definition order_kept (w : World) : Prop :=
  exists taken queued : list (list byte),
    (taken ++ queued) `sublist_of` arrivals (trace w) /\
    concat taken = concat (deliveries (trace w)) /\
    concat queued = subarray0 (buf_data (buffer (state w))) (buf_length (buffer (state w))).

(** The retention rule of [trimBuffer] fires: something is buffered from
    [start], playback is more than 10 seconds past it, and [sb.remove] does
    not throw. *)
Definition trim_due (v : SinkView) (w : World) (start : Q) : Prop :=
  buffered v = Some start /\
  Qgtb ((if videoRef w then currentTime v else 0%Q) - start) 10 = true /\
  removeThrows v = false.

(** The sink [s] is the current one and can take an append. *)
Definition sink_ready (s : nat) (w : World) : Prop :=
  sb (state w) = Some s /\
  exists k, sinks w !! s = Some k /\ updating k = false /\ sb_removed k = false /\
            sb_listener k = true.

(** Observations after the first append the sink refused for lack of room. *)
Fixpoint after_first_quota (tr : list Obs) : list Obs :=
  match tr with
  | [] => []
  | Rejected _ _ QuotaExceededError :: rest => rest
  | _ :: rest => after_first_quota rest
  end.

(** The appends tried again after that refusal. *)
Definition retries (tr : list Obs) : list (nat * list byte) :=
  attempts (after_first_quota tr).

(** What [reconnect] makes of the world [c] its [cleanup] left: the status,
    the timeout, and the timer id kept in the state. *)
Definition scheduled (c : World) : World :=
  upd_state (set_reconnectTimer (Some (nextTimer c)))
    (set_nextTimer (S (nextTimer c))
       (set_timers (timers c ++ [{| tid := nextTimer c; cb := ReconnectFire;
                                    delay := 2000; repeating := false |}])
          (log (Status "reconnecting") c))).

(** What the flags are while something of the component can still call back:
    a live watchdog or a live socket means mounted and not reconnecting; a
    scheduled reconnect means mounted and reconnecting. *)
Record Active (w : World) : Prop := {
  act_watchdog : forall t, t ∈ timers w -> cb t = StalledTick ->
                   isMounted (state w) = true /\ isReconnecting (state w) = false;
  act_socket : forall i k, sockets w !! i = Some k -> live k = true ->
                 isMounted (state w) = true /\ isReconnecting (state w) = false;
  act_reconnect : forall t, t ∈ timers w -> cb t = ReconnectFire ->
                    isMounted (state w) = true /\ isReconnecting (state w) = true
}.

(** ** A page, a sink and a server to run the component against *)

Definition camera_page : Config :=
  {| src := "/api/ws?src=camera1"; media := "video,audio";
     origin := "http://localhost:1984"; validURL := fun _ => true;
     mediaSourceClass := true; isTypeSupported := fun _ => true |}.

(** Nothing buffered yet: the retention rule has nothing to trim. *)
Definition nothing_buffered : SinkView :=
  {| buffered := None; currentTime := 0; removeThrows := false |}.

(** Twenty seconds buffered behind the playback position. *)
Definition long_buffered : SinkView :=
  {| buffered := Some 0%Q; currentTime := 20; removeThrows := false |}.

(** The session is open, negotiated and streaming; the clock still shows
    the time of the mount. *)
Definition streaming_since (t0 : Z) : World :=
  run camera_page (mount camera_page t0)
    [WsOpen 0; SourceOpen 0; WsText 0 (MsgMse "avc1.640029,mp4a.40.2") true].

(** A test clock that starts at 0: one segment arrives at once, then four
    seconds pass without data. *)
Definition silent_since_zero : World :=
  run camera_page (streaming_since 0)
    [WsBinary 0 [x01; x02] AppendOk nothing_buffered; ClockAdvance 4000].

(** The sink is busy with a first segment while two more arrive and queue;
    then it refuses the flush for lack of room three times in a row, each
    refusal followed by a trim. *)
Definition refused_three_times : World :=
  run camera_page (streaming_since 1000)
    [WsBinary 0 [x01] AppendOk nothing_buffered;
     WsBinary 0 [x02; x03] AppendOk nothing_buffered;
     WsBinary 0 [x04] AppendOk nothing_buffered;
     UpdateEnd 0 (AppendThrows QuotaExceededError) long_buffered;
     UpdateEnd 0 (AppendThrows QuotaExceededError) long_buffered;
     UpdateEnd 0 (AppendThrows QuotaExceededError) long_buffered].

(** ** The negotiation message *)

(** The message the "sourceopen" listener sends for this page. *)
Definition negotiate_message (cfg : Config) : JsonText :=
  mseMessage (getSupportedCodecs (media cfg) (isTypeSupported cfg)).

(** A MediaSource whose "sourceopen" listener can still run. *)
Definition awaiting_open (k : MediaSource) : bool :=
  ms_attached k && negb (ms_open k) && ms_sourceopen k.

(** Every socket has been sent the negotiation message at most once and
    nothing else; a socket that is still connecting, and the current socket
    while its MediaSource has not opened, have been sent nothing; at most one
    MediaSource is attached to the video element. *)
Record Sends (cfg : Config) (w : World) : Prop := {
  sends_once : forall i,
    sent_on i (trace w) = [] \/ sent_on i (trace w) = [negotiate_message cfg];
  sends_connecting : forall i k,
    sockets w !! i = Some k -> readyState k = CONNECTING -> sent_on i (trace w) = [];
  sends_fresh : forall i, (length (sockets w) <= i)%nat -> sent_on i (trace w) = [];
  sends_awaiting : forall m k i,
    sources w !! m = Some k -> awaiting_open k = true -> ws (state w) = Some i ->
    sent_on i (trace w) = [];
  sends_attached : forall m m' k k',
    sources w !! m = Some k -> sources w !! m' = Some k' ->
    ms_attached k = true -> ms_attached k' = true -> m = m'
}.

(** [w'] comes from [w] by a quiet step that creates no socket, puts no
    socket back to connecting, attaches no MediaSource, re-arms no
    "sourceopen" listener, and keeps or drops the current socket. *)
Record settles (w w' : World) : Prop := {
  settles_quiet : quiet w w';
  settles_length : length (sockets w') = length (sockets w);
  settles_connecting : forall i k',
    sockets w' !! i = Some k' -> readyState k' = CONNECTING ->
    exists k, sockets w !! i = Some k /\ readyState k = CONNECTING;
  settles_sources : forall m k',
    sources w' !! m = Some k' -> ms_attached k' = true ->
    exists k, sources w !! m = Some k /\ ms_attached k = true /\
              (awaiting_open k' = true -> awaiting_open k = true);
  settles_ws : ws (state w') = ws (state w) \/ ws (state w') = None
}.

(** Two segments wait in the queue behind a first one, and the sink has just
    finished with that first one: the world in which the updateend handler
    starts. *)
Definition ready_to_flush : World :=
  let w := run camera_page (streaming_since 1000)
             [WsBinary 0 [x01] AppendOk nothing_buffered;
              WsBinary 0 [x02; x03] AppendOk nothing_buffered;
              WsBinary 0 [x04] AppendOk nothing_buffered] in
  set_sinks (alter (set_updating false) 0%nat (sinks w)) w.

(** The adaptive variant, three seconds after its [connect]. *)
Definition three_seconds_in : Adaptive.World2 :=
  {| Adaptive.base := set_Date_now 4000 (mount camera_page 1000);
     Adaptive.connectTSRef := 1000 |}.

(** ** The shape of a session

    What is nested in what while the component runs: every socket but the
    current one has been closed or is closing; the current one has its four
    handlers and is connecting or open; a MediaSource exists only under an
    open current socket, a SourceBuffer only under a MediaSource, and the
    stall check is armed exactly while there is a SourceBuffer; the
    [isReconnecting] flag of a mounted component is backed by a pending
    timeout; every timer waits 2000 ms. *)
Record Session (w : World) : Prop := {
  ses_closed : forall i k, sockets w !! i = Some k -> ws (state w) <> Some i ->
                 readyState k = CLOSING \/ readyState k = CLOSED;
  ses_current : forall i, ws (state w) = Some i ->
                  exists k, sockets w !! i = Some k /\
                    onopen k = true /\ onmessage k = true /\
                    onclose k = true /\ onerror k = true /\
                    (readyState k = CONNECTING \/ readyState k = OPEN) /\
                    (ms (state w) <> None -> readyState k = OPEN);
  ses_flag : isMounted (state w) = true -> isReconnecting (state w) = true ->
               exists t, t ∈ timers w /\ cb t = ReconnectFire;
  ses_ms : ms (state w) <> None -> ws (state w) <> None;
  ses_sb : sb (state w) <> None -> ms (state w) <> None;
  ses_armed : sb (state w) = None <-> stalledCheckTimer (state w) = None;
  ses_watchdog : forall id, stalledCheckTimer (state w) = Some id ->
                   exists t, t ∈ timers w /\ tid t = id /\ cb t = StalledTick;
  ses_delay : forall t, t ∈ timers w -> delay t = 2000
}.

(** A page that gives the player no address. *)
Definition no_address : Config :=
  {| src := ""; media := "video,audio"; origin := "http://localhost:1984";
     validURL := fun _ => true; mediaSourceClass := true;
     isTypeSupported := fun _ => true |}.

(** Host events of the data path alone: a binary message, or time passing. *)
Definition data_event (e : Event) : bool :=
  match e with WsBinary _ _ _ _ | ClockAdvance _ => true | _ => false end.

(** ** The first version of the component ([unnamed/part_003])

    Its first effect shortens the candidate list on Safari, once, before any
    negotiation.  [m] is the capture of [/Version\/(\d+).+Safari/] in the
    user agent, if the expression matches. *)

Module FirstVersion.

(** [a < b] on strings: by code units, a proper prefix being smaller. *)
Definition lt (a b : string) : bool := String.ltb a b.

(** [m[1] < "13" ? "mp4a.40.2" : m[1] < "14" ? "flac" : "opus"] *)
Definition skip (version : string) : string :=
  if lt version "13" then "mp4a.40.2" else if lt version "14" then "flac" else "opus".

(** [codecs.indexOf(x)], -1 when [x] is absent. *)
Fixpoint indexOfFrom (codecs : list string) (x : string) (i : Z) : Z :=
  match codecs with
  | [] => -1
  | c :: rest => if String.eqb c x then i else indexOfFrom rest x (i + 1)
  end.

Definition indexOf (codecs : list string) (x : string) : Z := indexOfFrom codecs x 0.

(** What [codecs.splice(index)] leaves in the array: with one argument,
    everything from [index] on is removed. *)
Definition splice (codecs : list string) (index : Z) : list string :=
  firstn (Z.to_nat index) codecs.

Definition safariCodecs (m : option string) (codecs : list string) : list string :=
  match m with
  | Some version =>
      let index := indexOf codecs (skip version) in
      if -1 <? index then splice codecs index else codecs
  | None => codecs
  end.

End FirstVersion.

(** No MediaSource and no SourceBuffer was ever created, nothing was sent and
    nothing was handed to a sink. *)
Definition without_media_source (w : World) : Prop :=
  sources w = [] /\ sinks w = [] /\ ms (state w) = None /\ sb (state w) = None /\
  deliveries (trace w) = [] /\ forall i, sent_on i (trace w) = [].

(** ** The statuses reported

    The statuses the status callback has received so far, oldest first. *)
Definition statuses (tr : list Obs) : list string :=
  omap (fun o => match o with Status s => Some s | _ => None end) tr.

(** The strings [updateStatus] is ever called with. *)
Definition StreamStatus : list string :=
  ["connecting"; "open"; "streaming"; "closed"; "error"; "reconnecting"; "stalled"].

(** What may be reported right after what: "stalled" and "closed" are
    answered by "reconnecting" at once, and "reconnecting" by "connecting". *)
Definition may_follow (a b : string) : bool :=
  if String.eqb a "stalled" || String.eqb a "closed" then String.eqb b "reconnecting"
  else if String.eqb a "reconnecting" then String.eqb b "connecting"
  else true.

Fixpoint well_sequenced (l : list string) : bool :=
  match l with
  | [] => true
  | a :: rest =>
      match rest with [] => true | b :: _ => may_follow a b end && well_sequenced rest
  end.

(** The reports so far are well sequenced, do not end in a status that is
    still owed its "reconnecting", and while they end in "reconnecting" the
    component has no socket and waits for the reconnect timeout only. *)
Record Reported (w : World) : Prop := {
  rep_known : Forall (fun s => s ∈ StreamStatus) (statuses (trace w));
  rep_sequenced : well_sequenced (statuses (trace w)) = true;
  rep_settled : forall s, last (statuses (trace w)) = Some s ->
                  s <> "stalled" /\ s <> "closed";
  rep_waiting : last (statuses (trace w)) = Some "reconnecting" ->
                  ws (state w) = None /\
                  forall t, t ∈ timers w -> cb t = ReconnectFire
}.

(** * Properties *)

(** ** Strings *)

Lemma app_nil_l (s : string) : "" +:+ s = s.
Proof. reflexivity. Qed.

Lemma app_cons (c : ascii) (p s : string) : String c p +:+ s = String c (p +:+ s).
Proof. reflexivity. Qed.

Lemma startsWith_app (p s : string) : JsString.startsWith (p +:+ s) p = true.
Proof.
  induction p as [|c p IH]; [reflexivity|].
  rewrite app_cons. simpl. rewrite Ascii.eqb_refl. exact IH.
Qed.

Lemma substring_app (p s : string) :
  JsString.substring (p +:+ s) (String.length p) = s.
Proof.
  induction p as [|c p IH]; [reflexivity|].
  rewrite app_cons. simpl. exact IH.
Qed.

Lemma startsWith_split (s p : string) :
  JsString.startsWith s p = true ->
  s = p +:+ JsString.substring s (String.length p).
Proof.
  revert s. induction p as [|c p IH]; intros s H; [reflexivity|].
  destruct s as [|d s]; [discriminate|]. simpl in H.
  destruct (Ascii.eqb c d) eqn:E; [|discriminate].
  apply Ascii.eqb_eq in E. subst d. rewrite app_cons. simpl. f_equal. apply IH, H.
Qed.

(** ** Address normalisation *)

Lemma wsURL_http (origin rest : string) :
  wsURL origin ("http" +:+ rest) = "ws" +:+ rest.
Proof.
  unfold wsURL. now rewrite (startsWith_app "http" rest).
Qed.

(** C9. An address that begins with the four characters [http], whatever
    follows them, has these four characters replaced by [ws]: [http://]
    becomes [ws://] and [https://] becomes [wss://].  Any other address that
    begins with [/] is appended to the page origin whose first four
    characters are replaced by [ws].  An address that begins with neither is
    used as it is.  The three cases cover every address. *)
Theorem wsURL_normalisation (origin src : string) :
  (forall rest, src = "http" +:+ rest -> wsURL origin src = "ws" +:+ rest) /\
  (forall rest, src = "http://" +:+ rest -> wsURL origin src = "ws://" +:+ rest) /\
  (forall rest, src = "https://" +:+ rest -> wsURL origin src = "wss://" +:+ rest) /\
  (forall rest, src = "/" +:+ rest ->
     wsURL origin src = "ws" +:+ JsString.substring origin 4 +:+ src /\
     (forall host, origin = "http://" +:+ host -> wsURL origin src = "ws://" +:+ host +:+ src) /\
     (forall host, origin = "https://" +:+ host -> wsURL origin src = "wss://" +:+ host +:+ src)) /\
  ((forall rest, src <> "http" +:+ rest) -> (forall rest, src <> "/" +:+ rest) ->
     wsURL origin src = src).
Proof.
  split; [|split; [|split; [|split]]].
  - intros rest ->. apply wsURL_http.
  - intros rest ->. apply (wsURL_http origin ("://" +:+ rest)).
  - intros rest ->. apply (wsURL_http origin ("s://" +:+ rest)).
  - intros rest ->. split; [reflexivity|].
    split; intros host ->; reflexivity.
  - intros H1 H2. unfold wsURL.
    destruct (JsString.startsWith src "http") eqn:E1.
    { apply startsWith_split in E1. destruct (H1 _ E1). }
    destruct (JsString.startsWith src "/") eqn:E2.
    { apply startsWith_split in E2. destruct (H2 _ E2). }
    reflexivity.
Qed.

Lemma wsURL_normalisation_witness :
  wsURL "https://cam.local" "httpd.example/ws" = "wsd.example/ws" /\
  wsURL "https://cam.local" "http://host:1984/api/ws?src=a" = "ws://host:1984/api/ws?src=a" /\
  wsURL "https://cam.local" "https://host/api/ws" = "wss://host/api/ws" /\
  wsURL "https://cam.local" "/api/ws?src=a" = "wss://cam.local/api/ws?src=a" /\
  wsURL "https://cam.local" "ws://host/api/ws" = "ws://host/api/ws".
Proof.
  split; [|split; [|split; [|split]]].
  - apply (proj1 (wsURL_normalisation "https://cam.local" "httpd.example/ws")).
    reflexivity.
  - apply (proj1 (proj2 (wsURL_normalisation "https://cam.local"
                           "http://host:1984/api/ws?src=a"))).
    reflexivity.
  - apply (proj1 (proj2 (proj2 (wsURL_normalisation "https://cam.local"
                                  "https://host/api/ws")))).
    reflexivity.
  - exact (proj2 (proj2 (proj1 (proj2 (proj2 (proj2
             (wsURL_normalisation "https://cam.local" "/api/ws?src=a")))) "api/ws?src=a"
             eq_refl)) "cam.local" eq_refl).
  - apply (proj2 (proj2 (proj2 (proj2 (wsURL_normalisation "https://cam.local"
                                         "ws://host/api/ws")))));
      intros rest H; rewrite !app_cons in H; discriminate.
Defined.

(** The address [httpx://h/p] begins with neither [http://] nor [https://]
    nor [/], and yet it is not used as it is. *)
Lemma wsURL_rewrites_other_http_prefixes :
  JsString.startsWith "httpx://h/p" "http://" = false /\
  JsString.startsWith "httpx://h/p" "https://" = false /\
  JsString.startsWith "httpx://h/p" "/" = false /\
  wsURL "https://cam.local" "httpx://h/p" = "wsx://h/p" /\
  wsURL "https://cam.local" "httpx://h/p" <> "httpx://h/p".
Proof. repeat split; try reflexivity. discriminate. Qed.

(** ** The adaptive reconnect delay *)

Lemma setTimer_timers c d rep w :
  timers (snd (setTimer c d rep w)) =
  timers w ++ [{| tid := nextTimer w; cb := c; delay := d; repeating := rep |}].
Proof. reflexivity. Qed.

Lemma adaptive_cleanup_nextTimer w : nextTimer (Adaptive.cleanup w) = nextTimer w.
Proof.
  unfold Adaptive.cleanup, Adaptive.cleanup_ws, cleanup_reconnectTimer, cleanup_listener,
    cleanup_ms, cleanup_video, removeEventListener, removeSourceBuffers, detach_video,
    clearTimer.
  cbn [nextTimer upd_state].
  repeat (case_match; cbn [nextTimer upd_state set_sinks set_sources set_timers set_sockets]);
    reflexivity.
Qed.

(** ** The sink operations leave the component state alone *)

Ltac destruct_world w :=
  destruct w as [[f_ws f_ms f_sb f_handler [f_data f_length] f_lastData f_reconnect
                    f_stalled f_mounted f_reconnecting]
                   f_sockets f_sources f_sinks f_timers f_next f_now f_video f_trace].

Ltac crunch :=
  repeat (simpl in *; try reflexivity; try discriminate; case_match);
  simpl in *; try reflexivity; try discriminate.

Lemma trimBuffer_state v w : state (trimBuffer v w) = state w.
Proof. unfold trimBuffer. crunch. Qed.

Lemma appendBuffer_state s d o w : state (fst (appendBuffer s d o w)) = state w.
Proof. unfold appendBuffer. crunch. Qed.

Lemma appendBuffer_throws_sinks s d o w e :
  snd (appendBuffer s d o w) = Some e -> sinks (fst (appendBuffer s d o w)) = sinks w.
Proof. unfold appendBuffer. intros H. crunch. Qed.

Lemma appendBuffer_throws_trace s d o w e :
  snd (appendBuffer s d o w) = Some e ->
  attempts (trace (fst (appendBuffer s d o w))) = attempts (trace w) ++ [(s, d)] \/
  (sinks w !! s = None /\ trace (fst (appendBuffer s d o w)) = trace w).
Proof.
  unfold appendBuffer, attempts. intros H. crunch;
    try (left; rewrite omap_app; reflexivity).
  right. split; reflexivity.
Qed.

Lemma appendBuffer_ok s d o w :
  snd (appendBuffer s d o w) = None ->
  o = AppendOk /\
  trace (fst (appendBuffer s d o w)) = trace w ++ [Appended s d] /\
  sb_updating s (fst (appendBuffer s d o w)) = true /\
  sb_updating s w = false.
Proof.
  unfold appendBuffer, sb_updating. intros H.
  destruct (sinks w !! s) as [k|] eqn:L; [|discriminate].
  destruct (updating k || sb_removed k) eqn:U; [discriminate|].
  destruct o; [|discriminate]. simpl.
  rewrite list_lookup_alter_eq, L. simpl.
  apply orb_false_elim in U. destruct U as [U1 U2]. rewrite U1. auto.
Qed.

(** ** Flushing the queue *)

(** C10. If the append of a flush throws, the queue (arena and logical
    length) is exactly what it was; the arena is never replaced by a flush;
    and the length changes only when the append returned, in which case it
    becomes 0. *)
Theorem flush_failure_keeps_queue s o v w :
  let b := buffer (state w) in
  let w' := sbUpdateHandler_run s o v w in
  buf_data (buffer (state w')) = buf_data b /\
  (forall e, snd (appendBuffer s (subarray0 (buf_data b) (buf_length b)) o w) = Some e ->
     buffer (state w') = b) /\
  (buf_length (buffer (state w')) <> buf_length b ->
     snd (appendBuffer s (subarray0 (buf_data b) (buf_length b)) o w) = None /\
     buf_length (buffer (state w')) = 0).
Proof.
  intros b w'. subst b w'. unfold sbUpdateHandler_run.
  destruct (negb (sb_updating s w) && (0 <? buf_length (buffer (state w)))) eqn:G.
  - destruct (appendBuffer s _ o w) as [w1 r] eqn:A.
    pose proof (appendBuffer_state s (subarray0 (buf_data (buffer (state w)))
                  (buf_length (buffer (state w)))) o w) as S.
    rewrite A in S. simpl in S.
    destruct r as [[|]|]; rewrite ?trimBuffer_state; simpl;
      rewrite ?trimBuffer_state, ?S.
    + split; [reflexivity|]. split; [reflexivity|]. intros N. now elim N.
    + split; [reflexivity|]. split; [reflexivity|]. intros N. now elim N.
    + simpl. split; [reflexivity|]. split; [discriminate|]. intros _. split; reflexivity.
  - rewrite trimBuffer_state. split; [reflexivity|]. split; [reflexivity|].
    intros N. now elim N.
Qed.

(** ** The arena *)

Lemma subarray0_length a n : 0 <= n -> Z.of_nat (length (subarray0 a n)) = n.
Proof. intros H. unfold subarray0. rewrite length_map, length_seq. lia. Qed.

Lemma map_seq_nth (f : nat -> byte) (d : list byte) (s : nat) :
  (forall n, (n < length d)%nat -> f (s + n)%nat = nth n d x00) ->
  map f (seq s (length d)) = d.
Proof.
  revert s. induction d as [|x d IH]; intros s H; [reflexivity|].
  simpl. f_equal.
  - specialize (H 0%nat). simpl in H. rewrite <- H by lia. f_equal. lia.
  - apply IH. intros n Hn. specialize (H (S n)). simpl in H.
    rewrite <- H by lia. f_equal. lia.
Qed.

Lemma Uint8Array_set_fits a d off :
  0 <= off -> off + Z.of_nat (length d) <= byteLength a ->
  exists a', Uint8Array_set a d off = Some a' /\
             byteLength a' = byteLength a /\
             subarray0 a' (off + Z.of_nat (length d)) = subarray0 a off ++ d.
Proof.
  intros H0 H1. unfold Uint8Array_set.
  destruct (Z.ltb_spec off 0); [lia|].
  destruct (Z.ltb_spec (byteLength a) (off + Z.of_nat (length d))); [lia|]. simpl.
  eexists. split; [reflexivity|]. split; [reflexivity|].
  unfold subarray0. simpl.
  replace (Z.to_nat (off + Z.of_nat (length d))) with (Z.to_nat off + length d)%nat by lia.
  rewrite seq_app, map_app. f_equal.
  - apply map_ext_in. intros k Hk. apply in_seq in Hk.
    destruct (Z.leb_spec off (Z.of_nat k)); [lia | reflexivity].
  - simpl. apply map_seq_nth. intros n Hn.
    destruct (Z.leb_spec off (Z.of_nat (Z.to_nat off + n))); [|lia].
    destruct (Z.ltb_spec (Z.of_nat (Z.to_nat off + n)) (off + Z.of_nat (length d))); [|lia].
    simpl. f_equal. lia.
Qed.

Lemma trimBuffer_trace v w :
  trace (trimBuffer v w) = trace w \/
  exists s a b, sb (state w) = Some s /\ sb_updating s w = false /\
                trace (trimBuffer v w) = trace w ++ [Removed s a b].
Proof.
  unfold trimBuffer, sb_updating.
  destruct (sb (state w)) as [s|]; [|now left].
  destruct (sinks w !! s) as [k|] eqn:L; [|now left].
  destruct (updating k) eqn:U; [now left|].
  destruct (sb_removed k); [now left|].
  destruct (buffered v) as [q|]; [|now left].
  destruct (Qgtb _ 10); [|now left].
  destruct (removeThrows v); [now left|].
  right. do 3 eexists. split; [reflexivity|]. rewrite L. split; [exact U|reflexivity].
Qed.

(** What one arriving segment does to the queue and to the sink. *)
Lemma appendData_cases d o v w :
  let b := buffer (state w) in
  let w' := appendData d o v w in
  let n := Z.of_nat (length d) in
  (* queued behind what is already waiting *)
  (exists s a, sb (state w) = Some s /\
     (sb_updating s w || (0 <? buf_length b)) = true /\
     buf_length b + n <= byteLength (buf_data b) /\
     Uint8Array_set (buf_data b) d (buf_length b) = Some a /\
     buffer (state w') = {| buf_data := a; buf_length := buf_length b + n |} /\
     trace w' = trace w ++ [Arrived d]) \/
  (* handed to the sink at once *)
  (exists s, sb (state w) = Some s /\
     (sb_updating s w || (0 <? buf_length b)) = false /\
     buffer (state w') = b /\
     trace w' = trace w ++ [Arrived d; Appended s d]) \/
  (* lost: no sink, no room, or the sink refused *)
  (buffer (state w') = b /\
   exists rest, trace w' = trace w ++ Arrived d :: rest /\
     Forall sink_noise rest).
Proof.
  intros b w' n. subst b w' n. unfold appendData.
  cbn [state upd_state log sb set_lastDataTime buffer].
  destruct (sb (state w)) as [s|] eqn:Hs.
  2:{ right; right. split; [reflexivity|]. exists []. split; [reflexivity | constructor]. }
  change (sb_updating s (upd_state _ (log _ w))) with (sb_updating s w).
  destruct (sb_updating s w || (0 <? buf_length (buffer (state w)))) eqn:G.
  - destruct (Z.leb_spec (buf_length (buffer (state w)) + Z.of_nat (length d))
                (byteLength (buf_data (buffer (state w))))) as [Hfit|Hfull].
    + destruct (Uint8Array_set _ d _) as [a|] eqn:Hset.
      * left. exists s, a. repeat split; assumption || reflexivity.
      * right; right. split; [reflexivity|]. exists []. split; [reflexivity | constructor].
    + right; right. split; [reflexivity|]. exists []. split; [reflexivity | constructor].
  - set (w0 := upd_state _ (log (Arrived d) w)).
    destruct (appendBuffer s d o w0) as [w1 r] eqn:A.
    pose proof (appendBuffer_state s d o w0) as S. rewrite A in S. simpl in S.
    destruct r as [e|].
    + right; right.
      assert (Hw1 : exists rest1, trace w1 = trace w ++ Arrived d :: rest1 /\
          Forall sink_noise rest1).
      { revert A. unfold appendBuffer.
        destruct (sinks w0 !! s) as [k|].
        - destruct (updating k || sb_removed k).
          + intros [= <- <-]. eexists [_]. simpl. rewrite <- app_assoc. split; [reflexivity|].
            repeat constructor.
          + destruct o; intros [= <- ?]. eexists [_]. simpl. rewrite <- app_assoc.
            split; [reflexivity|]. repeat constructor.
        - intros [= <- <-]. exists []. split; [reflexivity|constructor]. }
      destruct Hw1 as (rest1 & Ht & Hf).
      destruct e.
      * rewrite trimBuffer_state, S. split; [reflexivity|].
        destruct (trimBuffer_trace v w1) as [E|(s' & a & b' & _ & _ & E)]; rewrite E, Ht.
        -- eauto.
        -- exists (rest1 ++ [Removed s' a b']). rewrite <- app_assoc. simpl.
           split; [reflexivity|]. apply Forall_app. split; [assumption|repeat constructor].
      * rewrite S. split; [reflexivity|]. eauto.
    + right; left. exists s.
      pose proof (appendBuffer_ok s d o w0) as K. rewrite A in K. simpl in K.
      destruct (K eq_refl) as (_ & Ht & _ & _).
      rewrite S. split; [reflexivity|]. split; [exact G|]. split; [reflexivity|].
      rewrite Ht. subst w0. simpl. now rewrite <- app_assoc.
Qed.

Lemma trimBuffer_noise v w :
  exists rest, trace (trimBuffer v w) = trace w ++ rest /\ Forall sink_noise rest.
Proof.
  destruct (trimBuffer_trace v w) as [E|(s & a & b & _ & _ & E)]; rewrite E.
  - exists []. rewrite app_nil_r. split; [reflexivity|constructor].
  - eexists. split; [reflexivity|]. repeat constructor.
Qed.

(** What one run of the updateend handler does to the queue and to the sink. *)
Lemma sbUpdateHandler_run_cases s o v w :
  let b := buffer (state w) in
  let w' := sbUpdateHandler_run s o v w in
  (* flushed: the whole queue went to the sink in one append *)
  (sb_updating s w = false /\ 0 < buf_length b /\
   state w' = set_buf_length 0 (state w) /\
   exists rest, trace w' = trace w ++ Appended s (subarray0 (buf_data b) (buf_length b)) :: rest /\
                Forall sink_noise rest) \/
  (* kept *)
  (state w' = state w /\
   exists rest, trace w' = trace w ++ rest /\ Forall sink_noise rest).
Proof.
  intros b w'. subst b w'. unfold sbUpdateHandler_run.
  destruct (negb (sb_updating s w) && (0 <? buf_length (buffer (state w)))) eqn:G.
  - apply andb_true_iff in G. destruct G as [G1 G2].
    apply negb_true_iff in G1. apply Z.ltb_lt in G2.
    set (d := subarray0 _ _).
    destruct (appendBuffer s d o w) as [w1 r] eqn:A.
    pose proof (appendBuffer_state s d o w) as S. rewrite A in S. simpl in S.
    destruct r as [e|].
    + right.
      assert (Hw1 : exists rest1, trace w1 = trace w ++ rest1 /\ Forall sink_noise rest1).
      { revert A. unfold appendBuffer.
        destruct (sinks w !! s) as [k|].
        - destruct (updating k || sb_removed k).
          + intros [= <- <-]. eexists [_]. split; [reflexivity|]. repeat constructor.
          + destruct o; intros [= <- ?]. eexists [_]. split; [reflexivity|]. repeat constructor.
        - intros [= <- <-]. exists []. rewrite app_nil_r. split; [reflexivity|constructor]. }
      destruct Hw1 as (rest1 & Ht & Hf).
      destruct e; simpl.
      * rewrite !trimBuffer_state. split; [exact S|].
        destruct (trimBuffer_noise v w1) as (r2 & E2 & F2).
        destruct (trimBuffer_noise v (trimBuffer v w1)) as (r3 & E3 & F3).
        rewrite E3, E2, Ht, <- !app_assoc.
        eexists. split; [reflexivity|]. rewrite !Forall_app. tauto.
      * rewrite trimBuffer_state. split; [exact S|].
        destruct (trimBuffer_noise v w1) as (r3 & E3 & F3).
        rewrite E3, Ht, <- app_assoc.
        eexists. split; [reflexivity|]. apply Forall_app. tauto.
    + left. split; [exact G1|]. split; [exact G2|]. simpl.
      rewrite trimBuffer_state. simpl. rewrite S. split; [reflexivity|].
      pose proof (appendBuffer_ok s d o w) as K. rewrite A in K. simpl in K.
      destruct (K eq_refl) as (_ & Ht & _ & _).
      destruct (trimBuffer_noise v (upd_state (set_buf_length 0) w1)) as (r3 & E3 & F3).
      rewrite E3. simpl. rewrite Ht, <- app_assoc. simpl. eauto.
  - right. rewrite trimBuffer_state. split; [reflexivity|]. apply trimBuffer_noise.
Qed.

(** ** [cleanup], block by block *)

Lemma cleanup_reconnectTimer_eq w :
  cleanup_reconnectTimer w =
  upd_state (set_reconnectTimer None)
    (set_timers (cleared (reconnectTimer (state w)) (timers w)) w).
Proof.
  destruct_world w. unfold cleanup_reconnectTimer. cbn.
  destruct f_reconnect; reflexivity.
Qed.

Lemma cleanup_stalledCheckTimer_eq w :
  cleanup_stalledCheckTimer w =
  upd_state (set_stalledCheckTimer None)
    (set_timers (cleared (stalledCheckTimer (state w)) (timers w)) w).
Proof.
  destruct_world w. unfold cleanup_stalledCheckTimer. cbn.
  destruct f_stalled; reflexivity.
Qed.

Lemma cleanup_listener_eq w :
  exists h k, cleanup_listener w = upd_state (set_sbUpdateHandler h) (set_sinks k w).
Proof.
  destruct_world w. unfold cleanup_listener, removeEventListener. cbn.
  destruct f_sb as [s|]; [destruct f_handler as [h|]|].
  - destruct (Nat.eqb s h); eexists _, _; reflexivity.
  - eexists _, _; reflexivity.
  - eexists _, _; reflexivity.
Qed.

Lemma cleanup_ws_eq w :
  cleanup_ws w =
  upd_state (set_ws None)
    (set_sockets match ws (state w) with
                 | Some i => alter closing i (alter detach i (sockets w))
                 | None => sockets w
                 end w).
Proof.
  destruct_world w. unfold cleanup_ws. cbn. destruct f_ws; reflexivity.
Qed.

Lemma cleanup_ms_eq w :
  exists k, cleanup_ms w = upd_state (set_ms None) (set_sinks k w).
Proof.
  destruct_world w. unfold cleanup_ms, removeSourceBuffers. cbn.
  destruct f_ms as [m|]; [|eexists; reflexivity].
  destruct (ms_is_open m _); eexists; reflexivity.
Qed.

Lemma cleanup_video_eq w :
  cleanup_video w =
  set_sources (if videoRef w
               then (fun k => if ms_attached k then unattached k else k) <$> sources w
               else sources w) w.
Proof.
  destruct_world w. unfold cleanup_video, detach_video. cbn. destruct f_video; reflexivity.
Qed.

Ltac cleanup_blocks :=
  unfold cleanup;
  rewrite cleanup_reconnectTimer_eq, cleanup_stalledCheckTimer_eq;
  match goal with
  | |- context [cleanup_listener ?x] => destruct (cleanup_listener_eq x) as (? & ? & ->)
  end;
  rewrite cleanup_ws_eq;
  match goal with
  | |- context [cleanup_ms ?x] => destruct (cleanup_ms_eq x) as (? & ->)
  end;
  rewrite cleanup_video_eq.

Lemma cleanup_spec w :
  let w' := cleanup w in
  timers w' = cleared (stalledCheckTimer (state w)) (cleared (reconnectTimer (state w)) (timers w)) /\
  nextTimer w' = nextTimer w /\ trace w' = trace w /\ Date_now w' = Date_now w /\
  videoRef w' = videoRef w /\
  ws (state w') = None /\ ms (state w') = None /\ sb (state w') = None /\
  reconnectTimer (state w') = None /\ stalledCheckTimer (state w') = None /\
  isMounted (state w') = isMounted (state w) /\
  isReconnecting (state w') = isReconnecting (state w) /\
  lastDataTime (state w') = 0 /\
  buffer (state w') = {| buf_data := buf_data (buffer (state w)); buf_length := 0 |} /\
  sockets w' = match ws (state w) with
               | Some i => alter closing i (alter detach i (sockets w))
               | None => sockets w
               end /\
  sources w' = if videoRef w
               then (fun k => if ms_attached k then unattached k else k) <$> sources w
               else sources w.
Proof.
  intros w'. subst w'. cleanup_blocks. cbn. repeat split; reflexivity.
Qed.

(** ** Operations that leave timers, sockets and sources alone *)

Lemma same_ctl_refl w : same_ctl w w.
Proof. constructor; reflexivity. Qed.

Lemma same_ctl_trans w1 w2 w3 : same_ctl w1 w2 -> same_ctl w2 w3 -> same_ctl w1 w3.
Proof. intros [] []. constructor; congruence. Qed.

Lemma same_ctl_log o w : same_ctl w (log o w).
Proof. constructor; reflexivity. Qed.

Lemma same_ctl_trimBuffer v w : same_ctl w (trimBuffer v w).
Proof. unfold trimBuffer. repeat case_match; constructor; reflexivity. Qed.

Lemma same_ctl_appendBuffer s d o w : same_ctl w (fst (appendBuffer s d o w)).
Proof. unfold appendBuffer. repeat case_match; constructor; reflexivity. Qed.

Lemma same_ctl_appendData d o v w : same_ctl w (appendData d o v w).
Proof.
  unfold appendData.
  set (w0 := upd_state _ (log (Arrived d) w)).
  assert (H0 : same_ctl w w0) by (constructor; reflexivity).
  destruct (sb (state w0)) as [s|]; [|exact H0].
  destruct (sb_updating s w0 || _).
  - repeat case_match; try exact H0.
    eapply same_ctl_trans; [exact H0|]. constructor; reflexivity.
  - pose proof (same_ctl_appendBuffer s d o w0) as H1.
    destruct (appendBuffer s d o w0) as [w1 r]. simpl in H1.
    assert (H2 : same_ctl w w1) by (eapply same_ctl_trans; eassumption).
    destruct r as [[|]|]; try exact H2.
    eapply same_ctl_trans; [exact H2 | apply same_ctl_trimBuffer].
Qed.

Lemma same_ctl_sbUpdateHandler_run s o v w : same_ctl w (sbUpdateHandler_run s o v w).
Proof.
  unfold sbUpdateHandler_run.
  eapply same_ctl_trans; [|apply same_ctl_trimBuffer].
  destruct (negb (sb_updating s w) && _); [|apply same_ctl_refl].
  pose proof (same_ctl_appendBuffer s (subarray0 (buf_data (buffer (state w)))
                (buf_length (buffer (state w)))) o w) as H1.
  destruct (appendBuffer s _ o w) as [w1 r]. simpl in H1.
  destruct r as [[|]|]; try exact H1.
  - eapply same_ctl_trans; [exact H1 | apply same_ctl_trimBuffer].
  - eapply same_ctl_trans; [exact H1 | constructor; reflexivity].
Qed.

Lemma same_ctl_onSourceOpen cfg w : same_ctl w (onSourceOpen cfg w).
Proof. unfold onSourceOpen, ws_send. repeat case_match; constructor; reflexivity. Qed.

Lemma Inv_same_ctl w w' : same_ctl w w' -> buffer_bounded w' -> Inv w -> Inv w'.
Proof.
  intros [] Hb [Ho [Hn Hf] Hs Hp _]. constructor; try assumption.
  - intros t. rewrite ctl_timers0, ctl_reconnectTimer0, ctl_stalledCheckTimer0. apply Ho.
  - split; rewrite ctl_timers0, ?ctl_nextTimer0; assumption.
  - intros i k. rewrite ctl_sockets0, ctl_ws0. apply Hs.
  - intros t. rewrite ctl_timers0, ctl_ws0. apply Hp.
Qed.

(** ** The queue stays inside the arena *)

Lemma buffer_bounded_appendData d o v w :
  buffer_bounded w -> buffer_bounded (appendData d o v w).
Proof.
  intros [Hb Hc]. unfold buffer_bounded.
  destruct (appendData_cases d o v w) as
    [(s & a & _ & _ & Hfit & Hset & -> & _) | [(s & _ & _ & -> & _) | (-> & _)]];
    [|split; assumption..].
  destruct (Uint8Array_set_fits (buf_data (buffer (state w))) d
              (buf_length (buffer (state w)))) as (a' & E & Hl & _); [lia..|].
  rewrite Hset in E. injection E as <-. simpl. lia.
Qed.

Lemma buffer_bounded_sbUpdateHandler_run s o v w :
  buffer_bounded w -> buffer_bounded (sbUpdateHandler_run s o v w).
Proof.
  intros [Hb Hc]. unfold buffer_bounded.
  destruct (sbUpdateHandler_run_cases s o v w) as [(_ & _ & -> & _) | (-> & _)].
  - simpl. lia.
  - split; assumption.
Qed.

(** ** Timers and sockets under [cleanup], [connect] and [reconnect] *)

Lemma elem_of_cleared o l (t : Timer) :
  t ∈ cleared o l <-> t ∈ l /\ o <> Some (tid t).
Proof.
  destruct o as [id|]; simpl.
  - rewrite list_elem_of_filter. split.
    + intros [H1 H2]. split; [assumption|]. congruence.
    + intros [H1 H2]. split; [|assumption]. congruence.
  - split; [intros H; split; [assumption | discriminate] | tauto].
Qed.

Lemma NoDup_fmap_filter {A B} (f : A -> B) (P : A -> Prop) `{forall x, Decision (P x)}
    (l : list A) :
  NoDup (f <$> l) -> NoDup (f <$> filter P l).
Proof.
  induction l as [|x l IH]; [trivial|].
  rewrite fmap_cons, NoDup_cons. intros [Hx Hl].
  rewrite filter_cons. destruct (decide (P x)); [|auto].
  rewrite fmap_cons, NoDup_cons. split; [|auto].
  intros Hin. apply Hx. apply list_elem_of_fmap in Hin as (y & -> & Hy).
  apply list_elem_of_filter in Hy. apply list_elem_of_fmap_2. tauto.
Qed.

Lemma cleanup_timers_nil w : timers_owned w -> timers (cleanup w) = [].
Proof.
  intros Ho. destruct (cleanup_spec w) as (-> & _).
  apply elem_of_nil_inv. intros t Ht.
  apply elem_of_cleared in Ht as [Ht Hs]. apply elem_of_cleared in Ht as [Ht Hr].
  specialize (Ho t Ht). destruct (cb t); destruct Ho as [Ho _]; congruence.
Qed.

Lemma live_detach k : live (closing (detach k)) = false.
Proof. unfold live, closing, detach. destruct (readyState k); reflexivity. Qed.

Lemma cleanup_sockets_dead w :
  sockets_owned w -> forall i k, sockets (cleanup w) !! i = Some k -> live k = false.
Proof.
  intros Hs i k. destruct (cleanup_spec w) as (_&_&_&_&_&_&_&_&_&_&_&_&_&_& -> & _).
  destruct (ws (state w)) as [j|] eqn:Hw.
  - destruct (decide (j = i)) as [->|Hne].
    + rewrite list_lookup_alter_eq, list_lookup_alter_eq.
      destruct (sockets w !! i); [|discriminate]. simpl. intros [= <-]. apply live_detach.
    + rewrite !list_lookup_alter_ne by assumption. intros Hk.
      destruct (live k) eqn:Hl; [|reflexivity].
      specialize (Hs i k Hk Hl). congruence.
  - intros Hk. destruct (live k) eqn:Hl; [|reflexivity].
    specialize (Hs i k Hk Hl). congruence.
Qed.

Lemma Inv_cleanup w : Inv w -> Inv (cleanup w).
Proof.
  intros [Ho Hf Hs Hp [Hb Hc]].
  pose proof (cleanup_timers_nil w Ho) as Ht.
  pose proof (cleanup_sockets_dead w Hs) as Hd.
  constructor.
  - intros t. rewrite Ht. intros H. now apply not_elem_of_nil in H.
  - split; rewrite Ht; [constructor|]. intros t H. now apply not_elem_of_nil in H.
  - intros i k Hk Hl. rewrite (Hd i k Hk) in Hl. discriminate.
  - intros t. rewrite Ht. intros H. now apply not_elem_of_nil in H.
  - unfold buffer_bounded.
    destruct (cleanup_spec w) as (_&_&_&_&_&_&_&_&_&_&_&_&_& -> & _). simpl. lia.
Qed.

Lemma connect_eq cfg w :
  connect cfg w = log (Status "connecting") w \/
  connect cfg w =
    upd_state (set_ws (Some (length (sockets w))))
      (set_sockets (sockets w ++ [{| url := wsURL (origin cfg) (src cfg);
                                     readyState := CONNECTING; onopen := true;
                                     onmessage := true; onclose := true; onerror := true |}])
         (log (Status "connecting") w)).
Proof. unfold connect. destruct (validURL cfg _); [right | left]; reflexivity. Qed.

Lemma Inv_connect cfg w :
  Inv w -> ws (state w) = None -> (forall t, t ∈ timers w -> cb t <> ReconnectFire) ->
  Inv (connect cfg w).
Proof.
  intros HI Hw Hn. destruct (connect_eq cfg w) as [-> | ->].
  { apply (Inv_same_ctl w); [apply same_ctl_log | apply HI | exact HI]. }
  destruct HI as [Ho Hf Hs Hp Hb]. constructor; try assumption.
  - intros i k. cbn. intros Hk Hl.
    apply lookup_app_Some in Hk as [Hk | [Hlen Hk]].
    + specialize (Hs i k Hk Hl). congruence.
    + apply list_lookup_singleton_Some in Hk as [Hi _]. f_equal. lia.
  - intros t Ht Hc. exfalso. exact (Hn t Ht Hc).
Qed.

Lemma scheduled_eq c :
  (let w := updateStatus "reconnecting" c in
   let '(id, w) := setTimer ReconnectFire 2000 false w in
   upd_state (set_reconnectTimer (Some id)) w) = scheduled c.
Proof. reflexivity. Qed.

Lemma reconnect_eq w :
  isMounted (state w) = true -> isReconnecting (state w) = false ->
  reconnect w = scheduled (cleanup (upd_state (set_isReconnecting true) w)).
Proof.
  intros Hm Hr. rewrite <- scheduled_eq. unfold reconnect.
  destruct (isMounted (state w)); [|discriminate].
  destruct (isReconnecting (state w)); [discriminate|]. reflexivity.
Qed.

Lemma reconnect_guard w :
  reconnect w = w \/
  (isMounted (state w) = true /\ isReconnecting (state w) = false).
Proof.
  unfold reconnect. destruct (isMounted (state w)), (isReconnecting (state w)); auto.
Qed.

Lemma Inv_set_isReconnecting b w : Inv w -> Inv (upd_state (set_isReconnecting b) w).
Proof. intros []. constructor; assumption. Qed.

Lemma Inv_set_isMounted b w : Inv w -> Inv (upd_state (set_isMounted b) w).
Proof. intros []. constructor; assumption. Qed.

Lemma Inv_scheduled c :
  Inv c -> timers c = [] -> ws (state c) = None -> Inv (scheduled c).
Proof.
  intros [Ho Hf Hs Hp Hb] Ht Hw. constructor.
  - intros t. cbn. rewrite Ht. intros H%list_elem_of_singleton. subst t. cbn. auto.
  - split; cbn; rewrite Ht; cbn.
    + apply NoDup_singleton.
    + intros t H%list_elem_of_singleton. subst t. cbn. lia.
  - exact Hs.
  - intros t _ _. exact Hw.
  - exact Hb.
Qed.

Lemma cleanup_ws_None w : ws (state (cleanup w)) = None.
Proof. destruct (cleanup_spec w) as (_&_&_&_&_&E&_). exact E. Qed.

Lemma Inv_reconnect w : Inv w -> Inv (reconnect w).
Proof.
  intros HI. destruct (reconnect_guard w) as [E | [Hm Hr]]; [rewrite E; exact HI|].
  rewrite (reconnect_eq w Hm Hr). apply Inv_scheduled.
  - apply Inv_cleanup, Inv_set_isReconnecting, HI.
  - apply cleanup_timers_nil, Inv_set_isReconnecting, HI.
  - apply cleanup_ws_None.
Qed.

Lemma startStalledCheck_eq w :
  startStalledCheck w =
    upd_state (set_stalledCheckTimer (Some (nextTimer w)))
      (set_nextTimer (S (nextTimer w))
         (set_timers (cleared (stalledCheckTimer (state w)) (timers w) ++
                      [{| tid := nextTimer w; cb := StalledTick; delay := 2000;
                          repeating := true |}]) w)).
Proof.
  unfold startStalledCheck, clearTimer, cleared. destruct_world w. cbn.
  destruct f_stalled; reflexivity.
Qed.

Lemma Inv_startStalledCheck w : Inv w -> Inv (startStalledCheck w).
Proof.
  intros [Ho [Hn Hf] Hs Hp Hb]. rewrite startStalledCheck_eq.
  constructor; cbn; try assumption.
  - intros t. cbn. rewrite elem_of_app, elem_of_cleared, list_elem_of_singleton.
    intros [[Ht Hne] | ->]; [|cbn; auto].
    specialize (Ho t Ht). destruct (cb t); [exact Ho|]. destruct Ho as [Ho _]. congruence.
  - split; cbn.
    + rewrite fmap_app, NoDup_app. split; [|split].
      * destruct (stalledCheckTimer (state w)); [apply NoDup_fmap_filter|]; exact Hn.
      * intros x Hx. apply list_elem_of_fmap in Hx as (t & -> & Ht).
        apply elem_of_cleared in Ht as [Ht _]. specialize (Hf t Ht).
        cbn. rewrite list_elem_of_singleton. lia.
      * apply NoDup_singleton.
    + intros t. rewrite elem_of_app, elem_of_cleared, list_elem_of_singleton.
      intros [[Ht _] | ->]; [specialize (Hf t Ht)|cbn]; lia.
  - intros t. cbn. rewrite elem_of_app, elem_of_cleared, list_elem_of_singleton.
    intros [[Ht _] | ->]; [apply Hp, Ht | discriminate].
Qed.

(** ** Every action keeps the invariants *)

Lemma Inv_frame w w' :
  timers w' = timers w -> nextTimer w' = nextTimer w -> sockets w' = sockets w ->
  ws (state w') = ws (state w) ->
  reconnectTimer (state w') = reconnectTimer (state w) ->
  stalledCheckTimer (state w') = stalledCheckTimer (state w) ->
  buffer (state w') = buffer (state w) ->
  Inv w -> Inv w'.
Proof.
  intros E1 E2 E3 E4 E5 E6 E7 [Ho [Hn Hf] Hs Hp Hb]. constructor.
  - intros t. rewrite E1, E5, E6. apply Ho.
  - split; rewrite E1, ?E2; assumption.
  - intros i k. rewrite E3, E4. apply Hs.
  - intros t. rewrite E1, E4. apply Hp.
  - unfold buffer_bounded. rewrite E7. exact Hb.
Qed.

Lemma Inv_log o w : Inv w -> Inv (log o w).
Proof. apply Inv_frame; reflexivity. Qed.

Lemma Inv_setupMSE cfg w : Inv w -> Inv (setupMSE cfg w).
Proof.
  apply Inv_frame; unfold setupMSE, attach_video, detach_video;
    repeat case_match; reflexivity.
Qed.

Lemma Inv_ws_onopen cfg w : Inv w -> Inv (ws_onopen cfg w).
Proof. intros H. unfold ws_onopen. now apply Inv_setupMSE, Inv_log, Inv_log. Qed.

Lemma Inv_setupSourceBuffer codec addOk w : Inv w -> Inv (setupSourceBuffer codec addOk w).
Proof.
  intros H. unfold setupSourceBuffer.
  destruct (ms (state w)) as [m|]; [|exact H].
  destruct (ms_is_open m w && addOk); [|exact H].
  apply Inv_startStalledCheck. revert H. apply Inv_frame; reflexivity.
Qed.

Lemma Inv_ws_onmessage_text m addOk w : Inv w -> Inv (ws_onmessage_text m addOk w).
Proof.
  intros H. destruct m; simpl.
  - now apply Inv_setupSourceBuffer.
  - now apply Inv_reconnect, Inv_log, Inv_log.
  - exact H.
Qed.

Lemma Inv_appendData d o v w : Inv w -> Inv (appendData d o v w).
Proof.
  intros H. apply (Inv_same_ctl w); [apply same_ctl_appendData | | exact H].
  apply buffer_bounded_appendData, H.
Qed.

Lemma Inv_sbUpdateHandler_run s o v w : Inv w -> Inv (sbUpdateHandler_run s o v w).
Proof.
  intros H. apply (Inv_same_ctl w); [apply same_ctl_sbUpdateHandler_run | | exact H].
  apply buffer_bounded_sbUpdateHandler_run, H.
Qed.

Lemma Inv_set_sockets_alter f i w :
  (forall k, sockets w !! i = Some k -> live (f k) = true -> live k = true) ->
  Inv w -> Inv (set_sockets (alter f i (sockets w)) w).
Proof.
  intros Hf [Ho Hfr Hs Hp Hb]. constructor; try assumption.
  intros j k. cbn. destruct (decide (i = j)) as [->|Hne].
  - rewrite list_lookup_alter_eq. destruct (sockets w !! j) as [k0|] eqn:E; [|discriminate].
    simpl. intros [= <-] Hl. apply (Hs j k0 E). now apply Hf.
  - rewrite list_lookup_alter_ne by assumption. apply Hs.
Qed.

Lemma Inv_ws_onclose i w :
  Inv w -> (forall k, sockets w !! i = Some k -> live k = false) -> Inv (ws_onclose i w).
Proof.
  intros H Hd. unfold ws_onclose.
  destruct (ws (state w)) as [j|] eqn:Hw; [|exact H].
  destruct (Nat.eqb_spec j i) as [->|Hne]; [|exact H].
  apply Inv_reconnect, Inv_log.
  destruct H as [Ho Hf Hs Hp Hb]. constructor; try assumption.
  - intros j k. cbn. intros Hk Hl. pose proof (Hs j k Hk Hl) as E.
    rewrite Hw in E. injection E as ->. rewrite (Hd k Hk) in Hl. discriminate.
  - intros t _ _. reflexivity.
Qed.

Lemma find_tid_Some (l : list Timer) id t :
  find (fun t => Nat.eqb (tid t) id) l = Some t -> t ∈ l /\ tid t = id.
Proof.
  intros H. apply find_some in H as [H1 H2]. split.
  - now apply list_elem_of_In.
  - now apply Nat.eqb_eq.
Qed.

Lemma Inv_clearTimer id w : Inv w -> Inv (clearTimer id w).
Proof.
  intros [Ho [Hn Hf] Hs Hp Hb]. constructor; try assumption.
  - intros t. cbn. rewrite list_elem_of_filter. intros [_ Ht]. now apply Ho.
  - split; cbn.
    + now apply NoDup_fmap_filter.
    + intros t. rewrite list_elem_of_filter. intros [_ Ht]. now apply Hf.
  - intros t. cbn. rewrite list_elem_of_filter. intros [_ Ht]. now apply Hp.
Qed.

Lemma Inv_reconnectFire cfg w t :
  Inv w -> t ∈ timers w -> cb t = ReconnectFire ->
  Inv (reconnectFire cfg (log (Fired t) (clearTimer (tid t) w))).
Proof.
  intros H Ht Hc. unfold reconnectFire.
  set (w1 := upd_state _ _).
  assert (H1 : Inv w1) by (apply Inv_set_isReconnecting, Inv_log, Inv_clearTimer, H).
  destruct (isMounted (state w1)); [|exact H1].
  apply Inv_connect; [exact H1 | apply (inv_pending w H t Ht Hc) |].
  intros t'. cbn. rewrite list_elem_of_filter. intros [Hne Ht'] Hc'.
  apply Hne. pose proof (inv_owned w H t Ht) as A. pose proof (inv_owned w H t' Ht') as B.
  rewrite Hc in A. rewrite Hc' in B. destruct A as [A _], B as [B _]. congruence.
Qed.

Lemma Inv_stalledTick w : Inv w -> Inv (stalledTick w).
Proof.
  intros H. unfold stalledTick.
  destruct (lastDataTime (state w) =? 0); [exact H|].
  destruct (2000 <? _); [|exact H].
  now apply Inv_reconnect, Inv_log.
Qed.

Lemma Inv_step cfg w e : Inv w -> Inv (step cfg w e).
Proof.
  intros H. destruct e as [i|i m addOk|i d o v|i|i|m|s o v|id|dt]; simpl.
  - destruct (sockets w !! i) as [k|] eqn:Hk; [|exact H].
    destruct (readyState k) eqn:Hr; try exact H.
    assert (H1 : Inv (set_sockets (alter (set_readyState OPEN) i (sockets w)) w)).
    { apply Inv_set_sockets_alter; [|exact H]. intros k0 Hk0. rewrite Hk in Hk0.
      injection Hk0 as <-. unfold live. simpl. rewrite Hr. trivial. }
    destruct (onopen k); [now apply Inv_ws_onopen | exact H1].
  - destruct (sockets w !! i) as [k|]; [|exact H].
    destruct (readyState k); try exact H.
    destruct (onmessage k); [now apply Inv_ws_onmessage_text | exact H].
  - destruct (sockets w !! i) as [k|]; [|exact H].
    destruct (readyState k); try exact H.
    destruct (onmessage k); [now apply Inv_appendData | exact H].
  - destruct (sockets w !! i) as [k|]; [|exact H].
    unfold ws_onerror.
    destruct (readyState k); try exact H;
      (destruct (onerror k); [now apply Inv_log, Inv_log | exact H]).
  - destruct (sockets w !! i) as [k|] eqn:Hk; [|exact H].
    assert (H1 : Inv (set_sockets (alter (set_readyState CLOSED) i (sockets w)) w)).
    { apply Inv_set_sockets_alter; [|exact H]. intros k0 _. unfold live. simpl.
      rewrite andb_false_r. discriminate. }
    assert (Hd : forall k0,
               sockets (set_sockets (alter (set_readyState CLOSED) i (sockets w)) w) !! i
               = Some k0 -> live k0 = false).
    { intros k0. cbn. rewrite list_lookup_alter_eq, Hk. simpl. intros [= <-].
      unfold live. simpl. apply andb_false_r. }
    destruct (readyState k); try exact H;
      (destruct (onclose k); [now apply Inv_ws_onclose | exact H1]).
  - destruct (sources w !! m) as [k|]; [|exact H].
    destruct (ms_attached k && negb (ms_open k)); [|exact H].
    set (w1 := set_sources _ w).
    assert (H1 : Inv w1) by (revert H; apply Inv_frame; reflexivity).
    destruct (ms_sourceopen k); [|exact H1].
    apply (Inv_same_ctl w1); [apply same_ctl_onSourceOpen | | exact H1].
    unfold onSourceOpen, ws_send. repeat case_match; apply H1.
  - destruct (sinks w !! s) as [k|]; [|exact H].
    destruct (updating k); [|exact H].
    set (w1 := set_sinks _ w).
    assert (H1 : Inv w1) by (revert H; apply Inv_frame; reflexivity).
    destruct (sb_listener k); [now apply Inv_sbUpdateHandler_run | exact H1].
  - destruct (find _ (timers w)) as [t|] eqn:Hfind; [|exact H].
    apply find_tid_Some in Hfind as [Ht <-].
    pose proof (inv_owned w H t Ht) as Ho.
    destruct (cb t) eqn:Hc; destruct Ho as [_ ->]; simpl.
    + now apply Inv_reconnectFire.
    + now apply Inv_stalledTick, Inv_log.
  - revert H. apply Inv_frame; reflexivity.
Qed.

Lemma Inv_rendered t0 : Inv (rendered t0).
Proof.
  constructor.
  - intros t H. now apply not_elem_of_nil in H.
  - split; [constructor|]. intros t H. now apply not_elem_of_nil in H.
  - intros i k H. discriminate.
  - intros t H. now apply not_elem_of_nil in H.
  - unfold buffer_bounded. cbn. unfold capacity. lia.
Qed.

Lemma Inv_start cfg w :
  Inv w -> ws (state w) = None -> timers w = [] -> Inv (start cfg w).
Proof.
  intros H Hw Ht. unfold start.
  destruct (String.eqb (src cfg) "" || negb (videoRef w)); [exact H|].
  apply Inv_connect.
  - now apply Inv_set_isReconnecting, Inv_set_isMounted.
  - exact Hw.
  - intros t. cbn. rewrite Ht. intros Hin. now apply not_elem_of_nil in Hin.
Qed.

Lemma Inv_stop w : Inv w -> Inv (stop w).
Proof. intros H. now apply Inv_cleanup, Inv_set_isMounted. Qed.

Lemma stop_timers w : Inv w -> timers (stop w) = [].
Proof. intros H. apply cleanup_timers_nil. now apply Inv_set_isMounted. Qed.

Lemma stop_ws w : ws (state (stop w)) = None.
Proof. apply (cleanup_spec (upd_state (set_isMounted false) w)). Qed.

Lemma Inv_act cfg w a : Inv w -> Inv (act cfg w a).
Proof.
  intros H. destruct a as [e| |]; simpl.
  - now apply Inv_step.
  - apply Inv_stop. revert H. apply Inv_frame; reflexivity.
  - apply Inv_start; [now apply Inv_stop | apply stop_ws | now apply stop_timers].
Qed.

Lemma Inv_mount cfg t0 : Inv (mount cfg t0).
Proof. apply Inv_start; [apply Inv_rendered | reflexivity | reflexivity]. Qed.

Lemma Inv_reachable cfg w : reachable cfg w -> Inv w.
Proof.
  intros (t0 & acts & ->).
  induction acts as [|a acts IH] using rev_ind; [apply Inv_mount|].
  rewrite fold_left_app. simpl. now apply Inv_act.
Qed.

(** ** Segment buffer bound *)

(** C2. In every reachable world the logical length of the queue is between
    0 and the 2 MiB capacity of the arena, and it stays so after any further
    enqueue ([appendData]) or flush (the updateend handler).  An enqueue on
    the queuing branch whose segment does not fit changes neither the arena
    nor the length, and nothing is handed to the sink: the segment is dropped
    whole. *)
Theorem segment_buffer_bound cfg w :
  reachable cfg w ->
  let bounded w := 0 <= buf_length (buffer (state w)) <= capacity /\
                   byteLength (buf_data (buffer (state w))) = capacity in
  bounded w /\
  (forall d o v, bounded (appendData d o v w)) /\
  (forall s o v, bounded (sbUpdateHandler_run s o v w)) /\
  (forall d o v s,
     sb (state w) = Some s ->
     (sb_updating s w || (0 <? buf_length (buffer (state w)))) = true ->
     capacity < buf_length (buffer (state w)) + Z.of_nat (length d) ->
     buffer (state (appendData d o v w)) = buffer (state w) /\
     trace (appendData d o v w) = trace w ++ [Arrived d]).
Proof.
  intros Hr bounded. apply Inv_reachable in Hr.
  assert (Hb : forall w, Inv w -> bounded w).
  { intros w0 [_ _ _ _ [H1 H2]]. unfold bounded. rewrite <- H2. auto. }
  split; [now apply Hb|]. split; [|split].
  - intros d o v. now apply Hb, Inv_appendData.
  - intros s o v. now apply Hb, Inv_sbUpdateHandler_run.
  - intros d o v s Hs Hq Hfull. destruct (Hb w Hr) as [_ Hcap].
    unfold appendData. cbn [state upd_state log sb set_lastDataTime buffer].
    rewrite Hs. change (sb_updating s (upd_state _ (log _ w))) with (sb_updating s w).
    rewrite Hq.
    destruct (Z.leb_spec (buf_length (buffer (state w)) + Z.of_nat (length d))
                (byteLength (buf_data (buffer (state w))))); [lia|].
    split; reflexivity.
Qed.

(** ** Single-flight reconnect *)


Lemma cleanup_flags w :
  isMounted (state (cleanup w)) = isMounted (state w) /\
  isReconnecting (state (cleanup w)) = isReconnecting (state w) /\
  nextTimer (cleanup w) = nextTimer w /\
  trace (cleanup w) = trace w.
Proof. destruct (cleanup_spec w) as (_&E3&E4&_&_&_&_&_&_&_&E1&E2&_). auto. Qed.


Lemma scheduled_spec c :
  timers c = [] ->
  timers (scheduled c) =
    [{| tid := nextTimer c; cb := ReconnectFire; delay := 2000; repeating := false |}] /\
  trace (scheduled c) = trace c ++ [Status "reconnecting"] /\
  ws (state (scheduled c)) = ws (state c) /\
  isMounted (state (scheduled c)) = isMounted (state c).
Proof. intros Ht. cbn. rewrite Ht. auto. Qed.

Lemma reconnect_schedules w :
  timers_owned w -> isMounted (state w) = true -> isReconnecting (state w) = false ->
  timers (reconnect w) =
    [{| tid := nextTimer w; cb := ReconnectFire; delay := 2000; repeating := false |}] /\
  trace (reconnect w) = trace w ++ [Status "reconnecting"] /\
  ws (state (reconnect w)) = None /\
  isMounted (state (reconnect w)) = true.
Proof.
  intros Ho Hm Hr. rewrite (reconnect_eq w Hm Hr).
  destruct (scheduled_spec (cleanup (upd_state (set_isReconnecting true) w)))
    as (E1 & E2 & E3 & E4); [now apply cleanup_timers_nil|].
  destruct (cleanup_flags (upd_state (set_isReconnecting true) w)) as (F1 & _ & F3 & F4).
  rewrite E1, E2, E3, E4, F1, F3, F4, cleanup_ws_None. auto.
Qed.

Lemma NoDup_constant_short {A} (l : list A) (r : A) :
  NoDup l -> (forall x, x ∈ l -> x = r) -> (length l <= 1)%nat.
Proof.
  intros Hn Hall. destruct l as [|a [|b l]]; simpl; try lia.
  apply NoDup_cons in Hn as [Hn _]. exfalso. apply Hn.
  rewrite (Hall a), <- (Hall b); [left | right; left | left].
Qed.


(** ** Teardown silence *)

Lemma Silent_stop w : Inv w -> Silent (stop w) /\ trace (stop w) = trace w.
Proof.
  intros H. unfold stop. set (w1 := upd_state (set_isMounted false) w).
  assert (H1 : Inv w1) by now apply Inv_set_isMounted.
  destruct (cleanup_spec w1) as (_ & _ & Etr & _ & _ & Ew & _ & Es & _ & _ & Em & _ & _ & Eb & _).
  split; [|exact Etr]. constructor.
  - exact Em.
  - apply cleanup_timers_nil, H1.
  - exact Ew.
  - exact Es.
  - rewrite Eb. reflexivity.
  - apply cleanup_sockets_dead, H1.
Qed.

Lemma dead_handlers k :
  live k = false -> readyState k <> CLOSED ->
  onopen k = false /\ onmessage k = false /\ onclose k = false /\ onerror k = false.
Proof.
  unfold live. destruct (readyState k), (onopen k), (onmessage k), (onclose k), (onerror k);
    simpl; intros; try discriminate; try congruence; auto.
Qed.

Lemma Silent_alter_socket f i w :
  (forall k, sockets w !! i = Some k -> live k = false -> live (f k) = false) ->
  Silent w -> Silent (set_sockets (alter f i (sockets w)) w).
Proof.
  intros Hf [H1 H2 H3 H4 H5 H6]. constructor; try assumption.
  intros j k. cbn. destruct (decide (i = j)) as [->|Hne].
  - rewrite list_lookup_alter_eq. intros Hk.
    destruct (sockets w !! j) as [k0|] eqn:E; [|discriminate].
    simpl in Hk. injection Hk as <-. apply (Hf k0 eq_refl), (H6 j k0 E).
  - rewrite list_lookup_alter_ne by assumption. apply H6.
Qed.

Lemma Silent_frame w w' :
  state w' = state w -> timers w' = timers w -> sockets w' = sockets w ->
  Silent w -> Silent w'.
Proof.
  intros E1 E2 E3 [H1 H2 H3 H4 H5 H6]. constructor; rewrite ?E1, ?E2, ?E3; assumption.
Qed.

Lemma Silent_step cfg w e :
  Silent w -> Silent (step cfg w e) /\ trace (step cfg w e) = trace w.
Proof.
  intros H. pose proof H as [H1 H2 H3 H4 H5 H6].
  destruct e as [i|i m addOk|i d o v|i|i|m|s o v|id|dt]; simpl.
  - destruct (sockets w !! i) as [k|] eqn:Hk; [|auto].
    destruct (readyState k) eqn:Hr; auto.
    destruct (dead_handlers k (H6 i k Hk)) as (-> & _); [congruence|].
    split; [|reflexivity]. apply Silent_alter_socket; [|exact H].
    intros k0 Hk0 _. rewrite Hk in Hk0. injection Hk0 as <-.
    destruct (dead_handlers k (H6 i k Hk)) as (A & B & C & D); [congruence|].
    unfold live. simpl. now rewrite A, B, C, D.
  - destruct (sockets w !! i) as [k|] eqn:Hk; [|auto].
    destruct (readyState k) eqn:Hr; auto.
    destruct (dead_handlers k (H6 i k Hk)) as (_ & -> & _); [congruence|]. auto.
  - destruct (sockets w !! i) as [k|] eqn:Hk; [|auto].
    destruct (readyState k) eqn:Hr; auto.
    destruct (dead_handlers k (H6 i k Hk)) as (_ & -> & _); [congruence|]. auto.
  - destruct (sockets w !! i) as [k|] eqn:Hk; [|auto].
    destruct (readyState k) eqn:Hr; auto;
      (destruct (dead_handlers k (H6 i k Hk)) as (_ & _ & _ & ->); [congruence|]; auto).
  - destruct (sockets w !! i) as [k|] eqn:Hk; [|auto].
    assert (Hc : Silent (set_sockets (alter (set_readyState CLOSED) i (sockets w)) w)).
    { apply Silent_alter_socket; [|exact H]. intros k0 _ _. unfold live. simpl.
      apply andb_false_r. }
    destruct (readyState k) eqn:Hr; auto;
      (destruct (dead_handlers k (H6 i k Hk)) as (_ & _ & -> & _); [congruence|]; auto).
  - destruct (sources w !! m) as [k|]; [|auto].
    destruct (ms_attached k && negb (ms_open k)); [|auto].
    unfold onSourceOpen. cbn [state set_sources]. rewrite H3.
    destruct (ms_sourceopen k); (split; [|reflexivity]);
      (revert H; apply Silent_frame; reflexivity).
  - destruct (sinks w !! s) as [k|]; [|auto].
    destruct (updating k); [|auto].
    set (w1 := set_sinks _ w).
    assert (Hw1 : Silent w1) by (revert H; apply Silent_frame; reflexivity).
    destruct (sb_listener k); [|auto].
    unfold sbUpdateHandler_run.
    replace (0 <? buf_length (buffer (state w1))) with false
      by (symmetry; apply Z.ltb_ge; cbn; lia).
    rewrite andb_false_r. unfold trimBuffer. cbn [state w1 set_sinks]. rewrite H4. auto.
  - rewrite H2. simpl. auto.
  - split; [|reflexivity]. revert H. apply Silent_frame; reflexivity.
Qed.

Lemma Silent_run cfg w es :
  Silent w -> Silent (run cfg w es) /\ trace (run cfg w es) = trace w.
Proof.
  revert w. induction es as [|e es IH]; intros w H; [auto|].
  simpl. destruct (Silent_step cfg w e H) as [H1 E1].
  destruct (IH _ H1) as [H2 E2]. split; [exact H2 | congruence].
Qed.

(** C1. From every reachable world, once the effect cleanup has run (at an
    unmount, where React has already cleared the video ref, or before a
    re-run of the effect), no sequence of host events makes the component
    invoke a status callback, an error callback or a timer callback again:
    the trace stays what it was before the cleanup, no timer is live, and a
    timer event finds nothing to run. *)
Theorem teardown_silence cfg w (refCleared : bool) (es : list Event) :
  reachable cfg w ->
  let stopped := stop (if refCleared then set_videoRef false w else w) in
  let later := run cfg stopped es in
  callbacks (trace later) = callbacks (trace w) /\
  trace later = trace w /\
  timers later = [] /\
  (forall id, step cfg later (TimerFire id) = later).
Proof.
  intros Hr stopped later. apply Inv_reachable in Hr.
  assert (Hi : Inv (if refCleared then set_videoRef false w else w)).
  { destruct refCleared; [|exact Hr]. revert Hr. apply Inv_frame; reflexivity. }
  pose proof (Silent_stop _ Hi) as [Hs Et].
  change (stop _) with stopped in Hs, Et.
  pose proof (Silent_run cfg stopped es Hs) as [[_ Hl _ _ _ _] El].
  change (run cfg stopped es) with later in Hl, El.
  assert (E : trace later = trace w).
  { rewrite El, Et. destruct refCleared; reflexivity. }
  split; [now rewrite E|]. split; [exact E|]. split; [exact Hl|].
  clearbody later. intros id. cbn [step]. rewrite Hl. reflexivity.
Qed.

(** ** Order of delivery *)

Lemma quiet_refl w : quiet w w.
Proof.
  constructor; [|now left]. exists []. rewrite app_nil_r. split; [reflexivity|constructor].
Qed.

Lemma quiet_trans w1 w2 w3 : quiet w1 w2 -> quiet w2 w3 -> quiet w1 w3.
Proof.
  intros [(r1 & E1 & F1) B1] [(r2 & E2 & F2) B2]. constructor.
  - exists (r1 ++ r2). rewrite E2, E1, <- app_assoc. split; [reflexivity|].
    apply Forall_app. tauto.
  - destruct B1 as [B1|B1], B2 as [B2|B2]; rewrite B2, B1; auto.
Qed.

Lemma quiet_frame w w' :
  trace w' = trace w -> buffer (state w') = buffer (state w) -> quiet w w'.
Proof.
  intros E1 E2. constructor; [|now left].
  exists []. rewrite app_nil_r. split; [exact E1|constructor].
Qed.

Lemma quiet_log o w : quiet_obs o -> quiet w (log o w).
Proof.
  intros H. constructor; [|now left]. exists [o]. split; [reflexivity|]. now repeat constructor.
Qed.

Lemma quiet_cleanup w : quiet w (cleanup w).
Proof.
  destruct (cleanup_spec w) as (_ & _ & Etr & _ & _ & _ & _ & _ & _ & _ & _ & _ & _ & Eb & _).
  constructor; [|now right].
  exists []. rewrite app_nil_r. split; [exact Etr|constructor].
Qed.

Lemma quiet_connect cfg w : quiet w (connect cfg w).
Proof.
  destruct (connect_eq cfg w) as [-> | ->].
  - now apply quiet_log.
  - eapply quiet_trans; [apply (quiet_log (Status "connecting")); exact I|].
    apply quiet_frame; reflexivity.
Qed.

Lemma quiet_scheduled c : quiet c (scheduled c).
Proof.
  unfold scheduled.
  eapply quiet_trans; [apply (quiet_log (Status "reconnecting")); exact I|].
  apply quiet_frame; reflexivity.
Qed.

Lemma quiet_reconnect w : quiet w (reconnect w).
Proof.
  destruct (reconnect_guard w) as [E | [Hm Hr]]; [rewrite E; apply quiet_refl|].
  rewrite (reconnect_eq w Hm Hr).
  eapply quiet_trans; [|apply quiet_scheduled].
  eapply quiet_trans; [|apply quiet_cleanup].
  apply quiet_frame; reflexivity.
Qed.

Lemma quiet_startStalledCheck w : quiet w (startStalledCheck w).
Proof. rewrite startStalledCheck_eq. apply quiet_frame; reflexivity. Qed.

Lemma quiet_setupMSE cfg w : quiet w (setupMSE cfg w).
Proof.
  unfold setupMSE. destruct (negb (mediaSourceClass cfg)).
  - eapply quiet_trans; apply quiet_log; exact I.
  - apply quiet_frame; unfold attach_video, detach_video; case_match; reflexivity.
Qed.

Lemma quiet_ws_onopen cfg w : quiet w (ws_onopen cfg w).
Proof.
  unfold ws_onopen.
  eapply quiet_trans; [apply (quiet_log (Status "open")); exact I|].
  eapply quiet_trans; [apply (quiet_log (Error None)); exact I|].
  apply quiet_setupMSE.
Qed.

Lemma quiet_setupSourceBuffer codec addOk w : quiet w (setupSourceBuffer codec addOk w).
Proof.
  unfold setupSourceBuffer.
  destruct (ms (state w)) as [m|]; [|apply quiet_refl].
  destruct (ms_is_open m w && addOk); [|apply quiet_refl].
  eapply quiet_trans; [|apply quiet_startStalledCheck].
  eapply quiet_trans; [|apply (quiet_log (Status "streaming")); exact I].
  apply quiet_frame; reflexivity.
Qed.

Lemma quiet_ws_onmessage_text m addOk w : quiet w (ws_onmessage_text m addOk w).
Proof.
  destruct m; simpl.
  - apply quiet_setupSourceBuffer.
  - eapply quiet_trans; [apply (quiet_log (Error (Some value))); exact I|].
    eapply quiet_trans; [apply (quiet_log (Status "error")); exact I|].
    apply quiet_reconnect.
  - apply quiet_refl.
Qed.

Lemma quiet_ws_onclose i w : quiet w (ws_onclose i w).
Proof.
  unfold ws_onclose. destruct (ws (state w)) as [j|]; [|apply quiet_refl].
  destruct (Nat.eqb j i); [|apply quiet_refl].
  eapply quiet_trans; [apply (quiet_frame w (upd_state (set_ws None) w)); reflexivity|].
  eapply quiet_trans; [apply (quiet_log (Status "closed")); exact I|].
  apply quiet_reconnect.
Qed.

Lemma quiet_ws_onerror w : quiet w (ws_onerror w).
Proof. unfold ws_onerror. eapply quiet_trans; apply quiet_log; exact I. Qed.


Lemma quiet_reconnectFire cfg w : quiet w (reconnectFire cfg w).
Proof.
  unfold reconnectFire.
  eapply quiet_trans; [apply (quiet_frame w (upd_state (set_isReconnecting false) w));
                       reflexivity|].
  destruct (isMounted _); [apply quiet_connect | apply quiet_refl].
Qed.

Lemma quiet_stalledTick w : quiet w (stalledTick w).
Proof.
  unfold stalledTick. destruct (lastDataTime (state w) =? 0); [apply quiet_refl|].
  destruct (2000 <? _); [|apply quiet_refl].
  eapply quiet_trans; [apply (quiet_log (Status "stalled")); exact I|].
  apply quiet_reconnect.
Qed.

Lemma quiet_start cfg w : quiet w (start cfg w).
Proof.
  unfold start. destruct (String.eqb (src cfg) "" || negb (videoRef w)); [apply quiet_refl|].
  eapply quiet_trans; [|apply quiet_connect]. apply quiet_frame; reflexivity.
Qed.

Lemma quiet_stop w : quiet w (stop w).
Proof.
  unfold stop. eapply quiet_trans; [|apply quiet_cleanup]. apply quiet_frame; reflexivity.
Qed.

Lemma arrivals_quiet tr rest :
  Forall quiet_obs rest -> arrivals (tr ++ rest) = arrivals tr.
Proof.
  intros H. unfold arrivals. rewrite omap_app.
  induction H as [|o rest Ho _ IH]; [apply app_nil_r|].
  simpl. destruct o; simpl in *; try exact IH. contradiction.
Qed.

Lemma deliveries_quiet tr rest :
  Forall quiet_obs rest -> deliveries (tr ++ rest) = deliveries tr.
Proof.
  intros H. unfold deliveries. rewrite omap_app.
  induction H as [|o rest Ho _ IH]; [apply app_nil_r|].
  simpl. destruct o; simpl in *; try exact IH. contradiction.
Qed.

Lemma sink_noise_quiet rest : Forall sink_noise rest -> Forall quiet_obs rest.
Proof. intros H. eapply Forall_impl; [exact H|]. intros []; simpl; tauto. Qed.

Lemma subarray0_zero a : subarray0 a 0 = [].
Proof. reflexivity. Qed.

Lemma order_kept_quiet w w' : quiet w w' -> order_kept w -> order_kept w'.
Proof.
  intros [(rest & Et & Hq) Hb] (taken & queued & Hsub & Ht & Hqd).
  unfold order_kept. rewrite Et, arrivals_quiet, deliveries_quiet by assumption.
  destruct Hb as [-> | ->].
  - exists taken, queued. auto.
  - exists taken, []. simpl. split; [|auto].
    transitivity (taken ++ queued); [|exact Hsub].
    apply sublist_app; [reflexivity | apply sublist_nil_l].
Qed.

Lemma order_kept_appendData d o v w :
  buffer_bounded w -> order_kept w -> order_kept (appendData d o v w).
Proof.
  intros [Hb Hc] (taken & queued & Hsub & Ht & Hqd). unfold order_kept.
  destruct (appendData_cases d o v w) as
    [(s & a & _ & _ & Hfit & Hset & -> & ->) |
     [(s & _ & Hg & -> & ->) | (-> & rest & -> & Hn)]].
  - destruct (Uint8Array_set_fits (buf_data (buffer (state w))) d
                (buf_length (buffer (state w)))) as (a' & E & _ & Hsa); [lia..|].
    rewrite Hset in E. injection E as <-.
    exists taken, (queued ++ [d]). cbn [buf_data buf_length].
    unfold arrivals, deliveries in *. rewrite !omap_app. simpl. rewrite app_nil_r.
    split; [|split].
    + rewrite app_assoc. now apply sublist_app.
    + exact Ht.
    + rewrite concat_app, Hsa, Hqd. simpl. now rewrite app_nil_r.
  - exists (taken ++ [d]), [].
    apply orb_false_elim in Hg as [_ Hg]. apply Z.ltb_ge in Hg.
    assert (E0 : buf_length (buffer (state w)) = 0) by lia.
    unfold arrivals, deliveries in *. rewrite !omap_app. simpl.
    split; [|split].
    + rewrite app_nil_r. apply sublist_app; [|reflexivity].
      transitivity (taken ++ queued); [|exact Hsub].
      rewrite <- (app_nil_r taken) at 1. apply sublist_app; [reflexivity|apply sublist_nil_l].
    + rewrite !concat_app, Ht. reflexivity.
    + rewrite E0. reflexivity.
  - exists taken, queued.
    replace (trace w ++ Arrived d :: rest) with ((trace w ++ [Arrived d]) ++ rest)
      by now rewrite <- app_assoc.
    rewrite arrivals_quiet, deliveries_quiet by now apply sink_noise_quiet.
    unfold arrivals, deliveries in *. rewrite !omap_app. simpl. rewrite app_nil_r.
    split; [|auto]. now apply sublist_inserts_r.
Qed.

Lemma order_kept_sbUpdateHandler_run s o v w :
  order_kept w -> order_kept (sbUpdateHandler_run s o v w).
Proof.
  intros (taken & queued & Hsub & Ht & Hqd). unfold order_kept.
  destruct (sbUpdateHandler_run_cases s o v w) as
    [(_ & _ & -> & rest & -> & Hn) | (-> & rest & -> & Hn)].
  - exists (taken ++ queued), [].
    replace (trace w ++ Appended s _ :: rest)
      with ((trace w ++ [Appended s (subarray0 (buf_data (buffer (state w)))
                                       (buf_length (buffer (state w))))]) ++ rest)
      by now rewrite <- app_assoc.
    rewrite arrivals_quiet, deliveries_quiet by now apply sink_noise_quiet.
    unfold arrivals, deliveries in *. rewrite !omap_app. simpl. rewrite !app_nil_r.
    split; [exact Hsub|]. split; [|reflexivity].
    rewrite !concat_app, Ht, Hqd. simpl. now rewrite app_nil_r.
  - exists taken, queued.
    rewrite arrivals_quiet, deliveries_quiet by now apply sink_noise_quiet. auto.
Qed.

Lemma order_kept_onSourceOpen cfg w : order_kept w -> order_kept (onSourceOpen cfg w).
Proof.
  intros H. unfold onSourceOpen, ws_send. repeat case_match; try exact H.
  destruct H as (taken & queued & H). exists taken, queued.
  unfold arrivals, deliveries in *. cbn. rewrite !omap_app. simpl. now rewrite !app_nil_r.
Qed.

Lemma order_kept_step cfg w e : Inv w -> order_kept w -> order_kept (step cfg w e).
Proof.
  intros HI H. destruct e as [i|i m addOk|i d o v|i|i|m|s o v|id|dt]; simpl.
  - destruct (sockets w !! i) as [k|]; [|exact H].
    destruct (readyState k); try exact H.
    destruct (onopen k); [|exact H].
    revert H. apply order_kept_quiet.
    eapply quiet_trans; [|apply quiet_ws_onopen]. apply quiet_frame; reflexivity.
  - destruct (sockets w !! i) as [k|]; [|exact H].
    destruct (readyState k); try exact H.
    destruct (onmessage k); [|exact H].
    revert H. apply order_kept_quiet, quiet_ws_onmessage_text.
  - destruct (sockets w !! i) as [k|]; [|exact H].
    destruct (readyState k); try exact H.
    destruct (onmessage k); [|exact H].
    apply order_kept_appendData; [apply HI | exact H].
  - destruct (sockets w !! i) as [k|]; [|exact H].
    destruct (readyState k); try exact H;
      (destruct (onerror k); [|exact H]; revert H; apply order_kept_quiet, quiet_ws_onerror).
  - destruct (sockets w !! i) as [k|]; [|exact H].
    destruct (readyState k); try exact H;
      (destruct (onclose k); [|exact H]; revert H; apply order_kept_quiet;
       (eapply quiet_trans; [|apply quiet_ws_onclose]); apply quiet_frame; reflexivity).
  - destruct (sources w !! m) as [k|]; [|exact H].
    destruct (ms_attached k && negb (ms_open k)); [|exact H].
    destruct (ms_sourceopen k); [|exact H].
    apply order_kept_onSourceOpen. exact H.
  - destruct (sinks w !! s) as [k|]; [|exact H].
    destruct (updating k); [|exact H].
    destruct (sb_listener k); [|exact H].
    apply order_kept_sbUpdateHandler_run. exact H.
  - destruct (find _ (timers w)) as [t|]; [|exact H].
    revert H. apply order_kept_quiet.
    eapply quiet_trans.
    { apply (quiet_frame w (if repeating t then w else clearTimer id w)).
      all: destruct (repeating t); reflexivity. }
    eapply quiet_trans; [apply (quiet_log (Fired t)); exact I|].
    destruct (cb t); [apply quiet_reconnectFire | apply quiet_stalledTick].
  - exact H.
Qed.

Lemma order_kept_act cfg w a : Inv w -> order_kept w -> order_kept (act cfg w a).
Proof.
  intros HI H. destruct a as [e| |]; simpl.
  - now apply order_kept_step.
  - revert H. apply order_kept_quiet.
    eapply quiet_trans; [|apply quiet_stop]. apply quiet_frame; reflexivity.
  - revert H. apply order_kept_quiet.
    eapply quiet_trans; [apply quiet_stop | apply quiet_start].
Qed.

Lemma order_kept_rendered t0 : order_kept (rendered t0).
Proof. exists [], []. simpl. repeat split; constructor. Qed.

(** C4. Whatever segments arrive and however the sink answers (accepting,
    busy, refusing), the bytes handed to the sink so far, followed by the
    bytes still queued, are the concatenation of a sub-sequence of the arrived
    segments in their arrival order: a segment is delivered whole or not at
    all, and never before an earlier one that is delivered. *)
Theorem order_preservation cfg w :
  reachable cfg w ->
  exists taken queued : list (list byte),
    (taken ++ queued) `sublist_of` arrivals (trace w) /\
    concat taken = concat (deliveries (trace w)) /\
    concat queued = subarray0 (buf_data (buffer (state w))) (buf_length (buffer (state w))).
Proof.
  intros (t0 & acts & ->). change (order_kept (fold_left (act cfg) acts (mount cfg t0))).
  assert (H : Inv (fold_left (act cfg) acts (mount cfg t0)) /\
              order_kept (fold_left (act cfg) acts (mount cfg t0))); [|apply H].
  induction acts as [|a acts [IH1 IH2]] using rev_ind.
  - split; [apply Inv_mount|]. simpl.
    apply (order_kept_quiet (rendered t0)); [apply quiet_start | apply order_kept_rendered].
  - rewrite fold_left_app. simpl. split; [now apply Inv_act | now apply order_kept_act].
Qed.

(** ** The flush contract *)

Lemma appendBuffer_ready s d o w :
  sink_ready s w ->
  appendBuffer s d o w =
  match o with
  | AppendOk =>
      (log (Appended s d) (set_sinks (alter (set_updating true) s (sinks w)) w), None)
  | AppendThrows e => (log (Rejected s d e) w, Some e)
  end.
Proof.
  intros (_ & k & Hk & Hu & Hr & _). unfold appendBuffer. rewrite Hk, Hu, Hr. reflexivity.
Qed.

Lemma trimBuffer_busy v w s k :
  sb (state w) = Some s -> sinks w !! s = Some k -> updating k = true ->
  trimBuffer v w = w.
Proof. intros Hs Hk Hu. unfold trimBuffer. now rewrite Hs, Hk, Hu. Qed.

Lemma trimBuffer_due v w s start :
  sink_ready s w -> trim_due v w start ->
  trimBuffer v w =
  log (Removed s start ((if videoRef w then currentTime v else 0%Q) - 5))
    (set_sinks (alter (set_updating true) s (sinks w)) w).
Proof.
  intros (Hs & k & Hk & Hu & Hr & _) (Hb & Hg & Ht). unfold trimBuffer.
  now rewrite Hs, Hk, Hu, Hr, Hb, Hg, Ht.
Qed.

Lemma trimBuffer_idle v w s :
  sink_ready s w -> (forall start, ~ trim_due v w start) -> trimBuffer v w = w.
Proof.
  intros (Hs & k & Hk & Hu & Hr & _) Hn. unfold trimBuffer. rewrite Hs, Hk, Hu, Hr.
  destruct (buffered v) as [start|] eqn:Hb; [|reflexivity].
  destruct (Qgtb _ 10) eqn:Hg; [|reflexivity].
  destruct (removeThrows v) eqn:Ht; [reflexivity|].
  exfalso. apply (Hn start). repeat split; assumption.
Qed.

Lemma sink_ready_log o s w : sink_ready s w -> sink_ready s (log o w).
Proof. intros H. exact H. Qed.

Lemma sb_updating_alter s b w k :
  sinks w !! s = Some k ->
  sb_updating s (set_sinks (alter (set_updating b) s (sinks w)) w) = b.
Proof. intros Hk. unfold sb_updating. cbn. now rewrite list_lookup_alter_eq, Hk. Qed.

(** What the updateend handler does with a non-empty queue when the sink is
    the current one and idle. *)
Lemma flush_when_ready s o v w :
  sink_ready s w -> 0 < buf_length (buffer (state w)) ->
  let whole := subarray0 (buf_data (buffer (state w))) (buf_length (buffer (state w))) in
  sbUpdateHandler_run s o v w =
  match o with
  | AppendOk =>
      upd_state (set_buf_length 0)
        (log (Appended s whole) (set_sinks (alter (set_updating true) s (sinks w)) w))
  | AppendThrows QuotaExceededError =>
      trimBuffer v (trimBuffer v (log (Rejected s whole QuotaExceededError) w))
  | AppendThrows e => trimBuffer v (log (Rejected s whole e) w)
  end.
Proof.
  intros Hr Hl whole. pose proof Hr as (Hs & k & Hk & Hu & Hrm & _).
  unfold sbUpdateHandler_run, sb_updating. rewrite Hk, Hu.
  replace (0 <? buf_length (buffer (state w))) with true by (symmetry; now apply Z.ltb_lt).
  cbn [negb andb]. fold whole. rewrite (appendBuffer_ready s whole o w Hr).
  destruct o as [|[|]]; try reflexivity.
  apply (trimBuffer_busy v _ s (set_updating true k)); [exact Hs | | reflexivity].
  cbn. now rewrite list_lookup_alter_eq, Hk.
Qed.

Lemma attempts_snoc tr o :
  attempts (tr ++ [o]) =
  attempts tr ++ match o with
                 | Appended s d | Rejected s d _ => [(s, d)]
                 | _ => []
                 end.
Proof. unfold attempts. rewrite omap_app. destruct o; reflexivity. Qed.

(** C7, as the code has it.  With the current sink idle and bytes queued,
    one run of the updateend handler makes exactly one append attempt, of the
    whole queued range.  If the sink takes it the length becomes 0.  If the
    sink throws QuotaExceededError the queue is left as it was, no second
    attempt is made in that run, and [trimBuffer] runs: when the retention rule
    fires it asks the sink to remove [start, currentTime - 5] and the sink
    turns busy, otherwise nothing more happens.  There is no retry counter:
    after a trim, the next updateend attempts the same whole range again,
    whatever happened before. *)
Theorem flush_contract cfg s o v w :
  sink_ready s w -> 0 < buf_length (buffer (state w)) ->
  let whole := subarray0 (buf_data (buffer (state w))) (buf_length (buffer (state w))) in
  let w' := sbUpdateHandler_run s o v w in
  attempts (trace w') = attempts (trace w) ++ [(s, whole)] /\
  (o = AppendOk ->
     trace w' = trace w ++ [Appended s whole] /\
     buffer (state w') = {| buf_data := buf_data (buffer (state w)); buf_length := 0 |}) /\
  (o = AppendThrows QuotaExceededError ->
     buffer (state w') = buffer (state w) /\
     (forall start, trim_due v w start ->
        trace w' = trace w ++ [Rejected s whole QuotaExceededError;
                               Removed s start ((if videoRef w then currentTime v else 0%Q) - 5)] /\
        sb_updating s w' = true /\
        forall o' v',
          attempts (trace (step cfg w' (UpdateEnd s o' v'))) =
          attempts (trace w') ++ [(s, whole)]) /\
     ((forall start, ~ trim_due v w start) ->
        trace w' = trace w ++ [Rejected s whole QuotaExceededError] /\
        sb_updating s w' = false)).
Proof.
  intros Hr Hl whole w'. subst w'.
  pose proof Hr as (Hs & k & Hk & Hu & Hrm & Hli).
  rewrite (flush_when_ready s o v w Hr Hl). fold whole.
  split; [|split].
  - destruct o as [|e].
    + cbn. apply attempts_snoc.
    + assert (E : attempts (trace (trimBuffer v (log (Rejected s whole e) w))) =
                  attempts (trace w) ++ [(s, whole)]).
      { destruct (trimBuffer_trace v (log (Rejected s whole e) w)) as [E|(s' & a & b & _ & _ & E)];
          rewrite E; cbn; rewrite ?attempts_snoc; cbn; rewrite ?attempts_snoc, ?app_nil_r;
          reflexivity. }
      destruct e; [|exact E].
      destruct (trimBuffer_trace v (trimBuffer v (log (Rejected s whole QuotaExceededError) w)))
        as [E2|(s' & a & b & _ & _ & E2)]; rewrite E2, ?attempts_snoc, E, ?app_nil_r;
        reflexivity.
  - intros ->. cbn. auto.
  - intros ->. split; [now rewrite !trimBuffer_state|]. split.
    + intros start Hd.
      rewrite (trimBuffer_due v (log _ w) s start) by assumption.
      set (w1 := log (Removed _ _ _) _).
      assert (Hk1 : sinks w1 !! s = Some (set_updating true k))
        by (cbn; now rewrite list_lookup_alter_eq, Hk).
      rewrite (trimBuffer_busy v w1 s _ Hs Hk1 eq_refl).
      split; [cbn; now rewrite <- app_assoc|].
      split; [unfold sb_updating; now rewrite Hk1|].
      intros o' v'. cbn [step]. rewrite Hk1. cbn [updating set_updating sb_listener].
      rewrite Hli.
      set (w2 := set_sinks _ w1).
      assert (Hr2 : sink_ready s w2).
      { split; [exact Hs|]. exists (set_updating false (set_updating true k)).
        cbn. rewrite list_lookup_alter_eq, list_lookup_alter_eq, Hk. auto. }
      rewrite (flush_when_ready s o' v' w2 Hr2 Hl).
      change (subarray0 (buf_data (buffer (state w2))) (buf_length (buffer (state w2))))
        with whole.
      change (trace w1) with (trace w2).
      destruct o' as [|e].
      * cbn. apply attempts_snoc.
      * assert (E : attempts (trace (trimBuffer v' (log (Rejected s whole e) w2))) =
                    attempts (trace w2) ++ [(s, whole)]).
        { destruct (trimBuffer_trace v' (log (Rejected s whole e) w2))
            as [E|(s' & a & b & _ & _ & E)];
            rewrite E; cbn -[w2]; rewrite ?attempts_snoc; cbn -[w2];
            rewrite ?attempts_snoc, ?app_nil_r; reflexivity. }
        destruct e; [|exact E].
        destruct (trimBuffer_trace v' (trimBuffer v' (log (Rejected s whole QuotaExceededError) w2)))
          as [E2|(s' & a & b & _ & _ & E2)]; rewrite E2, ?attempts_snoc, E, ?app_nil_r;
          reflexivity.
    + intros Hn.
      rewrite (trimBuffer_idle v (log _ w) s) by assumption.
      rewrite (trimBuffer_idle v (log _ w) s) by assumption.
      split; [reflexivity|]. unfold sb_updating. cbn. now rewrite Hk.
Qed.

(** ** The flags while something can still call back *)

Lemma Active_frame w w' :
  timers w' = timers w -> sockets w' = sockets w ->
  isMounted (state w') = isMounted (state w) ->
  isReconnecting (state w') = isReconnecting (state w) ->
  Active w -> Active w'.
Proof.
  intros E1 E2 E3 E4 [H1 H2 H3]. constructor.
  - intros t. rewrite E1, E3, E4. apply H1.
  - intros i k. rewrite E2, E3, E4. apply H2.
  - intros t. rewrite E1, E3, E4. apply H3.
Qed.

Lemma Active_same_ctl w w' : same_ctl w w' -> Active w -> Active w'.
Proof. intros []. now apply Active_frame. Qed.

Lemma Active_quiescent w :
  timers w = [] -> (forall i k, sockets w !! i = Some k -> live k = false) -> Active w.
Proof.
  intros Ht Hd. constructor.
  - intros t. rewrite Ht. intros H. now apply not_elem_of_nil in H.
  - intros i k Hk Hl. rewrite (Hd i k Hk) in Hl. discriminate.
  - intros t. rewrite Ht. intros H. now apply not_elem_of_nil in H.
Qed.

Lemma Active_cleanup w : Inv w -> Active (cleanup w).
Proof.
  intros H. apply Active_quiescent;
    [apply cleanup_timers_nil, H | apply cleanup_sockets_dead, H].
Qed.

Lemma Active_reconnect w : Inv w -> Active w -> Active (reconnect w).
Proof.
  intros HI HA. destruct (reconnect_guard w) as [E | [Hm Hr]]; [rewrite E; exact HA|].
  rewrite (reconnect_eq w Hm Hr).
  set (w1 := upd_state (set_isReconnecting true) w).
  assert (H1 : Inv w1) by now apply Inv_set_isReconnecting.
  pose proof (cleanup_timers_nil w1 (inv_owned w1 H1)) as Ht.
  pose proof (cleanup_sockets_dead w1 (inv_sockets w1 H1)) as Hd.
  destruct (cleanup_flags w1) as (Em & Er & _).
  revert Ht Hd Em Er. generalize (cleanup w1). intros c Ht Hd Em Er.
  constructor; cbn.
  - intros t. rewrite Ht. intros H%list_elem_of_singleton. subst t. discriminate.
  - intros i k Hk Hl. rewrite (Hd i k Hk) in Hl. discriminate.
  - intros t _ _. rewrite Em, Er. cbn. auto.
Qed.

Lemma Active_connect cfg w :
  Inv w -> Active w -> ws (state w) = None ->
  isMounted (state w) = true -> isReconnecting (state w) = false ->
  Active (connect cfg w).
Proof.
  intros HI HA Hw Hm Hr. destruct (connect_eq cfg w) as [-> | ->].
  - revert HA. apply Active_frame; reflexivity.
  - destruct HA as [H1 H2 H3]. constructor; cbn; auto.
Qed.

Lemma Active_startStalledCheck w :
  isMounted (state w) = true -> isReconnecting (state w) = false ->
  Active w -> Active (startStalledCheck w).
Proof.
  intros Hm Hr [H1 H2 H3]. rewrite startStalledCheck_eq. constructor; cbn; auto.
  intros t. rewrite elem_of_app, elem_of_cleared, list_elem_of_singleton.
  intros [[Ht _] | ->]; [apply H3, Ht | discriminate].
Qed.

Lemma Active_setupSourceBuffer codec addOk w :
  isMounted (state w) = true -> isReconnecting (state w) = false ->
  Active w -> Active (setupSourceBuffer codec addOk w).
Proof.
  intros Hm Hr H. unfold setupSourceBuffer.
  destruct (ms (state w)) as [m|]; [|exact H].
  destruct (ms_is_open m w && addOk); [|exact H].
  apply Active_startStalledCheck; [exact Hm | exact Hr |].
  revert H. apply Active_frame; reflexivity.
Qed.

Lemma Active_log o w : Active w -> Active (log o w).
Proof. apply Active_frame; reflexivity. Qed.

Lemma Active_ws_onopen cfg w : Active w -> Active (ws_onopen cfg w).
Proof.
  unfold ws_onopen. apply Active_frame; unfold setupMSE, attach_video, detach_video;
    repeat case_match; reflexivity.
Qed.

Lemma Active_ws_onmessage_text m addOk w :
  Inv w -> isMounted (state w) = true -> isReconnecting (state w) = false ->
  Active w -> Active (ws_onmessage_text m addOk w).
Proof.
  intros HI Hm Hr H. destruct m; simpl.
  - now apply Active_setupSourceBuffer.
  - apply Active_reconnect; [now apply Inv_log, Inv_log | now apply Active_log, Active_log].
  - exact H.
Qed.

Lemma Inv_drop_ws i w :
  Inv w -> ws (state w) = Some i ->
  (forall k, sockets w !! i = Some k -> live k = false) ->
  Inv (upd_state (set_ws None) w).
Proof.
  intros [Ho Hf Hs Hp Hb] Hw Hd. constructor; try assumption.
  - intros j k. cbn. intros Hk Hl. pose proof (Hs j k Hk Hl) as E.
    rewrite Hw in E. injection E as ->. rewrite (Hd k Hk) in Hl. discriminate.
  - intros t _ _. reflexivity.
Qed.

Lemma Active_ws_onclose i w :
  Inv w -> (forall k, sockets w !! i = Some k -> live k = false) ->
  Active w -> Active (ws_onclose i w).
Proof.
  intros HI Hd H. unfold ws_onclose.
  destruct (ws (state w)) as [j|] eqn:Hw; [|exact H].
  destruct (Nat.eqb_spec j i) as [->|Hne]; [|exact H].
  apply Active_reconnect.
  - apply Inv_log. now apply (Inv_drop_ws i).
  - apply Active_log. revert H. apply Active_frame; reflexivity.
Qed.

Lemma Active_alter_socket f i w :
  (forall k, sockets w !! i = Some k -> live (f k) = true -> live k = true) ->
  Active w -> Active (set_sockets (alter f i (sockets w)) w).
Proof.
  intros Hf [H1 H2 H3]. constructor; try assumption.
  intros j k. cbn. destruct (decide (i = j)) as [->|Hne].
  - rewrite list_lookup_alter_eq. intros Hk.
    destruct (sockets w !! j) as [k0|] eqn:E; [|discriminate].
    simpl in Hk. injection Hk as <-. intros Hl. apply (H2 j k0 E). now apply Hf.
  - rewrite list_lookup_alter_ne by assumption. apply H2.
Qed.

Lemma Active_clearTimer id w : Active w -> Active (clearTimer id w).
Proof.
  intros [H1 H2 H3]. constructor; try assumption.
  - intros t. cbn. rewrite list_elem_of_filter. intros [_ Ht]. now apply H1.
  - intros t. cbn. rewrite list_elem_of_filter. intros [_ Ht]. now apply H3.
Qed.

Lemma Active_reconnectFire cfg w t :
  Inv w -> Active w -> t ∈ timers w -> cb t = ReconnectFire ->
  Active (reconnectFire cfg (log (Fired t) (clearTimer (tid t) w))).
Proof.
  intros HI HA Ht Hc. unfold reconnectFire.
  set (w0 := log (Fired t) (clearTimer (tid t) w)).
  assert (Hn : forall t', t' ∈ timers w0 -> cb t' <> ReconnectFire).
  { intros t'. cbn. rewrite list_elem_of_filter. intros [Hne Ht'] Hc'.
    apply Hne. pose proof (inv_owned w HI t Ht) as A. pose proof (inv_owned w HI t' Ht') as B.
    rewrite Hc in A. rewrite Hc' in B. destruct A as [A _], B as [B _]. congruence. }
  assert (H0 : Active w0) by now apply Active_log, Active_clearTimer.
  assert (I0 : Inv w0) by now apply Inv_log, Inv_clearTimer.
  set (w1 := upd_state (set_isReconnecting false) w0).
  assert (H1 : Active w1).
  { destruct H0 as [A1 A2 A3]. constructor.
    - intros t' Ht' Hc'. destruct (A1 t' Ht' Hc'). auto.
    - intros i k Hk Hl. destruct (A2 i k Hk Hl). auto.
    - intros t' Ht' Hc'. exfalso. exact (Hn t' Ht' Hc'). }
  destruct (isMounted (state w1)) eqn:Hm; [|exact H1].
  apply Active_connect; auto.
  - now apply Inv_set_isReconnecting.
  - apply (inv_pending w HI t Ht Hc).
Qed.

Lemma Active_stalledTick w : Inv w -> Active w -> Active (stalledTick w).
Proof.
  intros HI H. unfold stalledTick.
  destruct (lastDataTime (state w) =? 0); [exact H|].
  destruct (2000 <? _); [|exact H].
  apply Active_reconnect; [now apply Inv_log | now apply Active_log].
Qed.

Lemma Active_step cfg w e : Inv w -> Active w -> Active (step cfg w e).
Proof.
  intros HI H. destruct e as [i|i m addOk|i d o v|i|i|m|s o v|id|dt]; simpl.
  - destruct (sockets w !! i) as [k|] eqn:Hk; [|exact H].
    destruct (readyState k) eqn:Hr; try exact H.
    assert (H1 : Active (set_sockets (alter (set_readyState OPEN) i (sockets w)) w)).
    { apply Active_alter_socket; [|exact H]. intros k0 Hk0. rewrite Hk in Hk0.
      injection Hk0 as <-. unfold live. simpl. rewrite Hr. trivial. }
    destruct (onopen k); [now apply Active_ws_onopen | exact H1].
  - destruct (sockets w !! i) as [k|] eqn:Hk; [|exact H].
    destruct (readyState k) eqn:Hr; try exact H.
    destruct (onmessage k) eqn:Hm; [|exact H].
    assert (Hl : live k = true).
    { unfold live. rewrite Hm, Hr, !orb_true_r. reflexivity. }
    destruct (act_socket w H i k Hk Hl). now apply Active_ws_onmessage_text.
  - destruct (sockets w !! i) as [k|]; [|exact H].
    destruct (readyState k); try exact H.
    destruct (onmessage k); [|exact H].
    revert H. apply Active_same_ctl, same_ctl_appendData.
  - destruct (sockets w !! i) as [k|]; [|exact H].
    unfold ws_onerror.
    destruct (readyState k); try exact H;
      (destruct (onerror k); [now apply Active_log, Active_log | exact H]).
  - destruct (sockets w !! i) as [k|] eqn:Hk; [|exact H].
    assert (H1 : Active (set_sockets (alter (set_readyState CLOSED) i (sockets w)) w)).
    { apply Active_alter_socket; [|exact H]. intros k0 _. unfold live. simpl.
      rewrite andb_false_r. discriminate. }
    assert (I1 : Inv (set_sockets (alter (set_readyState CLOSED) i (sockets w)) w)).
    { apply Inv_set_sockets_alter; [|exact HI]. intros k0 _. unfold live. simpl.
      rewrite andb_false_r. discriminate. }
    assert (Hd : forall k0,
               sockets (set_sockets (alter (set_readyState CLOSED) i (sockets w)) w) !! i
               = Some k0 -> live k0 = false).
    { intros k0. cbn. rewrite list_lookup_alter_eq, Hk. simpl. intros [= <-].
      unfold live. simpl. apply andb_false_r. }
    destruct (readyState k); try exact H;
      (destruct (onclose k); [now apply Active_ws_onclose | exact H1]).
  - destruct (sources w !! m) as [k|]; [|exact H].
    destruct (ms_attached k && negb (ms_open k)); [|exact H].
    set (w1 := set_sources _ w).
    assert (H1 : Active w1) by (revert H; apply Active_frame; reflexivity).
    destruct (ms_sourceopen k); [|exact H1].
    revert H1. apply Active_same_ctl, same_ctl_onSourceOpen.
  - destruct (sinks w !! s) as [k|]; [|exact H].
    destruct (updating k); [|exact H].
    set (w1 := set_sinks _ w).
    assert (H1 : Active w1) by (revert H; apply Active_frame; reflexivity).
    destruct (sb_listener k); [|exact H1].
    revert H1. apply Active_same_ctl, same_ctl_sbUpdateHandler_run.
  - destruct (find _ (timers w)) as [t|] eqn:Hfind; [|exact H].
    apply find_tid_Some in Hfind as [Ht <-].
    pose proof (inv_owned w HI t Ht) as Ho.
    destruct (cb t) eqn:Hc; destruct Ho as [_ ->]; simpl.
    + now apply Active_reconnectFire.
    + apply Active_stalledTick; [now apply Inv_log | now apply Active_log].
  - revert H. apply Active_frame; reflexivity.
Qed.

Lemma Active_start cfg w :
  Inv w -> ws (state w) = None -> timers w = [] ->
  (forall i k, sockets w !! i = Some k -> live k = false) ->
  Active (start cfg w).
Proof.
  intros HI Hw Ht Hd. unfold start.
  destruct (String.eqb (src cfg) "" || negb (videoRef w));
    [now apply Active_quiescent|].
  apply Active_connect; try reflexivity.
  - now apply Inv_set_isReconnecting, Inv_set_isMounted.
  - now apply Active_quiescent.
  - exact Hw.
Qed.

Lemma Active_act cfg w a : Inv w -> Active w -> Active (act cfg w a).
Proof.
  intros HI H. destruct a as [e| |]; simpl.
  - now apply Active_step.
  - apply Active_cleanup, Inv_set_isMounted. revert HI. apply Inv_frame; reflexivity.
  - apply Active_start.
    + now apply Inv_stop.
    + apply stop_ws.
    + now apply stop_timers.
    + apply cleanup_sockets_dead. apply (inv_sockets _ (Inv_set_isMounted false w HI)).
Qed.

Lemma Active_reachable cfg w : reachable cfg w -> Inv w /\ Active w.
Proof.
  intros (t0 & acts & ->).
  induction acts as [|a acts [IH1 IH2]] using rev_ind.
  - split; [apply Inv_mount|]. apply Active_start; try reflexivity.
    + apply Inv_rendered.
    + intros i k H. discriminate.
  - rewrite fold_left_app. simpl. split; [now apply Inv_act | now apply Active_act].
Qed.

(** ** Reachability of the example worlds *)

Lemma reachable_mount cfg t0 : reachable cfg (mount cfg t0).
Proof. exists t0, []. reflexivity. Qed.

Lemma reachable_act cfg w a : reachable cfg w -> reachable cfg (act cfg w a).
Proof.
  intros (t0 & acts & ->). exists t0, (acts ++ [a]). now rewrite fold_left_app.
Qed.

Lemma reachable_step cfg w e : reachable cfg w -> reachable cfg (step cfg w e).
Proof. apply (reachable_act cfg w (Host e)). Qed.

Lemma reachable_run cfg w es : reachable cfg w -> reachable cfg (run cfg w es).
Proof.
  revert w. induction es as [|e es IH]; intros w H; [exact H|].
  simpl. now apply IH, reachable_step.
Qed.

Lemma reachable_streaming_since t0 : reachable camera_page (streaming_since t0).
Proof. apply reachable_run, reachable_mount. Qed.

(** ** The stall watchdog *)

Lemma scheduled_isReconnecting c :
  isReconnecting (state (scheduled c)) = isReconnecting (state c).
Proof. reflexivity. Qed.

Lemma find_tid_NoDup (l : list Timer) t :
  NoDup (tid <$> l) -> t ∈ l -> find (fun t' => Nat.eqb (tid t') (tid t)) l = Some t.
Proof.
  induction l as [|x l IH]; intros Hn Ht; [now apply not_elem_of_nil in Ht|].
  rewrite fmap_cons in Hn. apply NoDup_cons in Hn as [Hx Hn]. simpl.
  apply elem_of_cons in Ht as [<- | Ht]; [now rewrite Nat.eqb_refl|].
  destruct (Nat.eqb_spec (tid x) (tid t)) as [E|_]; [|now apply IH].
  exfalso. apply Hx. rewrite E. now apply list_elem_of_fmap_2.
Qed.

(** C5, as the code has it.  In a reachable world whose watchdog interval [t]
    is live, a tick does nothing (beyond the timer having fired) when
    [lastDataTime] is 0, the value the code reserves for "no data yet", or
    when at most 2000 ms have passed since the last data.  When
    [lastDataTime] is not 0 and more than 2000 ms have passed, the tick
    reports "stalled" and runs the reconnect at once: "reconnecting" is
    reported, the socket is dropped, and the reconnect timeout is the only
    live timer (the watchdog itself is disarmed). *)
Theorem watchdog_timing cfg w t :
  reachable cfg w -> t ∈ timers w -> cb t = StalledTick ->
  let elapsed := Date_now w - lastDataTime (state w) in
  let w' := step cfg w (TimerFire (tid t)) in
  (lastDataTime (state w) = 0 \/ elapsed <= 2000 -> w' = log (Fired t) w) /\
  (lastDataTime (state w) <> 0 -> 2000 < elapsed ->
     trace w' = trace w ++ [Fired t; Status "stalled"; Status "reconnecting"] /\
     timers w' = [{| tid := nextTimer w; cb := ReconnectFire; delay := 2000;
                     repeating := false |}] /\
     ws (state w') = None /\
     isReconnecting (state w') = true).
Proof.
  intros Hr Ht Hc elapsed w'. apply Active_reachable in Hr as [HI HA].
  destruct (act_watchdog w HA t Ht Hc) as [Hm Hrc].
  pose proof (inv_owned w HI t Ht) as Ho. rewrite Hc in Ho. destruct Ho as [_ Hrep].
  assert (E : w' = stalledTick (log (Fired t) w)).
  { subst w'. cbn [step]. rewrite (find_tid_NoDup _ t (proj1 (inv_fresh w HI)) Ht).
    rewrite Hrep, Hc. reflexivity. }
  rewrite E. subst elapsed. unfold stalledTick. cbn [state log lastDataTime Date_now].
  split.
  - intros [H0 | Hle].
    + rewrite H0. reflexivity.
    + destruct (lastDataTime (state w) =? 0); [reflexivity|].
      destruct (Z.ltb_spec 2000 (Date_now w - lastDataTime (state w))); [lia|reflexivity].
  - intros Hne Hgt.
    destruct (Z.eqb_spec (lastDataTime (state w)) 0); [contradiction|].
    destruct (Z.ltb_spec 2000 (Date_now w - lastDataTime (state w))); [|lia].
    set (w1 := updateStatus "stalled" (log (Fired t) w)).
    assert (Ho1 : timers_owned w1) by apply (inv_owned _ (Inv_log _ _ (Inv_log _ _ HI))).
    destruct (reconnect_schedules w1 Ho1 Hm Hrc) as (E1 & E2 & E3 & E4).
    rewrite E1, E2, E3. split; [|split; [reflexivity|split; [reflexivity|]]].
    + cbn. now rewrite <- !app_assoc.
    + rewrite (reconnect_eq w1 Hm Hrc), scheduled_isReconnecting.
      destruct (cleanup_flags (upd_state (set_isReconnecting true) w1)) as (_ & F & _).
      rewrite F. reflexivity.
Qed.

Lemma watchdog_timing_witness :
  let w := run camera_page (streaming_since 1000)
             [WsBinary 0 [x01] AppendOk nothing_buffered; ClockAdvance 4000] in
  let t := {| tid := 1; cb := StalledTick; delay := 2000; repeating := true |} in
  trace (step camera_page w (TimerFire 1)) =
    trace w ++ [Fired t; Status "stalled"; Status "reconnecting"].
Proof.
  intros w t.
  refine (proj1 (proj2 (watchdog_timing camera_page w t _ _ _) _ _)).
  - apply reachable_run, reachable_streaming_since.
  - vm_compute. apply list_elem_of_here.
  - reflexivity.
  - vm_compute. discriminate.
  - vm_compute. reflexivity.
Defined.

(** C5 as stated fails with a clock that starts at 0: the segment arriving
    at time 0 leaves [lastDataTime] at 0, which the tick reads as "no data
    yet", so four seconds later the tick still reports nothing and the
    watchdog stays armed. *)
Lemma watchdog_silent_when_data_arrived_at_zero :
  let w := silent_since_zero in
  let w' := step camera_page w (TimerFire 1) in
  lastDataTime (state w) = 0 /\
  2000 < Date_now w - lastDataTime (state w) /\
  trace w' = trace w ++ [Fired {| tid := 1; cb := StalledTick; delay := 2000;
                                 repeating := true |}] /\
  ~ Status "stalled" ∈ trace w' /\
  timers w' = timers w.
Proof.
  vm_compute. repeat split; try reflexivity.
  intros H. repeat (apply elem_of_cons in H as [H|H]; [discriminate|]).
  now apply not_elem_of_nil in H.
Qed.

(** ** The negotiation message is sent at most once per socket *)

Lemma sent_on_quiet i tr rest :
  Forall quiet_obs rest -> sent_on i (tr ++ rest) = sent_on i tr.
Proof.
  intros H. unfold sent_on. rewrite omap_app.
  induction H as [|o rest Ho _ IH]; [apply app_nil_r|].
  simpl. destruct o; simpl in *; try exact IH. contradiction.
Qed.

Lemma sent_on_sink i tr rest :
  Forall (fun o => match o with Sent _ _ => False | _ => True end) rest ->
  sent_on i (tr ++ rest) = sent_on i tr.
Proof.
  intros H. unfold sent_on. rewrite omap_app.
  induction H as [|o rest Ho _ IH]; [apply app_nil_r|].
  simpl. destruct o; simpl in *; try exact IH. contradiction.
Qed.

Lemma settles_refl w : settles w w.
Proof. constructor; eauto using quiet_refl. Qed.

Lemma settles_trans w1 w2 w3 : settles w1 w2 -> settles w2 w3 -> settles w1 w3.
Proof.
  intros [Q1 L1 C1 S1 W1] [Q2 L2 C2 S2 W2]. constructor.
  - eapply quiet_trans; eassumption.
  - congruence.
  - intros i k3 Hk Hr. destruct (C2 i k3 Hk Hr) as (k2 & Hk2 & Hr2). eauto.
  - intros m k3 Hk Ha. destruct (S2 m k3 Hk Ha) as (k2 & Hk2 & Ha2 & Hw2).
    destruct (S1 m k2 Hk2 Ha2) as (k1 & Hk1 & Ha1 & Hw1). eauto 6.
  - destruct W2 as [W2|W2]; [|now right]. rewrite W2. exact W1.
Qed.

Lemma settles_frame w w' :
  quiet w w' -> sockets w' = sockets w -> sources w' = sources w ->
  ws (state w') = ws (state w) -> settles w w'.
Proof.
  intros Q E1 E2 E3. constructor; try assumption.
  - now rewrite E1.
  - intros i k. rewrite E1. eauto.
  - intros m k. rewrite E2. eauto.
  - now left.
Qed.

Lemma Sends_settles cfg w w' : settles w w' -> Sends cfg w -> Sends cfg w'.
Proof.
  intros [[(rest & Et & Hq) _] L C S W] [H1 H2 H3 H4 H5].
  assert (E : forall i, sent_on i (trace w') = sent_on i (trace w)).
  { intros i. rewrite Et. now apply sent_on_quiet. }
  constructor.
  - intros i. rewrite E. apply H1.
  - intros i k Hk Hr. rewrite E. destruct (C i k Hk Hr) as (k0 & Hk0 & Hr0). eauto.
  - intros i. rewrite E, L. apply H3.
  - intros m k i Hk Ha Hw. rewrite E.
    assert (Hat : ms_attached k = true).
    { unfold awaiting_open in Ha. destruct (ms_attached k); [reflexivity|discriminate]. }
    destruct (S m k Hk Hat) as (k0 & Hk0 & _ & Hw0).
    destruct W as [W|W]; [|congruence]. rewrite W in Hw. eauto.
  - intros m m' k k' Hk Hk' Ha Ha'.
    destruct (S m k Hk Ha) as (k0 & Hk0 & Ha0 & _).
    destruct (S m' k' Hk' Ha') as (k0' & Hk0' & Ha0' & _). eauto.
Qed.

Lemma closing_not_connecting k : readyState (closing k) = CONNECTING -> False.
Proof. unfold closing. destruct (readyState k) eqn:E; simpl; congruence. Qed.

Lemma settles_cleanup w : settles w (cleanup w).
Proof.
  destruct (cleanup_spec w) as (_&_&_&_&_& Ew &_&_&_&_&_&_&_&_& Es & Eo).
  constructor.
  - apply quiet_cleanup.
  - rewrite Es. destruct (ws (state w)); [now rewrite !length_alter | reflexivity].
  - intros i k'. rewrite Es. destruct (ws (state w)) as [j|]; [|eauto].
    destruct (decide (j = i)) as [->|Hne].
    + rewrite list_lookup_alter_eq. intros Hk Hr.
      destruct (alter detach i (sockets w) !! i) as [k0|]; [|discriminate].
      simpl in Hk. injection Hk as <-. now apply closing_not_connecting in Hr.
    + rewrite !list_lookup_alter_ne by assumption. eauto.
  - intros m k'. rewrite Eo. destruct (videoRef w); [|eauto].
    rewrite list_lookup_fmap. destruct (sources w !! m) as [k|]; [|discriminate].
    simpl. intros [= <-]. destruct (ms_attached k) eqn:Ha; [discriminate|].
    rewrite Ha. discriminate.
  - right. exact Ew.
Qed.

Lemma settles_scheduled c : settles c (scheduled c).
Proof. apply settles_frame; [apply quiet_scheduled | reflexivity..]. Qed.

Lemma settles_reconnect w : settles w (reconnect w).
Proof.
  destruct (reconnect_guard w) as [E | [Hm Hr]]; [rewrite E; apply settles_refl|].
  rewrite (reconnect_eq w Hm Hr).
  eapply settles_trans; [|apply settles_scheduled].
  eapply settles_trans; [|apply settles_cleanup].
  apply settles_frame; [apply quiet_frame|..]; reflexivity.
Qed.

Lemma settles_log o w : quiet_obs o -> settles w (log o w).
Proof. intros H. apply settles_frame; [now apply quiet_log | reflexivity..]. Qed.

Lemma settles_startStalledCheck w : settles w (startStalledCheck w).
Proof.
  apply settles_frame; [apply quiet_startStalledCheck|..];
    rewrite startStalledCheck_eq; reflexivity.
Qed.

Lemma settles_setupSourceBuffer codec addOk w : settles w (setupSourceBuffer codec addOk w).
Proof.
  unfold setupSourceBuffer.
  destruct (ms (state w)) as [m|]; [|apply settles_refl].
  destruct (ms_is_open m w && addOk); [|apply settles_refl].
  eapply settles_trans; [|apply settles_startStalledCheck].
  eapply settles_trans; [|apply (settles_log (Status "streaming")); exact I].
  apply settles_frame; [apply quiet_frame|..]; reflexivity.
Qed.

Lemma settles_ws_onmessage_text m addOk w : settles w (ws_onmessage_text m addOk w).
Proof.
  destruct m; simpl.
  - apply settles_setupSourceBuffer.
  - eapply settles_trans; [apply (settles_log (Error (Some value))); exact I|].
    eapply settles_trans; [apply (settles_log (Status "error")); exact I|].
    apply settles_reconnect.
  - apply settles_refl.
Qed.

Lemma settles_drop_ws w : settles w (upd_state (set_ws None) w).
Proof.
  constructor.
  - apply quiet_frame; reflexivity.
  - reflexivity.
  - eauto.
  - eauto.
  - now right.
Qed.

Lemma settles_ws_onclose i w : settles w (ws_onclose i w).
Proof.
  unfold ws_onclose. destruct (ws (state w)) as [j|]; [|apply settles_refl].
  destruct (Nat.eqb j i); [|apply settles_refl].
  eapply settles_trans; [apply settles_drop_ws|].
  eapply settles_trans; [apply (settles_log (Status "closed")); exact I|].
  apply settles_reconnect.
Qed.

Lemma settles_ws_onerror w : settles w (ws_onerror w).
Proof. unfold ws_onerror. eapply settles_trans; apply settles_log; exact I. Qed.

Lemma settles_stalledTick w : settles w (stalledTick w).
Proof.
  unfold stalledTick. destruct (lastDataTime (state w) =? 0); [apply settles_refl|].
  destruct (2000 <? _); [|apply settles_refl].
  eapply settles_trans; [apply (settles_log (Status "stalled")); exact I|].
  apply settles_reconnect.
Qed.

Lemma settles_stop w : settles w (stop w).
Proof.
  unfold stop. eapply settles_trans; [|apply settles_cleanup].
  apply settles_frame; [apply quiet_frame|..]; reflexivity.
Qed.

Lemma settles_set_readyState r i w :
  r <> CONNECTING -> settles w (set_sockets (alter (set_readyState r) i (sockets w)) w).
Proof.
  intros Hr. constructor.
  - apply quiet_frame; reflexivity.
  - cbn. apply length_alter.
  - intros j k'. cbn. destruct (decide (i = j)) as [->|Hne].
    + rewrite list_lookup_alter_eq. destruct (sockets w !! j) as [k0|]; [|discriminate].
      simpl. intros [= <-]. simpl. congruence.
    + rewrite list_lookup_alter_ne by assumption. eauto.
  - eauto.
  - now left.
Qed.

Lemma Sends_same_ctl cfg w w' :
  same_ctl w w' -> (forall i, sent_on i (trace w') = sent_on i (trace w)) ->
  Sends cfg w -> Sends cfg w'.
Proof.
  intros [] E [H1 H2 H3 H4 H5]. constructor.
  - intros i. rewrite E. apply H1.
  - intros i k. rewrite E, ctl_sockets0. apply H2.
  - intros i. rewrite E, ctl_sockets0. apply H3.
  - intros m k i. rewrite E, ctl_sources0, ctl_ws0. apply H4.
  - intros m m' k k'. rewrite ctl_sources0. apply H5.
Qed.

Lemma sent_on_appendData d o v w i :
  sent_on i (trace (appendData d o v w)) = sent_on i (trace w).
Proof.
  destruct (appendData_cases d o v w) as
    [(s & a & _ & _ & _ & _ & _ & ->) | [(s & _ & _ & _ & ->) | (_ & rest & -> & Hn)]];
    apply sent_on_sink.
  - repeat constructor.
  - repeat constructor.
  - constructor; [exact I|]. eapply Forall_impl; [exact Hn|]. intros []; simpl; tauto.
Qed.

Lemma sent_on_sbUpdateHandler_run s o v w i :
  sent_on i (trace (sbUpdateHandler_run s o v w)) = sent_on i (trace w).
Proof.
  destruct (sbUpdateHandler_run_cases s o v w) as
    [(_ & _ & _ & rest & -> & Hn) | (_ & rest & -> & Hn)]; apply sent_on_sink.
  - constructor; [exact I|]. eapply Forall_impl; [exact Hn|]. intros []; simpl; tauto.
  - eapply Forall_impl; [exact Hn|]. intros []; simpl; tauto.
Qed.

Lemma Sends_connect cfg w : ws (state w) = None -> Sends cfg w -> Sends cfg (connect cfg w).
Proof.
  intros Hw H. destruct (connect_eq cfg w) as [-> | ->].
  { revert H. apply Sends_settles, settles_log. exact I. }
  assert (E : forall i, sent_on i (trace w ++ [Status "connecting"]) = sent_on i (trace w)).
  { intros i. apply sent_on_quiet. repeat constructor. }
  destruct H as [H1 H2 H3 H4 H5].
  constructor; cbn [trace sockets sources state ws upd_state set_sockets set_ws log].
  - intros i. rewrite E. apply H1.
  - intros i k Hk Hr. rewrite E. apply lookup_app_Some in Hk as [Hk | [Hlen _]].
    + eauto.
    + now apply H3.
  - intros i. rewrite E, length_app. simpl. intros Hi. apply H3. lia.
  - intros m k i Hk Ha [= <-]. rewrite E. now apply H3.
  - exact H5.
Qed.

Lemma setupMSE_eq cfg w :
  mediaSourceClass cfg = true ->
  let fresh := {| ms_open := false; ms_attached := false; ms_sourceopen := true |} in
  let n := length (sources w) in
  setupMSE cfg w =
  upd_state (set_ms (Some n))
    (set_sources
       (if videoRef w
        then alter (fun k => {| ms_open := ms_open k; ms_attached := true;
                                ms_sourceopen := ms_sourceopen k |}) n
               ((fun k => if ms_attached k then unattached k else k) <$>
                (sources w ++ [fresh]))
        else sources w ++ [fresh]) w).
Proof.
  intros Hc fresh n. unfold setupMSE, attach_video, detach_video. rewrite Hc.
  destruct_world w. cbn. destruct f_video; reflexivity.
Qed.

Lemma Sends_setupMSE cfg w :
  (forall i, ws (state w) = Some i -> sent_on i (trace w) = []) ->
  Sends cfg w -> Sends cfg (setupMSE cfg w).
Proof.
  intros Hw H. destruct (mediaSourceClass cfg) eqn:Hc.
  2:{ unfold setupMSE. rewrite Hc. revert H. apply Sends_settles.
      eapply settles_trans; apply settles_log; exact I. }
  rewrite (setupMSE_eq cfg w Hc). cbv zeta.
  destruct H as [H1 H2 H3 H4 H5].
  constructor; cbn [trace sockets sources state ws upd_state set_sources set_ms].
  - exact H1.
  - exact H2.
  - exact H3.
  - intros m k i _ _. apply Hw.
  - destruct (videoRef w).
    + set (n := length (sources w)).
      assert (Hat : forall j kj,
                alter (fun k => {| ms_open := ms_open k; ms_attached := true;
                                   ms_sourceopen := ms_sourceopen k |}) n
                  ((fun k => if ms_attached k then unattached k else k) <$>
                   (sources w ++ [{| ms_open := false; ms_attached := false;
                                     ms_sourceopen := true |}])) !! j = Some kj ->
                ms_attached kj = true -> j = n).
      { intros j kj. destruct (decide (n = j)) as [E|Hne]; [auto|].
        rewrite list_lookup_alter_ne by assumption. rewrite list_lookup_fmap.
        destruct ((sources w ++ _) !! j) as [k0|]; [|discriminate].
        simpl. intros [= <-]. destruct (ms_attached k0) eqn:Ha; simpl; congruence. }
      intros m m' k k' Hk Hk' Ha Ha'.
      rewrite (Hat m k Hk Ha), (Hat m' k' Hk' Ha'). reflexivity.
    + intros m m' k k' Hk Hk' Ha Ha'.
      apply lookup_app_Some in Hk as [Hk | [_ Hk]];
        [|apply list_lookup_singleton_Some in Hk as [_ <-]; discriminate].
      apply lookup_app_Some in Hk' as [Hk' | [_ Hk']];
        [|apply list_lookup_singleton_Some in Hk' as [_ <-]; discriminate].
      eauto.
Qed.

Lemma sent_on_snoc_Sent j tr i m :
  sent_on j (tr ++ [Sent i m]) = sent_on j tr ++ (if Nat.eqb i j then [m] else []).
Proof. unfold sent_on. rewrite omap_app. simpl. destruct (Nat.eqb i j); reflexivity. Qed.

Lemma Sends_sourceOpen cfg w m k :
  Sends cfg w -> sources w !! m = Some k ->
  ms_attached k = true -> ms_open k = false ->
  let w1 := set_sources
              (alter (fun _ => {| ms_open := true; ms_attached := true;
                                  ms_sourceopen := false |}) m (sources w)) w in
  Sends cfg w1 /\ (ms_sourceopen k = true -> Sends cfg (onSourceOpen cfg w1)).
Proof.
  intros [H1 H2 H3 H4 H5] Hk Ha Ho w1.
  assert (Hlook : forall j kj, sources w1 !! j = Some kj -> ms_attached kj = true ->
                   j = m /\ awaiting_open kj = false).
  { intros j kj. subst w1. cbn. destruct (decide (m = j)) as [->|Hne].
    - rewrite list_lookup_alter_eq, Hk. simpl. intros [= <-]. auto.
    - rewrite list_lookup_alter_ne by assumption. intros Hj Haj.
      exfalso. apply Hne. symmetry. eapply H5; eassumption. }
  assert (S1 : Sends cfg w1).
  { constructor; try assumption.
    - intros j kj i Hj Haw. exfalso.
      assert (Haj : ms_attached kj = true).
      { unfold awaiting_open in Haw. destruct (ms_attached kj); [reflexivity|discriminate]. }
      destruct (Hlook j kj Hj Haj) as [_ E]. congruence.
    - intros j j' kj kj' Hj Hj' Haj Haj'.
      destruct (Hlook j kj Hj Haj) as [-> _]. destruct (Hlook j' kj' Hj' Haj') as [-> _].
      reflexivity. }
  split; [exact S1|]. intros Hl.
  unfold onSourceOpen, ws_send. change (ws (state w1)) with (ws (state w)).
  change (sockets w1) with (sockets w).
  destruct (ws (state w)) as [i|] eqn:Hw; [|exact S1].
  destruct (sockets w !! i) as [ki|] eqn:Hi; [|exact S1].
  destruct (readyState ki) eqn:Hr; try exact S1.
  assert (E0 : sent_on i (trace w) = []).
  { apply (H4 m k i Hk); [|reflexivity]. unfold awaiting_open. now rewrite Ha, Ho, Hl. }
  constructor; cbn [trace sockets sources state ws log];
    try change (trace w1) with (trace w); try change (sockets w1) with (sockets w);
    try change (ws (state w1)) with (ws (state w)).
  - intros j. rewrite sent_on_snoc_Sent. destruct (Nat.eqb_spec i j) as [<-|Hne].
    + right. rewrite E0. reflexivity.
    + rewrite app_nil_r. apply H1.
  - intros j kj Hj Hrj. rewrite sent_on_snoc_Sent.
    destruct (Nat.eqb_spec i j) as [<-|Hne]; [congruence|].
    rewrite app_nil_r. eauto.
  - intros j Hj. rewrite sent_on_snoc_Sent.
    destruct (Nat.eqb_spec i j) as [<-|Hne].
    + apply lookup_lt_Some in Hi. lia.
    + rewrite app_nil_r. now apply H3.
  - intros j kj i' Hj Haw. exfalso.
    assert (Haj : ms_attached kj = true).
    { unfold awaiting_open in Haw. destruct (ms_attached kj); [reflexivity|discriminate]. }
    destruct (Hlook j kj Hj Haj) as [_ E]. congruence.
  - apply (sends_attached cfg w1 S1).
Qed.

Lemma Sends_step cfg w e : Inv w -> Sends cfg w -> Sends cfg (step cfg w e).
Proof.
  intros HI H. destruct e as [i|i m addOk|i d o v|i|i|m|s o v|id|dt]; simpl.
  - destruct (sockets w !! i) as [k|] eqn:Hk; [|exact H].
    destruct (readyState k) eqn:Hr; try exact H.
    set (w1 := set_sockets _ w).
    assert (H1 : Sends cfg w1).
    { revert H. apply Sends_settles, settles_set_readyState. discriminate. }
    destruct (onopen k) eqn:Hon; [|exact H1].
    unfold ws_onopen. apply Sends_setupMSE.
    + intros j. unfold updateError, updateStatus. subst w1.
      cbn [state ws log set_sockets trace]. intros Hj.
      assert (Hl : live k = true) by (unfold live; now rewrite Hon, Hr).
      rewrite (inv_sockets w HI i k Hk Hl) in Hj. injection Hj as <-.
      rewrite !sent_on_quiet by repeat constructor.
      apply (sends_connecting cfg w H i k Hk Hr).
    + revert H1. apply Sends_settles.
      eapply settles_trans; apply settles_log; exact I.
  - destruct (sockets w !! i) as [k|]; [|exact H].
    destruct (readyState k); try exact H.
    destruct (onmessage k); [|exact H].
    revert H. apply Sends_settles, settles_ws_onmessage_text.
  - destruct (sockets w !! i) as [k|]; [|exact H].
    destruct (readyState k); try exact H.
    destruct (onmessage k); [|exact H].
    revert H. apply Sends_same_ctl; [apply same_ctl_appendData|].
    intros j. apply sent_on_appendData.
  - destruct (sockets w !! i) as [k|]; [|exact H].
    destruct (readyState k); try exact H;
      (destruct (onerror k); [|exact H]; revert H; apply Sends_settles, settles_ws_onerror).
  - destruct (sockets w !! i) as [k|]; [|exact H].
    destruct (readyState k); try exact H;
      (revert H; apply Sends_settles; destruct (onclose k);
       [eapply settles_trans; [|apply settles_ws_onclose]|];
       apply settles_set_readyState; discriminate).
  - destruct (sources w !! m) as [k|] eqn:Hk; [|exact H].
    destruct (ms_attached k) eqn:Ha; [|exact H].
    destruct (ms_open k) eqn:Ho; [exact H|]. cbn [negb andb].
    destruct (Sends_sourceOpen cfg w m k H Hk Ha Ho) as [S1 S2].
    destruct (ms_sourceopen k); [now apply S2 | exact S1].
  - destruct (sinks w !! s) as [k|]; [|exact H].
    destruct (updating k); [|exact H].
    set (w1 := set_sinks _ w).
    assert (H1 : Sends cfg w1).
    { revert H. apply Sends_same_ctl; [constructor; reflexivity | reflexivity]. }
    destruct (sb_listener k); [|exact H1].
    revert H1. apply Sends_same_ctl; [apply same_ctl_sbUpdateHandler_run|].
    intros j. apply sent_on_sbUpdateHandler_run.
  - destruct (find _ (timers w)) as [t|] eqn:Hfind; [|exact H].
    apply find_tid_Some in Hfind as [Ht <-].
    pose proof (inv_owned w HI t Ht) as Ho.
    set (w0 := log (Fired t) (if repeating t then w else clearTimer (tid t) w)).
    assert (H0 : Sends cfg w0).
    { revert H. apply Sends_settles.
      eapply settles_trans; [|apply settles_log; exact I].
      destruct (repeating t); [apply settles_refl|].
      apply settles_frame; [apply quiet_frame|..]; reflexivity. }
    destruct (cb t) eqn:Hc; simpl.
    + unfold reconnectFire.
      set (w1 := upd_state _ w0).
      assert (H1 : Sends cfg w1).
      { revert H0. apply Sends_settles.
        apply settles_frame; [apply quiet_frame|..]; reflexivity. }
      destruct (isMounted (state w1)); [|exact H1].
      apply Sends_connect; [|exact H1].
      subst w1 w0. cbn. destruct (repeating t); apply (inv_pending w HI t Ht Hc).
    + revert H0. apply Sends_settles, settles_stalledTick.
  - revert H. apply Sends_settles. apply settles_frame; [apply quiet_frame|..]; reflexivity.
Qed.

Lemma Sends_start cfg w : ws (state w) = None -> Sends cfg w -> Sends cfg (start cfg w).
Proof.
  intros Hw H. unfold start.
  destruct (String.eqb (src cfg) "" || negb (videoRef w)); [exact H|].
  apply Sends_connect; [exact Hw|].
  revert H. apply Sends_settles. apply settles_frame; [apply quiet_frame|..]; reflexivity.
Qed.

Lemma Sends_act cfg w a : Inv w -> Sends cfg w -> Sends cfg (act cfg w a).
Proof.
  intros HI H. destruct a as [e| |]; simpl.
  - now apply Sends_step.
  - revert H. apply Sends_settles.
    eapply settles_trans; [|apply settles_stop].
    constructor; try reflexivity; eauto. apply quiet_frame; reflexivity.
  - apply Sends_start; [apply stop_ws|]. revert H. apply Sends_settles, settles_stop.
Qed.

Lemma Sends_rendered cfg t0 : Sends cfg (rendered t0).
Proof.
  constructor; cbn; auto; intros; discriminate.
Qed.

Lemma Sends_reachable cfg w : reachable cfg w -> Sends cfg w.
Proof.
  intros (t0 & acts & ->).
  assert (H : Inv (fold_left (act cfg) acts (mount cfg t0)) /\
              Sends cfg (fold_left (act cfg) acts (mount cfg t0))); [|apply H].
  induction acts as [|a acts [IH1 IH2]] using rev_ind.
  - split; [apply Inv_mount|]. apply Sends_start; [reflexivity | apply Sends_rendered].
  - rewrite fold_left_app. simpl. split; [now apply Inv_act | now apply Sends_act].
Qed.

(** ** The negotiation message: content and occasions *)

Lemma accepted_two_passes candidates media probe :
  filter (fun codec => probe (mimeOf codec) = true)
    (filter (fun codec => JsString.includes media (kindOf codec) = true) candidates) =
  spec_accepted candidates media probe.
Proof.
  unfold spec_accepted. induction candidates as [|c l IH]; [reflexivity|].
  rewrite (filter_cons (fun c => (JsString.includes media (kindOf c) && probe (mimeOf c)) = true)).
  rewrite (filter_cons (fun codec => JsString.includes media (kindOf codec) = true)).
  destruct (decide (JsString.includes media (kindOf c) = true)) as [E1|E1].
  - rewrite filter_cons.
    destruct (decide (probe (mimeOf c) = true)) as [E2|E2].
    + rewrite decide_True by (now rewrite E1, E2). now rewrite IH.
    + rewrite decide_False by (rewrite E1; exact E2). exact IH.
  - rewrite decide_False; [exact IH|].
    intros H. apply E1. now apply andb_true_iff in H.
Qed.

Lemma accepted_sublist candidates media probe :
  spec_accepted candidates media probe `sublist_of` candidates.
Proof.
  unfold spec_accepted. induction candidates as [|c l IH]; [constructor|].
  rewrite filter_cons. destruct (decide _); now constructor.
Qed.

(** C8, as the code has it.  The message is [{type: "mse", value: <list>}],
    where the list is the comma-joined candidates that pass both the media
    kind test and the support probe, in candidate order.  Every socket of a
    reachable world has been sent this message once or not at all, and
    nothing else.  The open event of a socket sends nothing; the message goes
    out when the MediaSource created at open fires "sourceopen" while that
    socket is current and open. *)
Theorem negotiation_message cfg w :
  reachable cfg w ->
  negotiate_message cfg =
    JSON_stringify
      [("type", "mse");
       ("value", JsString.join (spec_accepted codecsRef (media cfg) (isTypeSupported cfg)))] /\
  spec_accepted codecsRef (media cfg) (isTypeSupported cfg) `sublist_of` codecsRef /\
  (forall i, sent_on i (trace w) = [] \/ sent_on i (trace w) = [negotiate_message cfg]) /\
  (forall i j, sent_on j (trace (step cfg w (WsOpen i))) = sent_on j (trace w)) /\
  (forall m k i ki,
     sources w !! m = Some k -> awaiting_open k = true ->
     ws (state w) = Some i -> sockets w !! i = Some ki -> readyState ki = OPEN ->
     sent_on i (trace (step cfg w (SourceOpen m))) = [negotiate_message cfg]).
Proof.
  intros Hr. pose proof (Sends_reachable cfg w Hr) as HS.
  split; [|split; [|split; [|split]]].
  - unfold negotiate_message, mseMessage, getSupportedCodecs, getSupportedCodecsFrom.
    now rewrite accepted_two_passes.
  - apply accepted_sublist.
  - apply (sends_once cfg w HS).
  - intros i j. cbn [step].
    destruct (sockets w !! i) as [k|]; [|reflexivity].
    destruct (readyState k); try reflexivity.
    destruct (onopen k); [|reflexivity].
    destruct (quiet_ws_onopen cfg (set_sockets (alter (set_readyState OPEN) i (sockets w)) w))
      as [(rest & -> & Hq) _].
    now apply sent_on_quiet.
  - intros m k i ki Hk Ha Hw Hi Ho. cbn [step]. rewrite Hk.
    pose proof Ha as Ha0. unfold awaiting_open in Ha.
    destruct (ms_attached k); [|discriminate]. destruct (ms_open k); [discriminate|].
    destruct (ms_sourceopen k); [|discriminate]. cbn [negb andb].
    unfold onSourceOpen, ws_send. cbn [state set_sources sockets]. rewrite Hw, Hi, Ho.
    cbn [trace log set_sources]. rewrite sent_on_snoc_Sent, Nat.eqb_refl.
    rewrite (sends_awaiting cfg w HS m k i Hk Ha0 Hw). reflexivity.
Qed.

(** ** The claims on concrete worlds *)

(** C8 as stated fails on the form of the message: the page of the example
    opens its socket, which sends nothing; the "sourceopen" that follows sends
    [{type: "mse", value: ...}], not [{type: "negotiate", codecs: ...}]. *)
Lemma negotiation_sends_mse_not_negotiate :
  let opened := step camera_page (mount camera_page 0) (WsOpen 0) in
  let negotiated := step camera_page opened (SourceOpen 0) in
  let codecs := "avc1.640029,avc1.64002A,avc1.640033,hvc1.1.6.L153.B0,mp4a.40.2,mp4a.40.5,flac,opus" in
  sent_on 0 (trace opened) = [] /\
  sent_on 0 (trace negotiated) = [JSON_stringify [("type", "mse"); ("value", codecs)]] /\
  sent_on 0 (trace negotiated) <> [spec_negotiate_message codecs].
Proof. vm_compute. repeat split; try reflexivity. discriminate. Qed.

Lemma negotiation_message_witness :
  sent_on 0 (trace (streaming_since 1000)) = [] \/
  sent_on 0 (trace (streaming_since 1000)) = [negotiate_message camera_page].
Proof.
  exact (proj1 (proj2 (proj2 (negotiation_message camera_page (streaming_since 1000)
                                (reachable_streaming_since 1000)))) 0%nat).
Defined.

(** C7 as stated fails on "retries exactly once": after the first refusal
    the same queued bytes are tried again at each of the two later updateend
    events, and refused each time. *)
Lemma flush_is_retried_without_limit :
  let queued := [x02; x03; x04] in
  attempts (trace refused_three_times) =
    [(0%nat, [x01]); (0%nat, queued); (0%nat, queued); (0%nat, queued)] /\
  retries (trace refused_three_times) = [(0%nat, queued); (0%nat, queued)] /\
  length (retries (trace refused_three_times)) <> 1%nat.
Proof. vm_compute. repeat split; try reflexivity. discriminate. Qed.

Lemma flush_contract_witness :
  attempts (trace (sbUpdateHandler_run 0 AppendOk nothing_buffered ready_to_flush)) =
  attempts (trace ready_to_flush) ++ [(0%nat, [x02; x03; x04])].
Proof.
  refine (proj1 (flush_contract camera_page 0 AppendOk nothing_buffered ready_to_flush _ _)).
  - split; [reflexivity|]. eexists. vm_compute. repeat split; reflexivity.
  - vm_compute. reflexivity.
Defined.

Lemma flush_failure_keeps_queue_witness :
  buffer (state (sbUpdateHandler_run 0 (AppendThrows QuotaExceededError) long_buffered
                   ready_to_flush)) =
  buffer (state ready_to_flush).
Proof.
  refine (proj1 (proj2 (flush_failure_keeps_queue 0 (AppendThrows QuotaExceededError)
                          long_buffered ready_to_flush)) QuotaExceededError _).
  vm_compute. reflexivity.
Defined.

Lemma teardown_silence_witness :
  trace (run camera_page (stop (set_videoRef false (streaming_since 1000)))
           [TimerFire 1; WsBinary 0 [x01] AppendOk nothing_buffered; WsClose 0;
            ClockAdvance 5000; TimerFire 1; TimerFire 2]) =
  trace (streaming_since 1000).
Proof.
  exact (proj1 (proj2 (teardown_silence camera_page (streaming_since 1000) true
                         [TimerFire 1; WsBinary 0 [x01] AppendOk nothing_buffered; WsClose 0;
                          ClockAdvance 5000; TimerFire 1; TimerFire 2]
                         (reachable_streaming_since 1000)))).
Defined.

Lemma reachable_refused_three_times : reachable camera_page refused_three_times.
Proof. apply reachable_run, reachable_streaming_since. Qed.

Lemma segment_buffer_bound_witness :
  0 <= buf_length (buffer (state refused_three_times)) <= capacity /\
  byteLength (buf_data (buffer (state refused_three_times))) = capacity.
Proof.
  exact (proj1 (segment_buffer_bound camera_page refused_three_times
                  reachable_refused_three_times)).
Defined.


Lemma order_preservation_witness :
  exists taken queued : list (list byte),
    (taken ++ queued) `sublist_of` arrivals (trace refused_three_times) /\
    concat taken = concat (deliveries (trace refused_three_times)) /\
    concat queued =
      subarray0 (buf_data (buffer (state refused_three_times)))
        (buf_length (buffer (state refused_three_times))).
Proof.
  exact (order_preservation camera_page refused_three_times reachable_refused_three_times).
Defined.


(** * Further properties of the session runtime *)

(** ** Address normalisation settles in one pass *)

Lemma wsURL_ws (origin rest : string) : wsURL origin ("ws" +:+ rest) = "ws" +:+ rest.
Proof. rewrite !app_cons, app_nil_l. reflexivity. Qed.

(** X1 ([connect], the address rewrite). An address that [connect] has
    rewritten is left alone when it is rewritten again: the rewrite is
    idempotent, whatever the page origin and whatever the [src] prop. *)
Theorem wsURL_idempotent (origin src : string) :
  wsURL origin (wsURL origin src) = wsURL origin src.
Proof.
  unfold wsURL at 2 3.
  destruct (JsString.startsWith src "http") eqn:Hh; [apply wsURL_ws|].
  destruct (JsString.startsWith src "/") eqn:Hs; [apply wsURL_ws|].
  unfold wsURL. now rewrite Hh, Hs.
Qed.

(** ** The media kinds select the candidates *)

Lemma kindOf_cases codec : kindOf codec = "video" \/ kindOf codec = "audio".
Proof. unfold kindOf. destruct (JsString.includes codec "vc1"); auto. Qed.

Lemma filter_none {A} (P : A -> Prop) `{forall x, Decision (P x)} (l : list A) :
  (forall x, x ∈ l -> ~ P x) -> filter P l = [].
Proof.
  induction l as [|x l IH]; intros Hn; [reflexivity|].
  rewrite filter_cons, decide_False by (apply Hn; left).
  apply IH. intros y Hy. apply Hn. now right.
Qed.

Lemma filter_agree {A} (P Q : A -> Prop) `{forall x, Decision (P x)} `{forall x, Decision (Q x)}
    (l : list A) :
  (forall x, x ∈ l -> P x <-> Q x) -> filter P l = filter Q l.
Proof.
  induction l as [|x l IH]; intros Hpq; [reflexivity|].
  rewrite !filter_cons.
  rewrite IH by (intros y Hy; apply Hpq; now right).
  assert (E : P x <-> Q x) by (apply Hpq; left).
  destruct (decide (P x)) as [p|p], (decide (Q x)) as [q|q]; try reflexivity; tauto.
Qed.

(** X2 ([getSupportedCodecs]). The [media] prop is matched as a substring
    against the kind of each candidate.  When it names neither kind (for
    instance because of its case) the offer is the empty string, whatever the
    browser supports; when it names one kind only, the offer is made of the
    supported candidates of that kind alone, and the probe's answers for the
    other kind do not matter. *)
Theorem media_kinds_select_candidates (candidates : list string) (media : string)
    (probe : string -> bool) :
  (JsString.includes media "video" = false -> JsString.includes media "audio" = false ->
   getSupportedCodecsFrom candidates media probe = "") /\
  (forall kind other,
     (kind = "video" /\ other = "audio") \/ (kind = "audio" /\ other = "video") ->
     JsString.includes media kind = true -> JsString.includes media other = false ->
     getSupportedCodecsFrom candidates media probe =
     JsString.join
       (filter (fun codec => probe (mimeOf codec) = true)
          (filter (fun codec => kindOf codec = kind) candidates))).
Proof.
  split.
  - intros Hv Ha. unfold getSupportedCodecsFrom.
    rewrite (filter_none (fun codec => JsString.includes media (kindOf codec) = true)).
    + reflexivity.
    + intros codec _. destruct (kindOf_cases codec) as [-> | ->]; congruence.
  - intros kind other Hk Hin Hout. unfold getSupportedCodecsFrom. do 2 f_equal.
    apply filter_agree. intros codec _.
    destruct (kindOf_cases codec) as [E | E]; rewrite E;
      destruct Hk as [[-> ->] | [-> ->]]; split; intros; congruence.
Qed.

Lemma media_kinds_select_candidates_witness :
  getSupportedCodecsFrom codecsRef "Video" (fun _ => true) = "" /\
  getSupportedCodecsFrom codecsRef "video" (fun _ => true) =
    "avc1.640029,avc1.64002A,avc1.640033,hvc1.1.6.L153.B0".
Proof.
  split.
  - apply (media_kinds_select_candidates codecsRef "Video" (fun _ => true)); reflexivity.
  - rewrite (proj2 (media_kinds_select_candidates codecsRef "video" (fun _ => true))
               "video" "audio"); [reflexivity | left; split; reflexivity | reflexivity ..].
Defined.

(** ** Running the cleanup again changes nothing *)

Lemma detach_video_fixed w :
  Forall (fun k => ms_attached k = false) (sources w) -> detach_video w = w.
Proof.
  intros H. unfold detach_video.
  assert (E : (fun k => if ms_attached k then unattached k else k) <$> sources w = sources w).
  { induction H as [|k l Hk _ IH]; [reflexivity|]. rewrite fmap_cons, IH, Hk. reflexivity. }
  rewrite E. destruct w. reflexivity.
Qed.

Lemma cleanup_fixed c :
  reconnectTimer (state c) = None -> stalledCheckTimer (state c) = None ->
  sb (state c) = None -> ws (state c) = None -> ms (state c) = None ->
  buf_length (buffer (state c)) = 0 -> lastDataTime (state c) = 0 ->
  (videoRef c = true -> Forall (fun k => ms_attached k = false) (sources c)) ->
  cleanup c = c.
Proof.
  intros E1 E2 E3 E4 E5 E6 E7 Hs. unfold cleanup.
  assert (B1 : cleanup_reconnectTimer c = c) by (unfold cleanup_reconnectTimer; now rewrite E1).
  rewrite B1.
  assert (B2 : cleanup_stalledCheckTimer c = c) by (unfold cleanup_stalledCheckTimer; now rewrite E2).
  rewrite B2.
  assert (B3 : cleanup_listener c = c) by (unfold cleanup_listener; now rewrite E3).
  rewrite B3.
  assert (B4 : cleanup_ws c = c) by (unfold cleanup_ws; now rewrite E4).
  rewrite B4.
  assert (B5 : cleanup_ms c = c) by (unfold cleanup_ms; now rewrite E5).
  rewrite B5.
  assert (B6 : cleanup_video c = c).
  { unfold cleanup_video. destruct (videoRef c); [|reflexivity].
    now apply detach_video_fixed, Hs. }
  rewrite B6. clear B1 B2 B3 B4 B5 B6 Hs.
  destruct_world c. simpl in *. subst. reflexivity.
Qed.

Lemma cleanup_detaches w :
  videoRef (cleanup w) = true -> Forall (fun k => ms_attached k = false) (sources (cleanup w)).
Proof.
  destruct (cleanup_spec w) as (_&_&_&_&Ev&_&_&_&_&_&_&_&_&_&_&Es).
  rewrite Ev, Es. intros ->. apply Forall_fmap, Forall_forall. intros k _. simpl.
  destruct (ms_attached k) eqn:E; [reflexivity | exact E].
Qed.

Lemma set_isMounted_fixed b c :
  isMounted (state c) = b -> upd_state (set_isMounted b) c = c.
Proof. destruct_world c. simpl. intros ->. reflexivity. Qed.

(** X3 ([cleanup] and the function the effect returns). Running [cleanup] a
    second time right after the first changes nothing at all, in any world:
    every guarded block finds its field already null, the video element
    already detached, and the queue already empty.  The same holds for the
    effect cleanup, which first clears [isMounted]. *)
Theorem cleanup_idempotent (w : World) :
  cleanup (cleanup w) = cleanup w /\ stop (stop w) = stop w.
Proof.
  assert (Hc : forall w, cleanup (cleanup w) = cleanup w).
  { intros w0. pose proof (cleanup_detaches w0) as Hd.
    destruct (cleanup_spec w0) as (_&_&_&_&_&E4&E5&E3&E1&E2&_&_&E7&E6&_).
    revert Hd E1 E2 E3 E4 E5 E6 E7. generalize (cleanup w0). intros c Hd E1 E2 E3 E4 E5 E6 E7.
    apply cleanup_fixed; try assumption. now rewrite E6. }
  split; [apply Hc|]. unfold stop.
  set (w1 := upd_state (set_isMounted false) w).
  assert (Em : isMounted (state (cleanup w1)) = false) by (rewrite (proj1 (cleanup_flags w1)); reflexivity).
  revert Em. pose proof (Hc w1) as Hc1. revert Hc1. generalize (cleanup w1). intros c Hc1 Em.
  now rewrite (set_isMounted_fixed false c Em).
Qed.

(** ** One timer at a time *)

(** X4 ([reconnect], [startStalledCheck], [cleanup]). In every reachable
    world at most one timer of the component is live: the reconnect timeout
    and the stall-check interval are never pending together, and neither is
    pending twice.  A live timer means the component is mounted; the timeout
    is pending only while [isReconnecting] is set, the interval only while it
    is clear. *)
Theorem one_live_timer cfg w :
  reachable cfg w ->
  (length (timers w) <= 1)%nat /\
  (forall t, t ∈ timers w ->
     isMounted (state w) = true /\
     match cb t with
     | ReconnectFire => reconnectTimer (state w) = Some (tid t) /\ repeating t = false /\
                        isReconnecting (state w) = true
     | StalledTick => stalledCheckTimer (state w) = Some (tid t) /\ repeating t = true /\
                      isReconnecting (state w) = false
     end).
Proof.
  intros Hr. destruct (Active_reachable cfg w Hr) as [HI HA].
  assert (Hall : forall t, t ∈ timers w ->
     isMounted (state w) = true /\
     match cb t with
     | ReconnectFire => reconnectTimer (state w) = Some (tid t) /\ repeating t = false /\
                        isReconnecting (state w) = true
     | StalledTick => stalledCheckTimer (state w) = Some (tid t) /\ repeating t = true /\
                      isReconnecting (state w) = false
     end).
  { intros t Ht. pose proof (inv_owned w HI t Ht) as Ho.
    destruct (cb t) eqn:Hc.
    - destruct (act_reconnect w HA t Ht Hc). tauto.
    - destruct (act_watchdog w HA t Ht Hc). tauto. }
  split; [|exact Hall].
  rewrite <- (length_fmap tid).
  destruct (timers w) as [|t0 l] eqn:El; [simpl; lia|]. rewrite <- El in *.
  apply (NoDup_constant_short _ (tid t0)); [apply (inv_fresh w HI)|].
  intros x Hx. apply list_elem_of_fmap in Hx as (t & -> & Ht).
  assert (Ht0 : t0 ∈ timers w) by (rewrite El; left).
  destruct (Hall t Ht) as [_ A], (Hall t0 Ht0) as [_ B].
  destruct (cb t), (cb t0); destruct A as (A1 & _ & A2), B as (B1 & _ & B2); congruence.
Qed.

Lemma one_live_timer_witness : (length (timers (streaming_since 1000)) <= 1)%nat.
Proof. apply (one_live_timer camera_page), reachable_streaming_since. Defined.

(** ** What a trim removes *)

(** X5 ([trimBuffer]). A call of [trimBuffer] either does nothing or issues
    exactly one [sb.remove(start, end)] on the current SourceBuffer, which was
    idle.  The range starts where the buffered media starts and
    ends five seconds behind the playback position, and it is longer than
    five seconds: the call never asks for an empty or reversed range, and
    never touches the last five seconds before the playback position.  With
    the video element gone the position reads as 0, and then nothing that is
    buffered from a non-negative time is ever removed. *)
Theorem trimBuffer_window (v : SinkView) (w : World) :
  (trimBuffer v w = w \/
   exists s start,
     let position := if videoRef w then currentTime v else 0%Q in
     sb (state w) = Some s /\ sb_updating s w = false /\ buffered v = Some start /\
     (start + 5 < position - 5)%Q /\
     trimBuffer v w =
       log (Removed s start (position - 5))
         (set_sinks (alter (set_updating true) s (sinks w)) w)) /\
  (videoRef w = false -> (forall start, buffered v = Some start -> (0 <= start)%Q) ->
   trimBuffer v w = w).
Proof.
  assert (Hgt : forall a b : Q, Qgtb a b = true -> (b < a)%Q).
  { intros a b H. unfold Qgtb in H. apply negb_true_iff in H.
    apply Qnot_le_lt. intros Hle. apply Qle_bool_iff in Hle. congruence. }
  split.
  - unfold trimBuffer.
    destruct (sb (state w)) as [s|] eqn:Hs; [|now left].
    destruct (sinks w !! s) as [k|] eqn:Hk; [|now left].
    destruct (updating k) eqn:Hu; [now left|].
    destruct (sb_removed k); [now left|].
    destruct (buffered v) as [start|]; [|now left].
    destruct (Qgtb _ 10) eqn:Hq; [|now left].
    destruct (removeThrows v); [now left|].
    right. exists s, start. cbn zeta. repeat split; try reflexivity.
    + unfold sb_updating. now rewrite Hk.
    + apply Hgt in Hq. lra.
  - intros Hv Hpos. unfold trimBuffer. rewrite Hv.
    destruct (sb (state w)) as [s|]; [|reflexivity].
    destruct (sinks w !! s) as [k|]; [|reflexivity].
    destruct (updating k); [reflexivity|].
    destruct (sb_removed k); [reflexivity|].
    destruct (buffered v) as [start|]; [|reflexivity].
    destruct (Qgtb _ 10) eqn:Hq; [|reflexivity].
    exfalso. apply Hgt in Hq. specialize (Hpos start eq_refl). lra.
Qed.

Lemma trimBuffer_window_witness :
  trimBuffer {| buffered := Some 3%Q; currentTime := 60; removeThrows := false |}
    (set_videoRef false ready_to_flush) =
  set_videoRef false ready_to_flush.
Proof.
  apply (trimBuffer_window _ (set_videoRef false ready_to_flush)); [reflexivity|].
  intros start [= <-]. unfold Qle. simpl. lia.
Defined.

(** ** What an enqueue stores *)

(** X6 ([appendData], the queuing branch). While the SourceBuffer is busy or
    something is already waiting, a segment that fits is copied behind the
    waiting bytes: the logical length grows by exactly the size of the
    segment, the queued bytes are the old queued bytes followed by the
    segment, nothing is handed to the sink, and [lastDataTime] is the time of
    the arrival.  A segment that ends exactly at the capacity still fits. *)
Theorem enqueue_stores_segment cfg w s d o v :
  reachable cfg w ->
  sb (state w) = Some s ->
  (sb_updating s w || (0 <? buf_length (buffer (state w)))) = true ->
  buf_length (buffer (state w)) + Z.of_nat (length d) <= capacity ->
  let b := buffer (state w) in
  let w' := appendData d o v w in
  buf_length (buffer (state w')) = buf_length b + Z.of_nat (length d) /\
  subarray0 (buf_data (buffer (state w'))) (buf_length (buffer (state w'))) =
    subarray0 (buf_data b) (buf_length b) ++ d /\
  trace w' = trace w ++ [Arrived d] /\
  lastDataTime (state w') = Date_now w.
Proof.
  intros Hr Hs Hq Hfit b w'.
  destruct (inv_buffer w (Inv_reachable cfg w Hr)) as [[Hlo Hhi] Hcap].
  destruct (Uint8Array_set_fits (buf_data b) d (buf_length b)) as (a & Ea & Eb & Esub);
    [exact Hlo | subst b; rewrite Hcap; exact Hfit |].
  assert (E : w' = upd_state
                     (set_buffer {| buf_data := a;
                                    buf_length := buf_length b + Z.of_nat (length d) |})
                     (upd_state (set_lastDataTime (Date_now w)) (log (Arrived d) w))).
  { subst w' b. unfold appendData. cbn [state upd_state log sb set_lastDataTime buffer Date_now].
    rewrite Hs.
    change (sb_updating s (upd_state (set_lastDataTime (Date_now w)) (log (Arrived d) w)))
      with (sb_updating s w).
    rewrite Hq, Hcap. destruct (Z.leb_spec (buf_length (buffer (state w)) + Z.of_nat (length d))
                                  capacity) as [_|Hlt]; [|lia].
    rewrite Ea. reflexivity. }
  rewrite E. cbn. repeat split; try reflexivity. exact Esub.
Qed.

Lemma enqueue_stores_segment_witness :
  let w := run camera_page (streaming_since 1000)
             [WsBinary 0 [x01] AppendOk nothing_buffered] in
  buf_length (buffer (state (appendData [x02; x03] AppendOk nothing_buffered w))) =
  buf_length (buffer (state w)) + 2.
Proof.
  intros w.
  apply (enqueue_stores_segment camera_page w 0%nat [x02; x03] AppendOk nothing_buffered).
  - apply reachable_run, reachable_streaming_since.
  - reflexivity.
  - reflexivity.
  - vm_compute. discriminate.
Defined.

(** ** The ends of a session *)

(** X7 ([ws.onmessage], the "error" branch). When the current, open socket
    delivers an error message, the component reports the server's text
    unchanged, then the status "error", then "reconnecting"; the session is
    taken down, and the only timer then pending is the reconnect timeout of
    2000 ms. *)
Theorem server_error_restarts_session cfg w i k value addOk :
  reachable cfg w ->
  sockets w !! i = Some k -> readyState k = OPEN -> onmessage k = true ->
  let w' := step cfg w (WsText i (MsgError value) addOk) in
  trace w' = trace w ++ [Error (Some value); Status "error"; Status "reconnecting"] /\
  timers w' = [{| tid := nextTimer w; cb := ReconnectFire; delay := 2000;
                  repeating := false |}] /\
  ws (state w') = None.
Proof.
  intros Hr Hk Hready Hm w'. destruct (Active_reachable cfg w Hr) as [HI HA].
  assert (Hl : live k = true) by (unfold live; rewrite Hm, Hready, !orb_true_r; reflexivity).
  destruct (act_socket w HA i k Hk Hl) as [Hmo Hre].
  subst w'. cbn [step]. rewrite Hk, Hready, Hm. cbn [ws_onmessage_text].
  set (w2 := updateStatus "error" (updateError (Some value) w)).
  destruct (reconnect_schedules w2) as (Et & Etr & Ew & _);
    [apply (inv_owned _ (Inv_log _ _ (Inv_log _ _ HI))) | exact Hmo | exact Hre |].
  rewrite Et, Etr, Ew. subst w2. cbn. rewrite <- !app_assoc. auto.
Qed.

Lemma server_error_restarts_session_witness :
  trace (step camera_page (streaming_since 1000)
           (WsText 0 (MsgError "stream not found") true)) =
  trace (streaming_since 1000) ++
    [Error (Some "stream not found"); Status "error"; Status "reconnecting"].
Proof.
  apply (server_error_restarts_session camera_page (streaming_since 1000) 0%nat
           {| url := "ws://localhost:1984/api/ws?src=camera1"; readyState := OPEN;
              onopen := true; onmessage := true; onclose := true; onerror := true |});
    [apply reachable_streaming_since | reflexivity ..].
Defined.

Lemma step_WsClose_eq cfg w i k :
  sockets w !! i = Some k -> readyState k <> CLOSED -> onclose k = true ->
  step cfg w (WsClose i) =
  ws_onclose i (set_sockets (alter (set_readyState CLOSED) i (sockets w)) w).
Proof.
  intros Hk Hready Hc. cbn [step]. rewrite Hk, Hc.
  destruct (readyState k); try reflexivity. congruence.
Qed.

Lemma ws_onclose_current i w :
  ws (state w) = Some i ->
  ws_onclose i w = reconnect (updateStatus "closed" (upd_state (set_ws None) w)).
Proof. intros Hw. unfold ws_onclose. now rewrite Hw, Nat.eqb_refl. Qed.

Lemma reconnect_sockets w :
  sockets (reconnect w) = sockets w \/
  (isMounted (state w) = true /\ isReconnecting (state w) = false /\
   sockets (reconnect w) =
     match ws (state w) with
     | Some i => alter closing i (alter detach i (sockets w))
     | None => sockets w
     end).
Proof.
  destruct (reconnect_guard w) as [-> | [Hm Hr]]; [now left|]. right.
  split; [exact Hm|]. split; [exact Hr|]. rewrite (reconnect_eq w Hm Hr).
  destruct (cleanup_spec (upd_state (set_isReconnecting true) w))
    as (_&_&_&_&_&_&_&_&_&_&_&_&_&_&Es&_).
  revert Es. generalize (cleanup (upd_state (set_isReconnecting true) w)). intros c Es.
  cbn [scheduled sockets upd_state set_nextTimer set_timers log]. exact Es.
Qed.

(** X8 ([ws.onclose]). When the host closes a socket whose close handler is
    still attached, that socket is the current one; the component forgets it,
    reports "closed" and then "reconnecting", and the only timer then pending
    is the reconnect timeout of 2000 ms.  The socket ends up closed. *)
Theorem server_close_restarts_session cfg w i k :
  reachable cfg w ->
  sockets w !! i = Some k -> readyState k <> CLOSED -> onclose k = true ->
  let w' := step cfg w (WsClose i) in
  ws (state w) = Some i /\
  trace w' = trace w ++ [Status "closed"; Status "reconnecting"] /\
  timers w' = [{| tid := nextTimer w; cb := ReconnectFire; delay := 2000;
                  repeating := false |}] /\
  ws (state w') = None /\
  readyState <$> sockets w' !! i = Some CLOSED.
Proof.
  intros Hr Hk Hready Hc. destruct (Active_reachable cfg w Hr) as [HI HA].
  assert (Hl : live k = true).
  { unfold live. rewrite Hc, !orb_true_r. destruct (readyState k); try reflexivity; congruence. }
  destruct (act_socket w HA i k Hk Hl) as [Hmo Hre].
  pose proof (inv_sockets w HI i k Hk Hl) as Hw.
  cbv zeta. rewrite (step_WsClose_eq cfg w i k Hk Hready Hc).
  rewrite ws_onclose_current by exact Hw.
  split; [exact Hw|].
  assert (Ho : timers_owned w) by exact (inv_owned w HI).
  assert (Hk1 : alter (set_readyState CLOSED) i (sockets w) !! i = Some (set_readyState CLOSED k))
    by (rewrite list_lookup_alter_eq, Hk; reflexivity).
  revert Ho Hmo Hre Hk1.
  generalize (alter (set_readyState CLOSED) i (sockets w)). intros l Ho Hmo Hre Hk1.
  set (w2 := updateStatus "closed" (upd_state (set_ws None) (set_sockets l w))).
  destruct (reconnect_schedules w2 Ho Hmo Hre) as (Et & Etr & Ew & _).
  rewrite Et, Etr, Ew.
  split; [subst w2; cbn [trace updateStatus log upd_state set_sockets]; now rewrite <- app_assoc|].
  split; [reflexivity|]. split; [reflexivity|].
  destruct (reconnect_sockets w2) as [-> | (_ & _ & ->)]; subst w2; cbn; now rewrite Hk1.
Qed.

Lemma server_close_restarts_session_witness :
  trace (step camera_page (streaming_since 1000) (WsClose 0)) =
  trace (streaming_since 1000) ++ [Status "closed"; Status "reconnecting"].
Proof.
  apply (server_close_restarts_session camera_page (streaming_since 1000) 0%nat
           {| url := "ws://localhost:1984/api/ws?src=camera1"; readyState := OPEN;
              onopen := true; onmessage := true; onclose := true; onerror := true |});
    [apply reachable_streaming_since | reflexivity | discriminate | reflexivity].
Defined.

(** X9 ([ws.onerror]). A socket error on its own only reports: the error
    text "Connection failed" and the status "error", in that order, or nothing
    when the handler is gone or the socket closed.  The state, the sockets and
    the timers are untouched; no reconnect is scheduled by the error itself. *)
Theorem socket_error_only_reports cfg w i :
  let w' := step cfg w (WsError i) in
  (trace w' = trace w \/
   trace w' = trace w ++ [Error (Some "Connection failed"); Status "error"]) /\
  state w' = state w /\ sockets w' = sockets w /\ timers w' = timers w /\
  sinks w' = sinks w /\ sources w' = sources w.
Proof.
  cbn [step]. destruct (sockets w !! i) as [k|]; [|auto 10].
  unfold ws_onerror.
  destruct (readyState k); (destruct (onerror k); [|auto 10]) || auto 10;
    (split; [right; cbn; now rewrite <- app_assoc | auto 10]).
Qed.

(** ** Starting again *)

Lemma start_eq cfg w :
  src cfg <> "" -> videoRef w = true ->
  start cfg w = connect cfg (upd_state (set_isReconnecting false) (upd_state (set_isMounted true) w)).
Proof.
  intros Hs Hv. unfold start. rewrite Hv.
  destruct (String.eqb_spec (src cfg) ""); [contradiction | reflexivity].
Qed.

Lemma length_cleanup_sockets w : length (sockets (cleanup w)) = length (sockets w).
Proof.
  destruct (cleanup_spec w) as (_&_&_&_&_&_&_&_&_&_&_&_&_&_&Es&_). rewrite Es.
  destruct (ws (state w)); [|reflexivity]. now rewrite !length_alter.
Qed.

(** X10 (the effect, run again after its cleanup). When React runs the
    cleanup and then the effect again, on a page whose address is accepted and
    with the video element in place, the component is mounted, not
    reconnecting, has no timer pending and an empty queue, and has opened
    exactly one new socket, which is the current one; the only thing it
    reports is the status "connecting". *)
Theorem rerun_opens_one_session cfg w :
  reachable cfg w ->
  src cfg <> "" -> videoRef w = true ->
  validURL cfg (wsURL (origin cfg) (src cfg)) = true ->
  let w' := act cfg w Rerun in
  trace w' = trace w ++ [Status "connecting"] /\
  timers w' = [] /\
  length (sockets w') = S (length (sockets w)) /\
  ws (state w') = Some (length (sockets w)) /\
  sockets w' !! length (sockets w) =
    Some {| url := wsURL (origin cfg) (src cfg); readyState := CONNECTING;
            onopen := true; onmessage := true; onclose := true; onerror := true |} /\
  isMounted (state w') = true /\ isReconnecting (state w') = false /\
  sb (state w') = None /\ buf_length (buffer (state w')) = 0.
Proof.
  intros Hr Hs Hv Hu. cbv zeta. cbn [act].
  pose proof (Inv_reachable cfg w Hr) as HI.
  pose proof (stop_timers w HI) as Et. unfold stop in *.
  set (w1 := upd_state (set_isMounted false) w) in *.
  destruct (cleanup_spec w1) as (_&_&Etr&_&Ev&_&_&Esb&_&_&_&_&_&Eb&_).
  pose proof (length_cleanup_sockets w1) as El.
  change (sockets w1) with (sockets w) in El. change (trace w1) with (trace w) in Etr.
  revert Et Etr Ev Esb Eb El. generalize (cleanup w1). intros c Et Etr Ev Esb Eb El.
  rewrite start_eq by (try assumption; now rewrite Ev).
  unfold connect. cbn [updateStatus log upd_state sockets state origin src].
  rewrite Hu. cbn. rewrite Et, Etr, Esb, Eb, length_app, El. cbn.
  repeat split; try reflexivity; try lia.
  rewrite lookup_app_r by lia. rewrite El, Nat.sub_diag. reflexivity.
Qed.

Lemma rerun_opens_one_session_witness :
  trace (act camera_page (streaming_since 1000) Rerun) =
  trace (streaming_since 1000) ++ [Status "connecting"].
Proof.
  apply (rerun_opens_one_session camera_page (streaming_since 1000));
    [apply reachable_streaming_since | discriminate | reflexivity | reflexivity].
Defined.


(** ** The shape of a session is kept *)

Lemma Session_frame w w' :
  timers w' = timers w -> sockets w' = sockets w ->
  ws (state w') = ws (state w) -> ms (state w') = ms (state w) ->
  sb (state w') = sb (state w) ->
  stalledCheckTimer (state w') = stalledCheckTimer (state w) ->
  isMounted (state w') = isMounted (state w) ->
  isReconnecting (state w') = isReconnecting (state w) ->
  Session w -> Session w'.
Proof.
  intros E1 E2 E3 E4 E5 E6 E7 E8 [H1 H2 H3 H4 H5 H6 H7 H8].
  constructor; rewrite ?E1, ?E2, ?E3, ?E4, ?E5, ?E6, ?E7, ?E8; assumption.
Qed.

Lemma Session_same_ctl w w' : same_ctl w w' -> Session w -> Session w'.
Proof. intros []. now apply Session_frame. Qed.

Lemma Session_log o w : Session w -> Session (log o w).
Proof. apply Session_frame; reflexivity. Qed.

(** Nothing of a session is left. *)
Lemma Session_idle c :
  (forall i k, sockets c !! i = Some k -> readyState k = CLOSING \/ readyState k = CLOSED) ->
  timers c = [] -> ws (state c) = None -> ms (state c) = None -> sb (state c) = None ->
  stalledCheckTimer (state c) = None ->
  (isMounted (state c) = true -> isReconnecting (state c) = true -> False) ->
  Session c.
Proof.
  intros Hc Ht Hw Hm Hs Hst Hf. constructor.
  - intros i k Hk _. eauto.
  - intros i. rewrite Hw. discriminate.
  - intros A B. destruct (Hf A B).
  - rewrite Hm. congruence.
  - rewrite Hs. congruence.
  - rewrite Hs, Hst. tauto.
  - intros id. rewrite Hst. discriminate.
  - intros t. rewrite Ht. intros H. now apply not_elem_of_nil in H.
Qed.

Lemma Session_scheduled c :
  (forall i k, sockets c !! i = Some k -> readyState k = CLOSING \/ readyState k = CLOSED) ->
  timers c = [] -> ws (state c) = None -> ms (state c) = None -> sb (state c) = None ->
  stalledCheckTimer (state c) = None ->
  Session (scheduled c).
Proof.
  intros Hc Ht Hw Hm Hs Hst. constructor; cbn.
  - intros i k Hk _. eauto.
  - intros i. rewrite Hw. discriminate.
  - intros _ _. eexists. split; [apply elem_of_app; right; left|]. reflexivity.
  - rewrite Hm. congruence.
  - rewrite Hs. congruence.
  - rewrite Hs, Hst. tauto.
  - intros id. rewrite Hst. discriminate.
  - intros t. rewrite Ht. cbn. intros H%list_elem_of_singleton. now subst t.
Qed.

Lemma cleanup_closes w :
  (forall i k, sockets w !! i = Some k -> ws (state w) <> Some i ->
     readyState k = CLOSING \/ readyState k = CLOSED) ->
  forall i k, sockets (cleanup w) !! i = Some k ->
    readyState k = CLOSING \/ readyState k = CLOSED.
Proof.
  intros Hc i k.
  destruct (cleanup_spec w) as (_&_&_&_&_&_&_&_&_&_&_&_&_&_&Es&_). rewrite Es.
  destruct (ws (state w)) as [j|] eqn:Hw.
  - destruct (decide (j = i)) as [->|Hne].
    + rewrite !list_lookup_alter_eq. destruct (sockets w !! i) as [k0|]; [|discriminate].
      simpl. intros [= <-]. unfold closing. simpl.
      destruct (readyState k0) eqn:E; simpl; rewrite ?E; auto.
    + rewrite !list_lookup_alter_ne by assumption. intros Hk.
      apply (Hc i k Hk). congruence.
  - intros Hk. apply (Hc i k Hk). discriminate.
Qed.

Lemma Session_reconnect_go w :
  timers_owned w -> isMounted (state w) = true -> isReconnecting (state w) = false ->
  (forall i k, sockets w !! i = Some k -> ws (state w) <> Some i ->
     readyState k = CLOSING \/ readyState k = CLOSED) ->
  Session (reconnect w).
Proof.
  intros Ho Hm Hr Hc. rewrite (reconnect_eq w Hm Hr).
  set (w1 := upd_state (set_isReconnecting true) w).
  pose proof (cleanup_timers_nil w1 Ho) as Ht.
  pose proof (cleanup_closes w1 Hc) as Hcl.
  destruct (cleanup_spec w1) as (_&_&_&_&_&Ew&Ems&Esb&_&Est&_).
  revert Ht Hcl Ew Ems Esb Est. generalize (cleanup w1). intros c Ht Hcl Ew Ems Esb Est.
  now apply Session_scheduled.
Qed.

Lemma Session_reconnect w : Inv w -> Session w -> Session (reconnect w).
Proof.
  intros HI HS. destruct (reconnect_guard w) as [-> | [Hm Hr]]; [exact HS|].
  apply Session_reconnect_go; [apply HI | exact Hm | exact Hr | apply HS].
Qed.

Lemma Session_connect cfg w : Session w -> ws (state w) = None -> Session (connect cfg w).
Proof.
  intros HS Hw. destruct (connect_eq cfg w) as [-> | ->]; [now apply Session_log|].
  destruct HS as [H1 H2 H3 H4 H5 H6 H7 H8]. constructor; cbn; try assumption.
  - intros i k Hk Hne. apply lookup_app_Some in Hk as [Hk | [Hlen Hk]].
    + apply (H1 i k Hk). rewrite Hw. discriminate.
    + apply list_lookup_singleton_Some in Hk as [Hi _]. exfalso. apply Hne. f_equal. lia.
  - intros i [= <-]. eexists. split; [apply list_lookup_middle; reflexivity|].
    cbn. repeat split; auto. intros Hm. destruct (H4 Hm Hw).
  - discriminate.
Qed.

Lemma Session_setupSourceBuffer codec addOk w :
  Session w -> ws (state w) <> None -> isReconnecting (state w) = false ->
  Session (setupSourceBuffer codec addOk w).
Proof.
  intros HS Hw Hr. unfold setupSourceBuffer.
  destruct (ms (state w)) as [m|] eqn:Hm; [|exact HS].
  destruct (ms_is_open m w && addOk); [|exact HS].
  rewrite startStalledCheck_eq.
  destruct HS as [H1 H2 H3 H4 H5 H6 H7 H8]. constructor; cbn.
  - exact H1.
  - rewrite Hm. rewrite Hm in H2. exact H2.
  - rewrite Hr. discriminate.
  - intros _. exact Hw.
  - rewrite Hm. discriminate.
  - split; discriminate.
  - intros id [= <-]. eexists. split; [apply elem_of_app; right; left|]. split; reflexivity.
  - intros t. rewrite elem_of_app, elem_of_cleared, list_elem_of_singleton.
    intros [[Ht _] | ->]; [now apply H8 | reflexivity].
Qed.

Lemma setupMSE_fields cfg w :
  timers (setupMSE cfg w) = timers w /\ sockets (setupMSE cfg w) = sockets w /\
  ws (state (setupMSE cfg w)) = ws (state w) /\
  sb (state (setupMSE cfg w)) = sb (state w) /\
  stalledCheckTimer (state (setupMSE cfg w)) = stalledCheckTimer (state w) /\
  isMounted (state (setupMSE cfg w)) = isMounted (state w) /\
  isReconnecting (state (setupMSE cfg w)) = isReconnecting (state w) /\
  (ms (state (setupMSE cfg w)) = ms (state w) \/ ms (state (setupMSE cfg w)) <> None).
Proof.
  unfold setupMSE, attach_video, detach_video.
  repeat case_match; cbn; repeat split; auto; right; discriminate.
Qed.

Lemma Session_setupMSE cfg w :
  Session w -> ws (state w) <> None ->
  (forall i k, ws (state w) = Some i -> sockets w !! i = Some k -> readyState k = OPEN) ->
  Session (setupMSE cfg w).
Proof.
  intros [H1 H2 H3 H4 H5 H6 H7 H8] Hw Hopen.
  destruct (setupMSE_fields cfg w) as (E1 & E2 & E3 & E4 & E5 & E6 & E7 & E8).
  revert E1 E2 E3 E4 E5 E6 E7 E8. generalize (setupMSE cfg w).
  intros w' E1 E2 E3 E4 E5 E6 E7 E8.
  constructor; rewrite ?E1, ?E2, ?E3, ?E4, ?E5, ?E6, ?E7; try assumption.
  - intros i Hi. destruct (H2 i Hi) as (k & Hk & A & B & C & D & E & F).
    exists k. repeat split; try assumption. intros _. exact (Hopen i k Hi Hk).
  - intros _. exact Hw.
  - intros Hs. destruct E8 as [-> | E8]; [now apply H5 | exact E8].
Qed.

Lemma Session_alter_current f i w k :
  Session w -> sockets w !! i = Some k -> ws (state w) = Some i ->
  onopen (f k) = true -> onmessage (f k) = true -> onclose (f k) = true ->
  onerror (f k) = true -> readyState (f k) = OPEN ->
  Session (set_sockets (alter f i (sockets w)) w).
Proof.
  intros [H1 H2 H3 H4 H5 H6 H7 H8] Hk Hw A B C D E.
  constructor; cbn; try assumption.
  - intros j kj Hj Hne. rewrite list_lookup_alter_ne in Hj by congruence. now apply (H1 j kj).
  - intros j Hj. assert (j = i) by congruence. subst j.
    exists (f k). rewrite list_lookup_alter_eq, Hk. repeat split; auto.
Qed.

Lemma Session_close_other i w :
  Session w -> ws (state w) <> Some i ->
  Session (set_sockets (alter (set_readyState CLOSED) i (sockets w)) w).
Proof.
  intros [H1 H2 H3 H4 H5 H6 H7 H8] Hw. constructor; cbn; try assumption.
  - intros j kj. destruct (decide (i = j)) as [->|Hne].
    + rewrite list_lookup_alter_eq. destruct (sockets w !! j); [|discriminate].
      simpl. intros [= <-] _. now right.
    + rewrite list_lookup_alter_ne by assumption. apply H1.
  - intros j Hj. rewrite list_lookup_alter_ne by congruence. now apply H2.
Qed.

Lemma Session_ws_onclose_current i w :
  Inv w -> Session w -> ws (state w) = Some i ->
  isMounted (state w) = true -> isReconnecting (state w) = false ->
  Session (ws_onclose i (set_sockets (alter (set_readyState CLOSED) i (sockets w)) w)).
Proof.
  intros HI HS Hw Hm Hr. rewrite ws_onclose_current by exact Hw.
  apply Session_reconnect_go; [exact (inv_owned w HI) | exact Hm | exact Hr |].
  intros j kj. cbn. intros Hj _. destruct (decide (i = j)) as [->|Hne].
  - rewrite list_lookup_alter_eq in Hj. destruct (sockets w !! j); [|discriminate].
    simpl in Hj. injection Hj as <-. now right.
  - rewrite list_lookup_alter_ne in Hj by assumption.
    apply (ses_closed w HS j kj Hj). congruence.
Qed.

Lemma Session_reconnectFire cfg w t :
  Inv w -> Session w -> t ∈ timers w -> cb t = ReconnectFire ->
  Session (reconnectFire cfg (log (Fired t) (clearTimer (tid t) w))).
Proof.
  intros HI HS Ht Hc. unfold reconnectFire.
  pose proof (inv_pending w HI t Ht Hc) as Hw.
  assert (Hm : ms (state w) = None).
  { destruct (ms (state w)) eqn:E; [|reflexivity].
    exfalso. apply (ses_ms w HS); [rewrite E; discriminate | exact Hw]. }
  assert (Hs : sb (state w) = None).
  { destruct (sb (state w)) eqn:E; [|reflexivity].
    exfalso. apply (ses_sb w HS); [rewrite E; discriminate | exact Hm]. }
  pose proof (proj1 (ses_armed w HS) Hs) as Hst.
  set (w1 := upd_state (set_isReconnecting false) (log (Fired t) (clearTimer (tid t) w))).
  assert (H1 : Session w1).
  { destruct HS as [H1 H2 H3 H4 H5 H6 H7 H8]. constructor; cbn; try assumption.
    - discriminate.
    - intros id. rewrite Hst. discriminate.
    - intros t'. rewrite list_elem_of_filter. intros [_ Ht']. now apply H8. }
  destruct (isMounted (state w1)); [|exact H1].
  apply Session_connect; [exact H1 | exact Hw].
Qed.

Lemma Session_stalledTick w : Inv w -> Session w -> Session (stalledTick w).
Proof.
  intros HI HS. unfold stalledTick.
  destruct (lastDataTime (state w) =? 0); [exact HS|].
  destruct (2000 <? _); [|exact HS].
  apply Session_reconnect; [now apply Inv_log | now apply Session_log].
Qed.

Lemma Session_step cfg w e : Inv w -> Active w -> Session w -> Session (step cfg w e).
Proof.
  intros HI HA HS. destruct e as [i|i m addOk|i d o v|i|i|m|s o v|id|dt]; cbn [step].
  - destruct (sockets w !! i) as [k|] eqn:Hk; [|exact HS].
    destruct (readyState k) eqn:Hr; try exact HS.
    assert (Hw : ws (state w) = Some i).
    { destruct (decide (ws (state w) = Some i)) as [E|E]; [exact E|].
      destruct (ses_closed w HS i k Hk E); congruence. }
    destruct (ses_current w HS i Hw) as (k0 & Hk0 & A & B & C & D & _).
    assert (k0 = k) by congruence. subst k0.
    assert (H1 : Session (set_sockets (alter (set_readyState OPEN) i (sockets w)) w))
      by now apply (Session_alter_current _ i w k).
    destruct (onopen k); [|exact H1].
    unfold ws_onopen. apply Session_setupMSE.
    + now apply Session_log, Session_log.
    + cbn. rewrite Hw. discriminate.
    + intros j kj. cbn. rewrite Hw. intros [= <-].
      rewrite list_lookup_alter_eq, Hk. simpl. now intros [= <-].
  - destruct (sockets w !! i) as [k|] eqn:Hk; [|exact HS].
    destruct (readyState k) eqn:Hr; try exact HS.
    destruct (onmessage k) eqn:Hm; [|exact HS].
    assert (Hl : live k = true).
    { unfold live. rewrite Hm, Hr, !orb_true_r. reflexivity. }
    destruct (act_socket w HA i k Hk Hl) as [Hmo Hre].
    pose proof (inv_sockets w HI i k Hk Hl) as Hw.
    destruct m as [value|value|]; cbn [ws_onmessage_text].
    + apply Session_setupSourceBuffer; [exact HS | rewrite Hw; discriminate | exact Hre].
    + apply Session_reconnect; [now apply Inv_log, Inv_log | now apply Session_log, Session_log].
    + exact HS.
  - destruct (sockets w !! i) as [k|]; [|exact HS].
    destruct (readyState k); try exact HS.
    destruct (onmessage k); [|exact HS].
    revert HS. apply Session_same_ctl, same_ctl_appendData.
  - destruct (sockets w !! i) as [k|]; [|exact HS].
    unfold ws_onerror.
    destruct (readyState k); try exact HS;
      (destruct (onerror k); [now apply Session_log, Session_log | exact HS]).
  - destruct (sockets w !! i) as [k|] eqn:Hk; [|exact HS].
    assert (Hgo : readyState k <> CLOSED ->
                  Session (if onclose k
                           then ws_onclose i
                                  (set_sockets (alter (set_readyState CLOSED) i (sockets w)) w)
                           else set_sockets (alter (set_readyState CLOSED) i (sockets w)) w)).
    { intros Hr. destruct (onclose k) eqn:Hc.
      - assert (Hl : live k = true).
        { unfold live. rewrite Hc, !orb_true_r.
          destruct (readyState k); try reflexivity; congruence. }
        destruct (act_socket w HA i k Hk Hl) as [Hmo Hre].
        apply Session_ws_onclose_current; try assumption.
        apply (inv_sockets w HI i k Hk Hl).
      - apply Session_close_other; [exact HS|]. intros Hw.
        destruct (ses_current w HS i Hw) as (k0 & Hk0 & _ & _ & C & _). congruence. }
    destruct (readyState k); try exact HS; apply Hgo; discriminate.
  - destruct (sources w !! m) as [k|]; [|exact HS].
    destruct (ms_attached k && negb (ms_open k)); [|exact HS].
    set (w1 := set_sources _ w).
    assert (H1 : Session w1) by (revert HS; apply Session_frame; reflexivity).
    destruct (ms_sourceopen k); [|exact H1].
    revert H1. apply Session_same_ctl, same_ctl_onSourceOpen.
  - destruct (sinks w !! s) as [k|]; [|exact HS].
    destruct (updating k); [|exact HS].
    set (w1 := set_sinks _ w).
    assert (H1 : Session w1) by (revert HS; apply Session_frame; reflexivity).
    destruct (sb_listener k); [|exact H1].
    revert H1. apply Session_same_ctl, same_ctl_sbUpdateHandler_run.
  - destruct (find _ (timers w)) as [t|] eqn:Hfind; [|exact HS].
    apply find_tid_Some in Hfind as [Ht <-].
    pose proof (inv_owned w HI t Ht) as Ho.
    destruct (cb t) eqn:Hc; destruct Ho as [_ ->]; cbn [runCallback].
    + now apply Session_reconnectFire.
    + apply Session_stalledTick; [now apply Inv_log | now apply Session_log].
  - revert HS. apply Session_frame; reflexivity.
Qed.

Lemma Session_stop w : Inv w -> Session w -> Session (stop w).
Proof.
  intros HI HS. unfold stop.
  set (w1 := upd_state (set_isMounted false) w).
  pose proof (cleanup_timers_nil w1 (inv_owned w HI)) as Ht.
  pose proof (cleanup_closes w1 (ses_closed w HS)) as Hcl.
  destruct (cleanup_spec w1) as (_&_&_&_&_&Ew&Ems&Esb&_&Est&Emo&_).
  revert Ht Hcl Ew Ems Esb Est Emo. generalize (cleanup w1).
  intros c Ht Hcl Ew Ems Esb Est Emo.
  apply Session_idle; try assumption. rewrite Emo. discriminate.
Qed.

Lemma Session_start cfg w : Session w -> ws (state w) = None -> Session (start cfg w).
Proof.
  intros HS Hw. unfold start.
  destruct (String.eqb (src cfg) "" || negb (videoRef w)); [exact HS|].
  apply Session_connect; [|exact Hw].
  destruct HS as [H1 H2 H3 H4 H5 H6 H7 H8]. constructor; cbn; try assumption. discriminate.
Qed.

Lemma Session_rendered t0 : Session (rendered t0).
Proof. apply Session_idle; try reflexivity; [intros i k H|]; discriminate. Qed.

Lemma Session_act cfg w a : Inv w -> Active w -> Session w -> Session (act cfg w a).
Proof.
  intros HI HA HS. destruct a as [e| |]; cbn [act].
  - now apply Session_step.
  - apply Session_stop.
    + revert HI. apply Inv_frame; reflexivity.
    + revert HS. apply Session_frame; reflexivity.
  - apply Session_start; [now apply Session_stop | apply stop_ws].
Qed.

Lemma Session_reachable cfg w : reachable cfg w -> Session w.
Proof.
  intros (t0 & acts & ->).
  induction acts as [|a acts IH] using rev_ind.
  - apply Session_start; [apply Session_rendered | reflexivity].
  - rewrite fold_left_app.
    assert (Hr : reachable cfg (fold_left (act cfg) acts (mount cfg t0))) by (eexists _, _; reflexivity).
    destruct (Active_reachable cfg _ Hr) as [HI HA].
    cbn [fold_left]. now apply Session_act.
Qed.

(** ** One session at a time *)

(** X11 ([connect], [cleanup], [ws.onclose]). In every reachable world a
    socket that is still connecting or open is the current socket
    [state.ws], with its four handlers attached; so at most one socket of
    the component is connecting or open, and every other socket it ever
    created has been closed or told to close. *)
Theorem one_open_socket cfg w i k :
  reachable cfg w -> sockets w !! i = Some k ->
  readyState k = CONNECTING \/ readyState k = OPEN ->
  ws (state w) = Some i /\
  onopen k = true /\ onmessage k = true /\ onclose k = true /\ onerror k = true /\
  (forall j kj, sockets w !! j = Some kj ->
     readyState kj = CONNECTING \/ readyState kj = OPEN -> j = i).
Proof.
  intros Hr Hk Hready. pose proof (Session_reachable cfg w Hr) as HS.
  assert (Hcur : forall j kj, sockets w !! j = Some kj ->
            readyState kj = CONNECTING \/ readyState kj = OPEN -> ws (state w) = Some j).
  { intros j kj Hj Hrj. destruct (decide (ws (state w) = Some j)) as [E|E]; [exact E|].
    destruct (ses_closed w HS j kj Hj E), Hrj; congruence. }
  pose proof (Hcur i k Hk Hready) as Hw.
  destruct (ses_current w HS i Hw) as (k0 & Hk0 & A & B & C & D & _).
  assert (k0 = k) by congruence. subst k0.
  repeat split; try assumption.
  intros j kj Hj Hrj. pose proof (Hcur j kj Hj Hrj). congruence.
Qed.

Lemma one_open_socket_witness : ws (state (streaming_since 1000)) = Some 0%nat.
Proof.
  apply (one_open_socket camera_page (streaming_since 1000) 0%nat
           {| url := "ws://localhost:1984/api/ws?src=camera1"; readyState := OPEN;
              onopen := true; onmessage := true; onclose := true; onerror := true |});
    [apply reachable_streaming_since | reflexivity | right; reflexivity].
Defined.

(** ** The reconnect flag is never stuck *)

Lemma NoDup_tid_single (l : list Timer) t :
  NoDup (tid <$> l) -> t ∈ l -> (forall t', t' ∈ l -> tid t' = tid t) -> l = [t].
Proof.
  intros Hn Ht Hall. destruct l as [|t1 l]; [now apply not_elem_of_nil in Ht|].
  destruct l as [|t2 l].
  - apply list_elem_of_singleton in Ht. now subst.
  - exfalso. rewrite !fmap_cons in Hn. apply NoDup_cons in Hn as [Hn _]. apply Hn.
    rewrite (Hall t1) by left. rewrite <- (Hall t2) by (right; left). left.
Qed.

(** X12 ([reconnect] and its timeout callback). While the component is
    mounted, [isReconnecting] is set only while the reconnect timeout is
    pending: there is then exactly one timer, it is that timeout, it waits
    2000 ms, and there is no current socket.  When it fires, the flag is
    cleared and [connect] runs, so the guard of [reconnect] cannot shut out
    reconnects for good. *)
Theorem reconnecting_is_backed_by_timeout cfg w :
  reachable cfg w -> isMounted (state w) = true -> isReconnecting (state w) = true ->
  exists t,
    timers w = [t] /\ cb t = ReconnectFire /\ delay t = 2000 /\ repeating t = false /\
    ws (state w) = None /\
    let w' := step cfg w (TimerFire (tid t)) in
    trace w' = trace w ++ [Fired t; Status "connecting"] /\
    isReconnecting (state w') = false /\ timers w' = [].
Proof.
  intros Hr Hm Hre. destruct (Active_reachable cfg w Hr) as [HI HA].
  pose proof (Session_reachable cfg w Hr) as HS.
  destruct (ses_flag w HS Hm Hre) as (t & Ht & Hc).
  assert (Hall : forall t', t' ∈ timers w -> tid t' = tid t).
  { intros t' Ht'. pose proof (inv_owned w HI t' Ht') as A.
    pose proof (inv_owned w HI t Ht) as B. rewrite Hc in B.
    destruct (cb t') eqn:Hc'.
    - destruct A as [A _], B as [B _]. congruence.
    - destruct (act_watchdog w HA t' Ht' Hc'). congruence. }
  pose proof (NoDup_tid_single (timers w) t (proj1 (inv_fresh w HI)) Ht Hall) as Et.
  pose proof (inv_owned w HI t Ht) as Ho. rewrite Hc in Ho. destruct Ho as [_ Hrep].
  exists t. split; [exact Et|]. split; [exact Hc|]. split; [apply (ses_delay w HS t Ht)|].
  split; [exact Hrep|]. split; [apply (inv_pending w HI t Ht Hc)|].
  cbv zeta. unfold step. rewrite Et. cbn [find]. rewrite Nat.eqb_refl, Hrep, Hc.
  cbn [runCallback]. unfold reconnectFire, clearTimer. rewrite Et.
  cbn [state upd_state isMounted log set_timers set_isReconnecting]. rewrite Hm.
  rewrite filter_cons, decide_False, filter_nil by (cbn; auto).
  unfold connect, updateStatus.
  destruct (validURL cfg _); cbn; rewrite <- !app_assoc; auto.
Qed.

Lemma reconnecting_is_backed_by_timeout_witness :
  exists t, timers (step camera_page (streaming_since 1000) (WsClose 0)) = [t] /\
            cb t = ReconnectFire.
Proof.
  destruct (reconnecting_is_backed_by_timeout camera_page
              (step camera_page (streaming_since 1000) (WsClose 0)))
    as (t & Et & Hc & _);
    [apply reachable_step, reachable_streaming_since | reflexivity | reflexivity |].
  exists t. split; assumption.
Defined.

(** ** What is nested in what *)

(** X13 ([setupSourceBuffer], [startStalledCheck], [setupMSE], [cleanup]).
    In every reachable world the stall-check interval is pending exactly
    while there is a current SourceBuffer; a SourceBuffer exists only while
    there is a MediaSource; and a MediaSource exists only while there is a
    current socket, which has then left the connecting state.  Every pending
    timer, the interval as well as the reconnect timeout, waits 2000 ms. *)
Theorem stall_check_guards_sink cfg w :
  reachable cfg w ->
  (sb (state w) <> None <-> exists t, t ∈ timers w /\ cb t = StalledTick) /\
  (sb (state w) <> None -> ms (state w) <> None) /\
  (ms (state w) <> None ->
   exists i k, ws (state w) = Some i /\ sockets w !! i = Some k /\
               readyState k <> CONNECTING) /\
  (forall t, t ∈ timers w -> delay t = 2000).
Proof.
  intros Hr. pose proof (Inv_reachable cfg w Hr) as HI.
  pose proof (Session_reachable cfg w Hr) as HS.
  split; [split|split; [|split; [|apply (ses_delay w HS)]]].
  - intros Hs. destruct (stalledCheckTimer (state w)) as [id|] eqn:E.
    + destruct (ses_watchdog w HS id E) as (t & Ht & _ & Hc). eauto.
    + destruct Hs. now apply (ses_armed w HS).
  - intros (t & Ht & Hc) Hs. pose proof (inv_owned w HI t Ht) as Ho. rewrite Hc in Ho.
    destruct Ho as [Ho _]. apply (ses_armed w HS) in Hs. congruence.
  - apply (ses_sb w HS).
  - intros Hm. destruct (ws (state w)) as [i|] eqn:Hw.
    + destruct (ses_current w HS i Hw) as (k & Hk & _ & _ & _ & _ & _ & Hopen).
      exists i, k. rewrite (Hopen Hm). repeat split; auto; discriminate.
    + destruct (ses_ms w HS Hm Hw).
Qed.

Lemma stall_check_guards_sink_witness :
  sb (state (streaming_since 1000)) <> None <->
  exists t, t ∈ timers (streaming_since 1000) /\ cb t = StalledTick.
Proof. apply (stall_check_guards_sink camera_page), reachable_streaming_since. Defined.

(** ** An empty address *)

Lemma cleared_nil o : cleared o [] = [].
Proof. destruct o; reflexivity. Qed.

Lemma cleanup_sinks_idle w :
  sb (state w) = None -> ms (state w) = None -> sinks (cleanup w) = sinks w.
Proof.
  intros Hs Hm. unfold cleanup.
  rewrite cleanup_reconnectTimer_eq, cleanup_stalledCheckTimer_eq.
  unfold cleanup_listener. cbn [state upd_state set_timers sb set_stalledCheckTimer
                                set_reconnectTimer]. rewrite Hs.
  rewrite cleanup_ws_eq. unfold cleanup_ms.
  cbn [state upd_state set_timers set_sockets ms set_stalledCheckTimer set_reconnectTimer
       set_ws]. rewrite Hm.
  rewrite cleanup_video_eq. reflexivity.
Qed.

Lemma idle_stop w :
  sockets w = [] -> sources w = [] -> sinks w = [] -> timers w = [] -> trace w = [] ->
  sb (state w) = None -> ms (state w) = None ->
  sockets (stop w) = [] /\ sources (stop w) = [] /\ sinks (stop w) = [] /\
  timers (stop w) = [] /\ trace (stop w) = [] /\
  sb (state (stop w)) = None /\ ms (state (stop w)) = None.
Proof.
  intros E1 E2 E3 E4 E5 Hs Hm. unfold stop.
  set (w1 := upd_state (set_isMounted false) w).
  pose proof (cleanup_sinks_idle w1 Hs Hm) as Ek.
  destruct (cleanup_spec w1) as (Et&_&Etr&_&_&_&Ems&Esb&_&_&_&_&_&_&Es&Eso).
  change (sinks w1) with (sinks w) in Ek. change (timers w1) with (timers w) in Et.
  change (trace w1) with (trace w) in Etr. change (sockets w1) with (sockets w) in Es.
  change (sources w1) with (sources w) in Eso.
  rewrite Et, Etr, Es, Eso, Ek, E1, E2, E3, E4, E5, !cleared_nil.
  repeat split; try assumption; repeat case_match; reflexivity.
Qed.

Lemma idle_step cfg w e :
  sockets w = [] -> sources w = [] -> sinks w = [] -> timers w = [] ->
  step cfg w e = w \/ exists t, step cfg w e = set_Date_now t w.
Proof.
  intros E1 E2 E3 E4.
  destruct e; cbn [step]; rewrite ?E1, ?E2, ?E3, ?E4; cbn; eauto.
Qed.

(** X14 (the effect's first line). With an empty [src] the effect returns
    before doing anything: however the host and React go on, the component
    opens no socket, creates no MediaSource or SourceBuffer, arms no timer
    and reports nothing. *)
Theorem empty_src_is_inert cfg w :
  src cfg = "" -> reachable cfg w ->
  sockets w = [] /\ sources w = [] /\ sinks w = [] /\ timers w = [] /\ trace w = [].
Proof.
  intros Hsrc (t0 & acts & ->).
  assert (Hstart : forall w, start cfg w = w) by (intros w; unfold start; now rewrite Hsrc).
  enough (H : let w := fold_left (act cfg) acts (mount cfg t0) in
              sockets w = [] /\ sources w = [] /\ sinks w = [] /\ timers w = [] /\
              trace w = [] /\ sb (state w) = None /\ ms (state w) = None)
    by (cbv zeta in H; tauto).
  induction acts as [|a acts IH] using rev_ind.
  - cbn [fold_left]. unfold mount. rewrite Hstart. cbn. tauto.
  - rewrite fold_left_app. cbn [fold_left]. cbv zeta in *.
    destruct IH as (E1 & E2 & E3 & E4 & E5 & Hs & Hm).
    revert E1 E2 E3 E4 E5 Hs Hm. generalize (fold_left (act cfg) acts (mount cfg t0)).
    intros w E1 E2 E3 E4 E5 Hs Hm.
    destruct a as [e| |]; cbn [act].
    + destruct (idle_step cfg w e E1 E2 E3 E4) as [-> | [t ->]]; cbn; tauto.
    + apply idle_stop; assumption.
    + rewrite Hstart. apply idle_stop; assumption.
Qed.

Lemma empty_src_is_inert_witness :
  trace (fold_left (act no_address) [Host (WsOpen 0); Host (TimerFire 1); Rerun; Unmount]
           (mount no_address 0)) = [].
Proof.
  apply (empty_src_is_inert no_address); [reflexivity | eexists _, _; reflexivity].
Defined.

(** ** A refused flush with nothing to trim *)

Lemma appendData_behind d o v w s :
  sb (state w) = Some s -> 0 < buf_length (buffer (state w)) ->
  let w' := appendData d o v w in
  sinks w' = sinks w /\ sb (state w') = Some s /\ trace w' = trace w ++ [Arrived d] /\
  buf_length (buffer (state w)) <= buf_length (buffer (state w')) /\
  timers w' = timers w.
Proof.
  intros Hs Hlen. unfold appendData.
  cbn [state upd_state log sb set_lastDataTime buffer Date_now]. rewrite Hs.
  assert (E : (0 <? buf_length (buffer (state w))) = true) by (apply Z.ltb_lt; lia).
  rewrite E, orb_true_r.
  destruct (_ <=? _); [|cbn; repeat split; auto; lia].
  destruct (Uint8Array_set _ _ _); cbn; repeat split; auto; lia.
Qed.

Lemma deliveries_snoc_Arrived tr d : deliveries (tr ++ [Arrived d]) = deliveries tr.
Proof. unfold deliveries. rewrite omap_app. cbn. apply app_nil_r. Qed.

Lemma starved_step cfg s w e :
  data_event e = true ->
  sink_ready s w -> 0 < buf_length (buffer (state w)) ->
  let w' := step cfg w e in
  sink_ready s w' /\ 0 < buf_length (buffer (state w')) /\
  deliveries (trace w') = deliveries (trace w) /\ timers w' = timers w.
Proof.
  intros He Hready Hlen.
  destruct e as [i|i m addOk|i d o v|i|i|m|s' o v|id|dt]; try discriminate; cbn [step].
  - assert (Hsame : sink_ready s w /\ 0 < buf_length (buffer (state w)) /\
                    deliveries (trace w) = deliveries (trace w) /\ timers w = timers w)
      by auto.
    destruct (sockets w !! i) as [k|]; [|exact Hsame].
    destruct (readyState k); try exact Hsame.
    destruct (onmessage k); [|exact Hsame].
    destruct Hready as [Hs Hk].
    destruct (appendData_behind d o v w s Hs Hlen) as (E1 & E2 & E3 & E4 & E5).
    cbv zeta. unfold sink_ready. rewrite E1, E2, E3, E5, deliveries_snoc_Arrived.
    repeat split; auto. lia.
  - cbv zeta. unfold sink_ready. cbn. auto.
Qed.

(** X15 (the updateend handler and [appendData] together). Suppose the
    current SourceBuffer is idle, something is queued, the flush is refused
    with QuotaExceededError and the retention rule finds nothing to trim.
    Then the queue is kept and the sink stays idle, so the host owes the
    component no "updateend"; and however many segments arrive afterwards,
    none of them reaches the sink: each one is queued behind the refused
    bytes or dropped, the sink stays idle, and the timers are as they
    were. *)
Theorem refused_flush_starves_sink cfg s v w es :
  sink_ready s w -> 0 < buf_length (buffer (state w)) ->
  (forall start, ~ trim_due v w start) ->
  Forall (fun e => data_event e = true) es ->
  let refused := sbUpdateHandler_run s (AppendThrows QuotaExceededError) v w in
  let later := run cfg refused es in
  buffer (state refused) = buffer (state w) /\
  deliveries (trace refused) = deliveries (trace w) /\
  deliveries (trace later) = deliveries (trace w) /\
  0 < buf_length (buffer (state later)) /\
  sb_updating s later = false /\
  timers later = timers w.
Proof.
  intros Hready Hlen Hn Hes.
  assert (E : sbUpdateHandler_run s (AppendThrows QuotaExceededError) v w =
              log (Rejected s (subarray0 (buf_data (buffer (state w)))
                                 (buf_length (buffer (state w))))
                     QuotaExceededError) w).
  { rewrite (flush_when_ready s _ v w Hready Hlen).
    rewrite (trimBuffer_idle v (log _ w) s) by (try apply sink_ready_log; assumption).
    rewrite (trimBuffer_idle v (log _ w) s) by (try apply sink_ready_log; assumption).
    reflexivity. }
  cbv zeta. rewrite E. clear E.
  set (w0 := log _ w).
  assert (H0 : sink_ready s w0 /\ 0 < buf_length (buffer (state w0)) /\
               deliveries (trace w0) = deliveries (trace w) /\ timers w0 = timers w).
  { split; [now apply sink_ready_log|]. split; [exact Hlen|]. split; [|reflexivity].
    subst w0. cbn. unfold deliveries. rewrite omap_app. cbn. apply app_nil_r. }
  split; [reflexivity|]. split; [apply H0|].
  clearbody w0. revert w0 H0. induction Hes as [|e es He _ IH]; intros w0 (A & B & C & D).
  - cbn. repeat split; try assumption.
    destruct A as [_ (k & Hk & Hu & _)]. unfold sb_updating. now rewrite Hk.
  - cbn [run fold_left]. apply IH.
    destruct (starved_step cfg s w0 e He A B) as (A' & B' & C' & D').
    split; [exact A'|]. split; [exact B'|]. split; congruence.
Qed.

Lemma refused_flush_starves_sink_witness :
  deliveries (trace (run camera_page
                       (sbUpdateHandler_run 0 (AppendThrows QuotaExceededError)
                          nothing_buffered ready_to_flush)
                       [WsBinary 0 [x05] AppendOk nothing_buffered; ClockAdvance 1000;
                        WsBinary 0 [x06] AppendOk nothing_buffered])) =
  deliveries (trace ready_to_flush).
Proof.
  refine (proj1 (proj2 (proj2 (refused_flush_starves_sink camera_page 0 nothing_buffered
                                 ready_to_flush _ _ _ _ _)))).
  - split; [reflexivity|]. eexists. vm_compute. repeat split; reflexivity.
  - vm_compute. reflexivity.
  - intros start [H _]. discriminate.
  - repeat constructor.
Defined.

(** ** The second variant of the TypeScript file *)

Lemma adaptive_cleanup_ws_eq w :
  Adaptive.cleanup_ws w =
  upd_state (set_ws None)
    (set_sockets
       match ws (state w) with
       | Some i =>
           alter closing i
             (alter (fun k => {| url := url k; readyState := readyState k;
                                 onopen := onopen k; onmessage := onmessage k;
                                 onclose := false; onerror := onerror k |}) i (sockets w))
       | None => sockets w
       end w).
Proof.
  destruct_world w. unfold Adaptive.cleanup_ws. cbn. destruct f_ws; reflexivity.
Qed.

Lemma adaptive_cleanup_spec w :
  trace (Adaptive.cleanup w) = trace w /\
  ws (state (Adaptive.cleanup w)) = None /\
  isMounted (state (Adaptive.cleanup w)) = isMounted (state w) /\
  sockets (Adaptive.cleanup w) =
    match ws (state w) with
    | Some i =>
        alter closing i
          (alter (fun k => {| url := url k; readyState := readyState k;
                              onopen := onopen k; onmessage := onmessage k;
                              onclose := false; onerror := onerror k |}) i (sockets w))
    | None => sockets w
    end /\
  isReconnecting (state (Adaptive.cleanup w)) = isReconnecting (state w).
Proof.
  unfold Adaptive.cleanup. rewrite cleanup_reconnectTimer_eq.
  match goal with
  | |- context [cleanup_listener ?x] => destruct (cleanup_listener_eq x) as (? & ? & ->)
  end.
  rewrite adaptive_cleanup_ws_eq.
  match goal with
  | |- context [cleanup_ms ?x] => destruct (cleanup_ms_eq x) as (? & ->)
  end.
  rewrite cleanup_video_eq. cbn. repeat split; reflexivity.
Qed.

(** X16 ([reconnect] and [connect] of the second variant). When [reconnect]
    passes its guard, the status "reconnecting" is reported only if the
    computed delay is above 500 ms, and nothing else is reported.  The
    timeout never fires earlier than 15 s after the last [connect]; if the
    clock has not gone back since then, the delay is at most 15 s; and a
    reconnect asked for in the same instant as the [connect] waits the full
    15 s. *)
Theorem adaptive_reconnect_reports (cfg : Config) (w : Adaptive.World2) :
  isMounted (state (Adaptive.base w)) = true ->
  isReconnecting (state (Adaptive.base w)) = false ->
  let d := Adaptive.reconnect_delay w in
  trace (Adaptive.base (Adaptive.reconnect w)) =
    trace (Adaptive.base w) ++ (if 500 <? d then [Status "reconnecting"] else []) /\
  Adaptive.connectTSRef w + Adaptive.RECONNECT_TIMEOUT <= Date_now (Adaptive.base w) + d /\
  (Adaptive.connectTSRef w <= Date_now (Adaptive.base w) -> d <= Adaptive.RECONNECT_TIMEOUT) /\
  Adaptive.reconnect_delay (Adaptive.connect cfg w) = Adaptive.RECONNECT_TIMEOUT.
Proof.
  intros Hm Hr d. split; [|split; [|split]].
  - unfold Adaptive.reconnect. rewrite Hm, Hr. fold d.
    unfold setTimer, Adaptive.on_base. cbn -[Adaptive.cleanup Z.ltb].
    destruct (adaptive_cleanup_spec
                (upd_state (set_isReconnecting true) (Adaptive.base w))) as (Etr & _).
    destruct (500 <? d); cbn -[Adaptive.cleanup]; rewrite Etr, ?app_nil_r; reflexivity.
  - subst d. unfold Adaptive.reconnect_delay, Adaptive.RECONNECT_TIMEOUT. lia.
  - subst d. unfold Adaptive.reconnect_delay, Adaptive.RECONNECT_TIMEOUT. lia.
  - unfold Adaptive.connect, Adaptive.on_base, Adaptive.reconnect_delay,
      Adaptive.RECONNECT_TIMEOUT.
    destruct (validURL cfg _); cbn; lia.
Qed.

Lemma adaptive_reconnect_reports_witness :
  trace (Adaptive.base (Adaptive.reconnect three_seconds_in)) =
  trace (Adaptive.base three_seconds_in) ++ [Status "reconnecting"].
Proof.
  exact (proj1 (adaptive_reconnect_reports camera_page three_seconds_in eq_refl eq_refl)).
Defined.

(** X17 (the cleanup of the second variant). The second variant detaches
    only [onclose] before it closes the socket.  So when the effect cleanup
    runs while the current socket, with its error handler, is not yet closed,
    the component is unmounted and has forgotten the socket, and yet an
    "error" event the host raises on that socket afterwards still reports
    "Connection failed". *)
Theorem adaptive_teardown_keeps_error_handler (w : World) (i : nat) (k : WebSocket) :
  ws (state w) = Some i -> sockets w !! i = Some k ->
  onerror k = true -> readyState k <> CLOSED ->
  let stopped := Adaptive.stop w in
  isMounted (state stopped) = false /\ ws (state stopped) = None /\
  trace stopped = trace w /\
  trace (Adaptive.error_event i stopped) = trace w ++ [Error (Some "Connection failed")].
Proof.
  intros Hw Hk He Hr. cbv zeta. unfold Adaptive.stop.
  destruct (adaptive_cleanup_spec (upd_state (set_isMounted false) w)) as (Etr & Ews & Em & Es & _).
  cbn [state upd_state ws sockets trace isMounted set_isMounted] in Etr, Em, Es.
  rewrite Hw in Es.
  revert Etr Ews Em Es. generalize (Adaptive.cleanup (upd_state (set_isMounted false) w)).
  intros c Etr Ews Em Es.
  repeat split; try assumption.
  unfold Adaptive.error_event. rewrite Es, !list_lookup_alter_eq, Hk. cbn.
  unfold closing. cbn. destruct (readyState k) eqn:E; cbn; rewrite ?E, ?He; cbn;
    try (now rewrite Etr); congruence.
Qed.

Lemma adaptive_teardown_keeps_error_handler_witness :
  trace (Adaptive.error_event 0 (Adaptive.stop (mount camera_page 1000))) =
  trace (mount camera_page 1000) ++ [Error (Some "Connection failed")].
Proof.
  apply (adaptive_teardown_keeps_error_handler (mount camera_page 1000) 0%nat
           {| url := "ws://localhost:1984/api/ws?src=camera1"; readyState := CONNECTING;
              onopen := true; onmessage := true; onclose := true; onerror := true |});
    [reflexivity | reflexivity | reflexivity | discriminate].
Defined.

(** ** The Safari cut of the first version *)

Lemma lt_after_one c rest d :
  (49 < N_of_ascii c)%N -> FirstVersion.lt (String c rest) (String "1" d) = false.
Proof.
  intros H. unfold FirstVersion.lt, String.ltb. cbn [String.compare].
  unfold Ascii.compare. change (N_of_ascii "1") with 49%N.
  apply N.compare_gt_iff in H. now rewrite H.
Qed.

(** X18 (the Safari effect of the first version). Whatever version the user
    agent names, the candidate list is cut at one of three places: the four
    video codecs always stay, "opus" always goes, and what else stays is
    decided by comparing the version with "13" and "14" as text.  A version
    whose first character is above "1", such as "9", therefore counts as
    newer than 14 and keeps both AAC entries and FLAC. *)
Theorem safari_codec_cut (version : string) :
  let kept := FirstVersion.safariCodecs (Some version) codecsRef in
  (kept = take 4 codecsRef \/ kept = take 6 codecsRef \/ kept = take 7 codecsRef) /\
  (take 4 codecsRef `prefix_of` kept) /\ ("opus" ∉ kept) /\
  (forall c rest, version = String c rest -> (49 < N_of_ascii c)%N ->
     kept = take 7 codecsRef).
Proof.
  cbv zeta.
  assert (H : FirstVersion.safariCodecs (Some version) codecsRef = take 4 codecsRef \/
              FirstVersion.safariCodecs (Some version) codecsRef = take 6 codecsRef \/
              FirstVersion.safariCodecs (Some version) codecsRef = take 7 codecsRef).
  { unfold FirstVersion.safariCodecs, FirstVersion.skip.
    destruct (FirstVersion.lt version "13"); [left; reflexivity|].
    destruct (FirstVersion.lt version "14"); [right; left | right; right]; reflexivity. }
  split; [exact H|]. split; [|split].
  - destruct H as [-> | [-> | ->]]; eexists; reflexivity.
  - destruct H as [-> | [-> | ->]]; cbn; rewrite !not_elem_of_cons;
      repeat split; try discriminate; apply not_elem_of_nil.
  - intros c rest -> Hc. unfold FirstVersion.safariCodecs, FirstVersion.skip.
    rewrite !lt_after_one by exact Hc. reflexivity.
Qed.

Lemma safari_codec_cut_witness :
  FirstVersion.safariCodecs (Some "9") codecsRef =
  ["avc1.640029"; "avc1.64002A"; "avc1.640033"; "hvc1.1.6.L153.B0";
   "mp4a.40.2"; "mp4a.40.5"; "flac"].
Proof.
  apply (proj2 (proj2 (proj2 (safari_codec_cut "9"))) "9"%char ""); [reflexivity|].
  vm_compute. reflexivity.
Defined.

Lemma adaptive_reconnect_flag w :
  isMounted (state (Adaptive.base w)) = true ->
  isReconnecting (state (Adaptive.base w)) = false ->
  isReconnecting (state (Adaptive.base (Adaptive.reconnect w))) = true /\
  isMounted (state (Adaptive.base (Adaptive.reconnect w))) = true /\
  ws (state (Adaptive.base (Adaptive.reconnect w))) = None.
Proof.
  destruct w as [b ts]. cbn [Adaptive.base]. intros Hm Hr.
  destruct (adaptive_cleanup_spec (upd_state (set_isReconnecting true) b))
    as (_ & Ews & Em & _ & Er).
  unfold Adaptive.reconnect, Adaptive.on_base. cbn [Adaptive.base Adaptive.connectTSRef].
  rewrite Hm, Hr. cbn [negb orb].
  revert Ews Em Er. generalize (Adaptive.cleanup (upd_state (set_isReconnecting true) b)).
  intros c Ews Em Er.
  destruct (500 <? _); cbn; rewrite Ews, Em, Er; cbn; auto.
Qed.

(** X19 ([reconnect] of the second variant). The guard of the second variant
    works as in the JavaScript file: a second call of [reconnect], made
    before the timeout has fired, changes nothing, so the delay that was
    computed first stands and no second timeout is registered. *)
Theorem adaptive_reconnect_single_flight (w : Adaptive.World2) :
  Adaptive.reconnect (Adaptive.reconnect w) = Adaptive.reconnect w /\
  (isMounted (state (Adaptive.base w)) = true ->
   isReconnecting (state (Adaptive.base w)) = false ->
   isReconnecting (state (Adaptive.base (Adaptive.reconnect w))) = true /\
   ws (state (Adaptive.base (Adaptive.reconnect w))) = None).
Proof.
  assert (Hguard : forall w', (negb (isMounted (state (Adaptive.base w'))) ||
                               isReconnecting (state (Adaptive.base w'))) = true ->
                              Adaptive.reconnect w' = w').
  { intros w' H. unfold Adaptive.reconnect. now rewrite H. }
  split.
  - destruct (negb (isMounted (state (Adaptive.base w))) ||
              isReconnecting (state (Adaptive.base w))) eqn:E.
    + now rewrite !(Hguard w E).
    + apply orb_false_elim in E as [Hm Hr]. apply negb_false_iff in Hm.
      destruct (adaptive_reconnect_flag w Hm Hr) as (Er & _).
      apply Hguard. now rewrite Er, orb_true_r.
  - intros Hm Hr. destruct (adaptive_reconnect_flag w Hm Hr) as (Er & _ & Ew). auto.
Qed.

Lemma adaptive_reconnect_single_flight_witness :
  isReconnecting (state (Adaptive.base (Adaptive.reconnect three_seconds_in))) = true.
Proof.
  exact (proj1 (proj2 (adaptive_reconnect_single_flight three_seconds_in) eq_refl eq_refl)).
Defined.

(** ** The video element *)

(** X20 ([setupMSE], [cleanup]). In every reachable world at most one
    MediaSource is attached to the video element.  And whenever [cleanup]
    runs while the element is in place, whether from the effect cleanup or
    from [reconnect], no MediaSource is attached afterwards. *)
Theorem one_attached_media_source cfg w :
  reachable cfg w ->
  (forall m m' k k',
     sources w !! m = Some k -> sources w !! m' = Some k' ->
     ms_attached k = true -> ms_attached k' = true -> m = m') /\
  (videoRef w = true ->
   Forall (fun k => ms_attached k = false) (sources (cleanup w)) /\
   Forall (fun k => ms_attached k = false) (sources (stop w))).
Proof.
  intros Hr. split; [apply (sends_attached cfg w (Sends_reachable cfg w Hr))|].
  intros Hv. split.
  - apply cleanup_detaches.
    destruct (cleanup_spec w) as (_&_&_&_&Ev&_). now rewrite Ev.
  - unfold stop. apply cleanup_detaches.
    destruct (cleanup_spec (upd_state (set_isMounted false) w)) as (_&_&_&_&Ev&_).
    now rewrite Ev.
Qed.

Lemma one_attached_media_source_witness :
  Forall (fun k => ms_attached k = false) (sources (stop (streaming_since 1000))).
Proof.
  apply (one_attached_media_source camera_page (streaming_since 1000));
    [apply reachable_streaming_since | reflexivity].
Defined.

(** ** A browser without MediaSource *)

Lemma appendData_no_sink d o v w :
  sb (state w) = None ->
  appendData d o v w = upd_state (set_lastDataTime (Date_now w)) (log (Arrived d) w).
Proof.
  intros Hs. unfold appendData.
  cbn [state upd_state log sb set_lastDataTime]. now rewrite Hs.
Qed.

Lemma wms_quiet w w' :
  quiet w w' -> sources w' = sources w -> sinks w' = sinks w ->
  ms (state w') = ms (state w) -> sb (state w') = sb (state w) ->
  without_media_source w -> without_media_source w'.
Proof.
  intros [(rest & Etr & Hq) _] E1 E2 E3 E4 (H1 & H2 & H3 & H4 & H5 & H6).
  unfold without_media_source. rewrite E1, E2, E3, E4, Etr.
  rewrite deliveries_quiet by exact Hq.
  repeat split; try assumption. intros i. rewrite sent_on_quiet by exact Hq. apply H6.
Qed.

Lemma wms_log o w : quiet_obs o -> without_media_source w -> without_media_source (log o w).
Proof. intros Ho. apply wms_quiet; try reflexivity. now apply quiet_log. Qed.

Lemma wms_cleanup w : without_media_source w -> without_media_source (cleanup w).
Proof.
  intros H. pose proof H as (H1 & H2 & H3 & H4 & _).
  pose proof (cleanup_sinks_idle w H4 H3) as Ek.
  destruct (cleanup_spec w) as (_&_&_&_&_&_&Ems&Esb&_&_&_&_&_&_&_&Eso).
  revert H. apply wms_quiet.
  - apply quiet_cleanup.
  - rewrite Eso, H1. now destruct (videoRef w).
  - exact Ek.
  - now rewrite Ems, H3.
  - now rewrite Esb, H4.
Qed.

Lemma wms_reconnect w : without_media_source w -> without_media_source (reconnect w).
Proof.
  intros H. destruct (reconnect_guard w) as [-> | [Hm Hr]]; [exact H|].
  rewrite (reconnect_eq w Hm Hr).
  assert (H1 : without_media_source (cleanup (upd_state (set_isReconnecting true) w))).
  { apply wms_cleanup. revert H. apply wms_quiet; try reflexivity.
    apply quiet_frame; reflexivity. }
  revert H1. generalize (cleanup (upd_state (set_isReconnecting true) w)). intros c.
  apply wms_quiet; try reflexivity. apply quiet_scheduled.
Qed.

Lemma wms_connect cfg w : without_media_source w -> without_media_source (connect cfg w).
Proof.
  apply wms_quiet; [apply quiet_connect | ..];
    destruct (connect_eq cfg w) as [-> | ->]; reflexivity.
Qed.

Lemma wms_ws_onopen cfg w :
  mediaSourceClass cfg = false ->
  without_media_source w -> without_media_source (ws_onopen cfg w).
Proof.
  intros Hc H. unfold ws_onopen, setupMSE. rewrite Hc. cbn [negb].
  repeat apply wms_log; try exact I. exact H.
Qed.

Lemma wms_step cfg w e :
  mediaSourceClass cfg = false ->
  without_media_source w -> without_media_source (step cfg w e).
Proof.
  intros Hc H. pose proof H as (H1 & H2 & H3 & H4 & H5 & H6).
  destruct e as [i|i m addOk|i d o v|i|i|m|s o v|id|dt]; cbn [step].
  - destruct (sockets w !! i) as [k|]; [|exact H].
    destruct (readyState k); try exact H.
    assert (H' : without_media_source
                   (set_sockets (alter (set_readyState OPEN) i (sockets w)) w)) by exact H.
    destruct (onopen k); [now apply wms_ws_onopen | exact H'].
  - destruct (sockets w !! i) as [k|]; [|exact H].
    destruct (readyState k); try exact H.
    destruct (onmessage k); [|exact H].
    destruct m as [value|value|]; cbn [ws_onmessage_text].
    + unfold setupSourceBuffer. now rewrite H3.
    + apply wms_reconnect. repeat apply wms_log; try exact I. exact H.
    + exact H.
  - destruct (sockets w !! i) as [k|]; [|exact H].
    destruct (readyState k); try exact H.
    destruct (onmessage k); [|exact H].
    rewrite (appendData_no_sink d o v w H4).
    unfold without_media_source. cbn. unfold deliveries.
    rewrite omap_app. cbn. rewrite app_nil_r. repeat split; try assumption.
    intros j. unfold sent_on. rewrite omap_app. cbn. rewrite app_nil_r. apply H6.
  - destruct (sockets w !! i) as [k|]; [|exact H].
    unfold ws_onerror.
    destruct (readyState k); try exact H;
      (destruct (onerror k); [repeat apply wms_log; try exact I; exact H | exact H]).
  - destruct (sockets w !! i) as [k|]; [|exact H].
    assert (H' : without_media_source
                   (set_sockets (alter (set_readyState CLOSED) i (sockets w)) w)) by exact H.
    assert (Hgo : without_media_source
                    (ws_onclose i (set_sockets (alter (set_readyState CLOSED) i (sockets w)) w))).
    { unfold ws_onclose. cbn [state set_sockets].
      destruct (ws (state w)) as [j|]; [|exact H'].
      destruct (Nat.eqb j i); [|exact H'].
      apply wms_reconnect, wms_log; [exact I|]. exact H. }
    destruct (readyState k); try exact H; (destruct (onclose k); [exact Hgo | exact H']).
  - now rewrite H1.
  - now rewrite H2.
  - destruct (find _ (timers w)) as [t|]; [|exact H].
    assert (H' : without_media_source
                   (log (Fired t) (if repeating t then w else clearTimer id w))).
    { apply wms_log; [exact I|]. destruct (repeating t); exact H. }
    revert H'. generalize (log (Fired t) (if repeating t then w else clearTimer id w)).
    intros w0 H0. destruct (cb t); cbn [runCallback].
    + unfold reconnectFire.
      destruct (isMounted _); [apply wms_connect|]; exact H0.
    + unfold stalledTick. destruct (lastDataTime (state w0) =? 0); [exact H0|].
      destruct (2000 <? _); [|exact H0].
      apply wms_reconnect, wms_log; [exact I | exact H0].
  - exact H.
Qed.

Lemma wms_act cfg w a :
  mediaSourceClass cfg = false ->
  without_media_source w -> without_media_source (act cfg w a).
Proof.
  intros Hc H. destruct a as [e| |]; cbn [act].
  - now apply wms_step.
  - unfold stop. apply wms_cleanup. exact H.
  - unfold start, stop.
    assert (H1 : without_media_source (cleanup (upd_state (set_isMounted false) w)))
      by (apply wms_cleanup; exact H).
    revert H1. generalize (cleanup (upd_state (set_isMounted false) w)). intros c H1.
    destruct (String.eqb (src cfg) "" || negb (videoRef c)); [exact H1|].
    apply wms_connect. exact H1.
Qed.

(** X21 ([setupMSE], the unsupported branch). In a browser that has neither
    ManagedMediaSource nor MediaSource, the component never creates a
    MediaSource or a SourceBuffer, never sends the negotiation message and
    never hands a segment to a sink, whatever the server does.  Every socket
    that opens makes it report "open", a null error, the error
    "MediaSource not supported" and the status "error", in this order, and
    the socket is kept: no reconnect is scheduled by that. *)
Theorem unsupported_browser_never_negotiates cfg w :
  mediaSourceClass cfg = false -> reachable cfg w ->
  without_media_source w /\
  (forall i k, sockets w !! i = Some k -> readyState k = CONNECTING -> onopen k = true ->
     let w' := step cfg w (WsOpen i) in
     trace w' = trace w ++ [Status "open"; Error None;
                            Error (Some "MediaSource not supported"); Status "error"] /\
     ws (state w') = ws (state w) /\ timers w' = timers w).
Proof.
  intros Hc Hr. split.
  - destruct Hr as (t0 & acts & ->).
    induction acts as [|a acts IH] using rev_ind.
    + cbn [fold_left]. unfold mount, start.
      assert (H0 : without_media_source (rendered t0)) by (repeat split; reflexivity).
      destruct (String.eqb (src cfg) "" || negb (videoRef (rendered t0))); [exact H0|].
      apply wms_connect. exact H0.
    + rewrite fold_left_app. cbn [fold_left]. now apply wms_act.
  - intros i k Hk Hready Ho. cbv zeta. cbn [step]. rewrite Hk, Hready, Ho.
    unfold ws_onopen, setupMSE. rewrite Hc. cbn. rewrite <- !app_assoc. auto.
Qed.

Lemma unsupported_browser_never_negotiates_witness :
  let old_browser :=
    {| src := "/api/ws?src=camera1"; media := "video,audio";
       origin := "http://localhost:1984"; validURL := fun _ => true;
       mediaSourceClass := false; isTypeSupported := fun _ => true |} in
  without_media_source
    (run old_browser (mount old_browser 0)
       [WsOpen 0; WsText 0 (MsgMse "avc1.640029") true;
        WsBinary 0 [x01] AppendOk nothing_buffered]).
Proof.
  intros old_browser.
  apply (unsupported_browser_never_negotiates old_browser); [reflexivity|].
  apply reachable_run, reachable_mount.
Defined.

(** ** The sequence of statuses *)

Lemma statuses_app tr rest : statuses (tr ++ rest) = statuses tr ++ statuses rest.
Proof. apply omap_app. Qed.

Lemma statuses_silent tr rest :
  Forall (fun o => match o with Status _ => False | _ => True end) rest ->
  statuses (tr ++ rest) = statuses tr.
Proof.
  intros H. rewrite statuses_app.
  induction H as [|o rest Ho _ IH]; [apply app_nil_r|].
  destruct o; simpl in *; try exact IH. contradiction.
Qed.

Lemma statuses_appendData d o v w :
  statuses (trace (appendData d o v w)) = statuses (trace w).
Proof.
  destruct (appendData_cases d o v w) as
    [(s & a & _ & _ & _ & _ & _ & ->) | [(s & _ & _ & _ & ->) | (_ & rest & -> & Hn)]];
    apply statuses_silent.
  - repeat constructor.
  - repeat constructor.
  - constructor; [exact I|]. eapply Forall_impl; [exact Hn|]. intros []; simpl; tauto.
Qed.

Lemma statuses_sbUpdateHandler_run s o v w :
  statuses (trace (sbUpdateHandler_run s o v w)) = statuses (trace w).
Proof.
  destruct (sbUpdateHandler_run_cases s o v w) as
    [(_ & _ & _ & rest & -> & Hn) | (_ & rest & -> & Hn)]; apply statuses_silent.
  - constructor; [exact I|]. eapply Forall_impl; [exact Hn|]. intros []; simpl; tauto.
  - eapply Forall_impl; [exact Hn|]. intros []; simpl; tauto.
Qed.

Lemma statuses_onSourceOpen cfg w :
  statuses (trace (onSourceOpen cfg w)) = statuses (trace w).
Proof.
  unfold onSourceOpen, ws_send. repeat case_match; try reflexivity.
  cbn. rewrite statuses_app. apply app_nil_r.
Qed.

Lemma may_follow_free a s :
  a <> "stalled" -> a <> "closed" -> a <> "reconnecting" -> may_follow a s = true.
Proof.
  intros H1 H2 H3. unfold may_follow.
  destruct (String.eqb_spec a "stalled"); [contradiction|].
  destruct (String.eqb_spec a "closed"); [contradiction|].
  destruct (String.eqb_spec a "reconnecting"); [contradiction|]. reflexivity.
Qed.

Lemma may_follow_connecting a :
  a <> "stalled" -> a <> "closed" -> may_follow a "connecting" = true.
Proof.
  intros H1 H2. unfold may_follow.
  destruct (String.eqb_spec a "stalled"); [contradiction|].
  destruct (String.eqb_spec a "closed"); [contradiction|].
  destruct (String.eqb a "reconnecting"); reflexivity.
Qed.

Lemma well_sequenced_snoc l b :
  well_sequenced (l ++ [b]) =
  well_sequenced l && match last l with Some a => may_follow a b | None => true end.
Proof.
  induction l as [|a l IH]; [reflexivity|].
  destruct l as [|c l].
  - cbn. now rewrite !andb_true_r.
  - change (well_sequenced ((a :: c :: l) ++ [b]))
      with (may_follow a c && well_sequenced ((c :: l) ++ [b])).
    rewrite IH. change (last (a :: c :: l)) with (last (c :: l)).
    change (well_sequenced (a :: c :: l)) with (may_follow a c && well_sequenced (c :: l)).
    now rewrite andb_assoc.
Qed.

Lemma Reported_keep w w' :
  statuses (trace w') = statuses (trace w) ->
  ws (state w') = None \/ ws (state w') = ws (state w) ->
  (forall t, t ∈ timers w' -> t ∈ timers w) ->
  Reported w -> Reported w'.
Proof.
  intros E Hw Ht [H1 H2 H3 H4]. constructor; rewrite E; try assumption.
  intros Hl. destruct (H4 Hl) as [A B]. split.
  - destruct Hw as [-> | ->]; [reflexivity | exact A].
  - intros t Hin. apply B, Ht, Hin.
Qed.

Lemma Reported_say w w' s :
  statuses (trace w') = statuses (trace w) ++ [s] ->
  s ∈ StreamStatus -> s <> "stalled" -> s <> "closed" ->
  (forall a, last (statuses (trace w)) = Some a -> may_follow a s = true) ->
  (s = "reconnecting" ->
   ws (state w') = None /\ forall t, t ∈ timers w' -> cb t = ReconnectFire) ->
  Reported w -> Reported w'.
Proof.
  intros E Hk Hs1 Hs2 Hf Hw [H1 H2 H3 H4]. constructor; rewrite E.
  - apply Forall_app. split; [exact H1|]. constructor; [exact Hk | constructor].
  - rewrite well_sequenced_snoc, H2. cbn.
    destruct (last (statuses (trace w))) as [a|] eqn:El; [now apply Hf | reflexivity].
  - rewrite last_snoc. now intros s' [= <-].
  - rewrite last_snoc. intros [= ->]. now apply Hw.
Qed.

Lemma Reported_say2 w w' a s :
  statuses (trace w') = statuses (trace w) ++ [a; s] ->
  a ∈ StreamStatus -> s ∈ StreamStatus -> s <> "stalled" -> s <> "closed" ->
  (forall p, last (statuses (trace w)) = Some p -> may_follow p a = true) ->
  may_follow a s = true ->
  (s = "reconnecting" ->
   ws (state w') = None /\ forall t, t ∈ timers w' -> cb t = ReconnectFire) ->
  Reported w -> Reported w'.
Proof.
  intros E Ha Hk Hs1 Hs2 Hf Hfs Hw [H1 H2 H3 H4].
  change [a; s] with ([a] ++ [s]) in E. rewrite app_assoc in E.
  constructor; rewrite E.
  - rewrite !Forall_app. split; [split; [exact H1|]|]; (constructor; [assumption | constructor]).
  - rewrite !well_sequenced_snoc, H2, last_snoc, Hfs. cbn.
    destruct (last (statuses (trace w))) as [p|] eqn:El; [now rewrite Hf | reflexivity].
  - rewrite last_snoc. now intros s' [= <-].
  - rewrite last_snoc. intros [= ->]. now apply Hw.
Qed.

Lemma known_status s :
  s = "connecting" \/ s = "open" \/ s = "streaming" \/ s = "closed" \/ s = "error" \/
  s = "reconnecting" \/ s = "stalled" -> s ∈ StreamStatus.
Proof.
  unfold StreamStatus. rewrite !elem_of_cons.
  intros [->|[->|[->|[->|[->|[->| ->]]]]]]; tauto.
Qed.

(** A live socket rules out that the last report was "reconnecting". *)
Lemma live_free w i k :
  Inv w -> Reported w -> sockets w !! i = Some k -> live k = true ->
  forall a s, last (statuses (trace w)) = Some a -> may_follow a s = true.
Proof.
  intros HI HR Hk Hl a s Ha. destruct (rep_settled w HR a Ha) as [A B].
  apply may_follow_free; try assumption. intros ->.
  destruct (rep_waiting w HR Ha) as [Hw _]. pose proof (inv_sockets w HI i k Hk Hl). congruence.
Qed.

Lemma reconnect_says w :
  timers_owned w ->
  reconnect w = w \/
  (isMounted (state w) = true /\ isReconnecting (state w) = false /\
   trace (reconnect w) = trace w ++ [Status "reconnecting"] /\
   ws (state (reconnect w)) = None /\
   forall t, t ∈ timers (reconnect w) -> cb t = ReconnectFire).
Proof.
  intros Ho. destruct (reconnect_guard w) as [E | [Hm Hr]]; [now left|]. right.
  destruct (reconnect_schedules w Ho Hm Hr) as (Et & Etr & Ew & _).
  repeat split; try assumption.
  intros t. rewrite Et. intros H%list_elem_of_singleton. now subst t.
Qed.

Lemma ws_onopen_says cfg w :
  trace (ws_onopen cfg w) =
    trace w ++ [Status "open"; Error None] ++
    (if mediaSourceClass cfg then []
     else [Error (Some "MediaSource not supported"); Status "error"]) /\
  ws (state (ws_onopen cfg w)) = ws (state w) /\
  timers (ws_onopen cfg w) = timers w.
Proof.
  unfold ws_onopen, setupMSE. destruct (mediaSourceClass cfg); cbn [negb].
  - unfold attach_video, detach_video. case_match; cbn; rewrite <- ?app_assoc; auto.
  - cbn. rewrite <- !app_assoc. auto.
Qed.

Lemma setupSourceBuffer_says codec addOk w :
  setupSourceBuffer codec addOk w = w \/
  (trace (setupSourceBuffer codec addOk w) = trace w ++ [Status "streaming"] /\
   ws (state (setupSourceBuffer codec addOk w)) = ws (state w)).
Proof.
  unfold setupSourceBuffer. destruct (ms (state w)) as [m|]; [|now left].
  destruct (ms_is_open m w && addOk); [|now left].
  right. rewrite startStalledCheck_eq. cbn. auto.
Qed.

Lemma connect_says cfg w :
  trace (connect cfg w) = trace w ++ [Status "connecting"].
Proof. destruct (connect_eq cfg w) as [-> | ->]; reflexivity. Qed.

Lemma Reported_connect cfg w w0 :
  statuses (trace w0) = statuses (trace w) -> Reported w -> Reported (connect cfg w0).
Proof.
  intros E HR. apply (Reported_say w _ "connecting"); try discriminate; try exact HR.
  - rewrite connect_says, statuses_app, E. reflexivity.
  - apply known_status. tauto.
  - intros a Ha. destruct (rep_settled w HR a Ha). now apply may_follow_connecting.
Qed.

Lemma Reported_then_reconnect w w2 a :
  statuses (trace w2) = statuses (trace w) ++ [a] ->
  a ∈ StreamStatus -> (a = "error" \/ a = "stalled" \/ a = "closed") ->
  (a <> "error" -> isMounted (state w2) = true /\ isReconnecting (state w2) = false) ->
  (ws (state w2) = None \/ ws (state w2) = ws (state w)) ->
  (forall t, t ∈ timers w2 -> t ∈ timers w) ->
  timers_owned w2 ->
  (forall p, last (statuses (trace w)) = Some p -> may_follow p a = true) ->
  Reported w -> Reported (reconnect w2).
Proof.
  intros E Ha Hcase Hflags Hws Hts Ho Hf HR.
  destruct (reconnect_says w2 Ho) as [Eq | (Hm & Hr & Etr & Ew & Et)].
  - rewrite Eq. destruct (String.eqb_spec a "error") as [->|Hne].
    + apply (Reported_say w w2 "error"); try discriminate; try assumption.
    + exfalso. destruct (Hflags Hne) as [Hm Hr].
      revert Eq. unfold reconnect. rewrite Hm, Hr. cbn [negb orb].
      intros Eq. apply (f_equal (fun x => isReconnecting (state x))) in Eq.
      rewrite Hr in Eq. revert Eq.
      destruct (cleanup_flags (upd_state (set_isReconnecting true) w2)) as (_ & Er & _).
      revert Er. generalize (cleanup (upd_state (set_isReconnecting true) w2)).
      intros c Er. cbn. rewrite Er. discriminate.
  - apply (Reported_say2 w _ a "reconnecting"); try discriminate; try assumption.
    + rewrite Etr, statuses_app, E, <- app_assoc. reflexivity.
    + apply known_status. tauto.
    + destruct Hcase as [-> | [-> | ->]]; reflexivity.
    + intros _. split; assumption.
Qed.

Lemma Reported_step cfg w e :
  Inv w -> Active w -> Reported w -> Reported (step cfg w e).
Proof.
  intros HI HA HR.
  assert (Hkeep : forall w', statuses (trace w') = statuses (trace w) ->
                    ws (state w') = ws (state w) -> timers w' = timers w -> Reported w').
  { intros w' E1 E2 E3. apply (Reported_keep w); auto. intros t. now rewrite E3. }
  destruct e as [i|i m addOk|i d o v|i|i|m|s o v|id|dt]; cbn [step].
  - destruct (sockets w !! i) as [k|] eqn:Hk; [|exact HR].
    destruct (readyState k) eqn:Hr; try exact HR.
    destruct (onopen k) eqn:Ho; [|now apply Hkeep].
    assert (Hl : live k = true) by (unfold live; rewrite Ho, Hr; reflexivity).
    pose proof (live_free w i k HI HR Hk Hl) as Hfree.
    destruct (ws_onopen_says cfg (set_sockets (alter (set_readyState OPEN) i (sockets w)) w))
      as (Etr & _ & _).
    revert Etr. generalize (ws_onopen cfg (set_sockets (alter (set_readyState OPEN) i (sockets w)) w)).
    intros w' Etr. cbn [trace set_sockets] in Etr.
    destruct (mediaSourceClass cfg).
    + apply (Reported_say w w' "open"); try discriminate; try assumption.
      * rewrite Etr, statuses_app. reflexivity.
      * apply known_status. tauto.
      * intros a. apply Hfree.
    + apply (Reported_say2 w w' "open" "error"); try discriminate; try assumption;
        try reflexivity.
      * rewrite Etr, statuses_app. reflexivity.
      * apply known_status. tauto.
      * apply known_status. tauto.
      * intros a. apply Hfree.
  - destruct (sockets w !! i) as [k|] eqn:Hk; [|exact HR].
    destruct (readyState k) eqn:Hr; try exact HR.
    destruct (onmessage k) eqn:Hm; [|exact HR].
    assert (Hl : live k = true).
    { unfold live. rewrite Hm, Hr, !orb_true_r. reflexivity. }
    pose proof (live_free w i k HI HR Hk Hl) as Hfree.
    destruct m as [value|value|]; cbn [ws_onmessage_text].
    + destruct (setupSourceBuffer_says value addOk w) as [-> | [Etr _]]; [exact HR|].
      apply (Reported_say w _ "streaming"); try discriminate; try assumption.
      * rewrite Etr, statuses_app. reflexivity.
      * apply known_status. tauto.
      * intros a. apply Hfree.
    + apply (Reported_then_reconnect w _ "error"); try assumption.
      * cbn. rewrite !statuses_app. cbn. now rewrite app_nil_r.
      * apply known_status. tauto.
      * tauto.
      * congruence.
      * now right.
      * auto.
      * exact (inv_owned w HI).
      * intros a. apply Hfree.
    + exact HR.
  - destruct (sockets w !! i) as [k|]; [|exact HR].
    destruct (readyState k); try exact HR.
    destruct (onmessage k); [|exact HR].
    destruct (same_ctl_appendData d o v w). apply Hkeep; auto using statuses_appendData.
  - destruct (sockets w !! i) as [k|] eqn:Hk; [|exact HR].
    assert (Hgo : readyState k <> CLOSED -> onerror k = true -> Reported (ws_onerror w)).
    { intros Hr Ho.
      assert (Hl : live k = true).
      { unfold live. rewrite Ho, !orb_true_r. destruct (readyState k); try reflexivity; congruence. }
      apply (Reported_say w _ "error"); try discriminate; try assumption.
      - unfold ws_onerror. cbn. rewrite !statuses_app. cbn. now rewrite app_nil_r.
      - apply known_status. tauto.
      - intros a. apply (live_free w i k HI HR Hk Hl). }
    destruct (readyState k); try exact HR;
      (destruct (onerror k); [apply Hgo; [discriminate | reflexivity] | exact HR]).
  - destruct (sockets w !! i) as [k|] eqn:Hk; [|exact HR].
    assert (Hgo : readyState k <> CLOSED ->
                  Reported (if onclose k
                            then ws_onclose i
                                   (set_sockets (alter (set_readyState CLOSED) i (sockets w)) w)
                            else set_sockets (alter (set_readyState CLOSED) i (sockets w)) w)).
    { intros Hr. destruct (onclose k) eqn:Hc; [|now apply Hkeep].
      assert (Hl : live k = true).
      { unfold live. rewrite Hc, !orb_true_r. destruct (readyState k); try reflexivity; congruence. }
      destruct (act_socket w HA i k Hk Hl) as [Hmo Hre].
      rewrite ws_onclose_current by exact (inv_sockets w HI i k Hk Hl).
      apply (Reported_then_reconnect w _ "closed"); try assumption.
      - cbn. rewrite statuses_app. reflexivity.
      - apply known_status. tauto.
      - tauto.
      - intros _. split; assumption.
      - now left.
      - auto.
      - exact (inv_owned w HI).
      - intros a. apply (live_free w i k HI HR Hk Hl). }
    destruct (readyState k); try exact HR; apply Hgo; discriminate.
  - destruct (sources w !! m) as [k|]; [|exact HR].
    destruct (ms_attached k && negb (ms_open k)); [|exact HR].
    destruct (ms_sourceopen k); [|now apply Hkeep].
    match goal with |- Reported (onSourceOpen cfg ?x) =>
      destruct (same_ctl_onSourceOpen cfg x); apply Hkeep; auto end.
    now rewrite statuses_onSourceOpen.
  - destruct (sinks w !! s) as [k|]; [|exact HR].
    destruct (updating k); [|exact HR].
    destruct (sb_listener k); [|now apply Hkeep].
    match goal with |- Reported (sbUpdateHandler_run s o v ?x) =>
      destruct (same_ctl_sbUpdateHandler_run s o v x); apply Hkeep; auto end.
    now rewrite statuses_sbUpdateHandler_run.
  - destruct (find _ (timers w)) as [t|] eqn:Hfind; [|exact HR].
    apply find_tid_Some in Hfind as [Ht <-].
    pose proof (inv_owned w HI t Ht) as Ho.
    destruct (cb t) eqn:Hc; destruct Ho as [_ ->]; cbn [runCallback].
    + unfold reconnectFire.
      set (w1 := upd_state (set_isReconnecting false) (log (Fired t) (clearTimer (tid t) w))).
      assert (E1 : statuses (trace w1) = statuses (trace w)).
      { subst w1. cbn. rewrite statuses_app. apply app_nil_r. }
      destruct (isMounted (state w1)); [now apply (Reported_connect cfg w)|].
      apply (Reported_keep w); auto.
      intros t'. subst w1. cbn. rewrite list_elem_of_filter. tauto.
    + destruct (act_watchdog w HA t Ht Hc) as [Hmo Hre].
      set (w0 := log (Fired t) w).
      assert (E0 : statuses (trace w0) = statuses (trace w)).
      { subst w0. cbn. rewrite statuses_app. apply app_nil_r. }
      unfold stalledTick. destruct (lastDataTime (state w0) =? 0); [now apply Hkeep|].
      destruct (2000 <? _); [|now apply Hkeep].
      apply (Reported_then_reconnect w _ "stalled"); try assumption.
      * cbn. rewrite !statuses_app. cbn. now rewrite app_nil_r.
      * apply known_status. tauto.
      * tauto.
      * intros _. split; assumption.
      * now right.
      * auto.
      * exact (inv_owned w HI).
      * intros p Hp. destruct (rep_settled w HR p Hp).
        apply may_follow_free; try assumption. intros ->.
        destruct (rep_waiting w HR Hp) as [_ Hall]. specialize (Hall t Ht). congruence.
  - now apply Hkeep.
Qed.

Lemma Reported_stop w : Inv w -> Reported w -> Reported (stop w).
Proof.
  intros HI HR. unfold stop.
  set (w1 := upd_state (set_isMounted false) w).
  pose proof (cleanup_timers_nil w1 (inv_owned w HI)) as Et.
  destruct (cleanup_spec w1) as (_&_&Etr&_&_&Ew&_).
  revert Et Etr Ew. generalize (cleanup w1). intros c Et Etr Ew.
  apply (Reported_keep w); auto.
  - now rewrite Etr.
  - intros t. rewrite Et. intros H. now apply not_elem_of_nil in H.
Qed.

Lemma Reported_start cfg w : Reported w -> Reported (start cfg w).
Proof.
  intros HR. unfold start.
  destruct (String.eqb (src cfg) "" || negb (videoRef w)); [exact HR|].
  now apply (Reported_connect cfg w).
Qed.

Lemma Reported_act cfg w a : Inv w -> Active w -> Reported w -> Reported (act cfg w a).
Proof.
  intros HI HA HR. destruct a as [e| |]; cbn [act].
  - now apply Reported_step.
  - apply Reported_stop.
    + revert HI. apply Inv_frame; reflexivity.
    + revert HR. apply Reported_keep; auto.
  - now apply Reported_start, Reported_stop.
Qed.

Lemma Reported_reachable cfg w : reachable cfg w -> Reported w.
Proof.
  intros (t0 & acts & ->).
  induction acts as [|a acts IH] using rev_ind.
  - apply Reported_start. constructor; cbn; try constructor; discriminate.
  - rewrite fold_left_app.
    assert (Hr : reachable cfg (fold_left (act cfg) acts (mount cfg t0)))
      by (eexists _, _; reflexivity).
    destruct (Active_reachable cfg _ Hr) as [HI HA].
    cbn [fold_left]. now apply Reported_act.
Qed.

(** X22 (every call of [updateStatus]). In every reachable world the
    statuses reported so far are among "connecting", "open", "streaming",
    "closed", "error", "reconnecting" and "stalled".  In their sequence every
    "stalled" and every "closed" is followed at once by "reconnecting", and
    every "reconnecting" that is followed by anything is followed by
    "connecting"; between two callbacks the last status is never "stalled" or
    "closed". *)
Theorem status_sequence cfg w :
  reachable cfg w ->
  Forall (fun s => s ∈ StreamStatus) (statuses (trace w)) /\
  well_sequenced (statuses (trace w)) = true /\
  (forall s, last (statuses (trace w)) = Some s -> s <> "stalled" /\ s <> "closed").
Proof.
  intros Hr. destruct (Reported_reachable cfg w Hr) as [H1 H2 H3 _]. auto.
Qed.

Lemma status_sequence_witness :
  well_sequenced
    (statuses (trace (run camera_page (streaming_since 1000)
                        [WsClose 0; TimerFire 2; WsError 1]))) = true.
Proof.
  apply (status_sequence camera_page), reachable_run, reachable_streaming_since.
Defined.

(** ** A refused direct append *)

(** X23 ([appendData], the direct branch). When a segment arrives while the
    current SourceBuffer is idle and nothing is queued, it is handed to the
    sink at once; if the sink refuses it, the segment is neither queued nor
    tried again: the queue stays empty and nothing is delivered.  Only for
    QuotaExceededError does a trim follow, under the retention rule. *)
Theorem refused_direct_append_drops_segment s d e v w :
  sink_ready s w -> buf_length (buffer (state w)) = 0 ->
  let w' := appendData d (AppendThrows e) v w in
  let position := if videoRef w then currentTime v else 0%Q in
  buffer (state w') = buffer (state w) /\
  lastDataTime (state w') = Date_now w /\
  deliveries (trace w') = deliveries (trace w) /\
  (trace w' = trace w ++ [Arrived d; Rejected s d e] \/
   exists start, e = QuotaExceededError /\ trim_due v w start /\
     trace w' = trace w ++ [Arrived d; Rejected s d e; Removed s start (position - 5)]).
Proof.
  intros Hready Hlen. cbv zeta.
  set (w1 := upd_state (set_lastDataTime (Date_now w)) (log (Arrived d) w)).
  assert (Hready1 : sink_ready s w1) by exact Hready.
  assert (E : appendData d (AppendThrows e) v w =
              match e with
              | QuotaExceededError => trimBuffer v (log (Rejected s d e) w1)
              | InvalidStateError => log (Rejected s d e) w1
              end).
  { unfold appendData. cbn [state upd_state log sb set_lastDataTime buffer Date_now].
    fold w1. destruct Hready as [Hs (k & Hk & Hu & _)]. rewrite Hs, Hlen.
    assert (Eu : sb_updating s w1 = false) by (unfold sb_updating; cbn; now rewrite Hk).
    rewrite Eu. cbn [orb Z.ltb Z.compare].
    rewrite (appendBuffer_ready s d (AppendThrows e) w1 Hready1).
    destruct e; reflexivity. }
  rewrite E. clear E.
  assert (Hd : forall rest, Forall sink_noise rest ->
                 deliveries ((trace w ++ [Arrived d]) ++ rest) = deliveries (trace w)).
  { intros rest Hn. unfold deliveries. rewrite !omap_app. cbn. rewrite app_nil_r.
    induction Hn as [|x rest Hx _ IH]; [apply app_nil_r|].
    destruct x; cbn in *; try contradiction; exact IH. }
  destruct e.
  - assert (Hr2 : sink_ready s (log (Rejected s d QuotaExceededError) w1))
      by now apply sink_ready_log.
    destruct (buffered v) as [start|] eqn:Eb.
    + destruct (Qgtb ((if videoRef w then currentTime v else 0%Q) - start) 10) eqn:Eq.
      * destruct (removeThrows v) eqn:Et.
        -- rewrite (trimBuffer_idle v _ s Hr2).
           ++ cbn.
              repeat split; auto. { apply (Hd [_]). repeat constructor. }
              left. now rewrite <- app_assoc.
           ++ intros st (A & _ & C). congruence.
        -- rewrite (trimBuffer_due v _ s start Hr2) by (repeat split; assumption).
           cbn. repeat split; auto. { rewrite <- app_assoc. apply (Hd [_; _]). repeat constructor. }
           right. exists start. repeat split; try assumption. now rewrite <- !app_assoc.
      * rewrite (trimBuffer_idle v _ s Hr2).
        -- cbn. repeat split; auto. { apply (Hd [_]). repeat constructor. }
           left. now rewrite <- app_assoc.
        -- intros st (A & B & _). rewrite Eb in A. injection A as <-.
           change (videoRef (log (Rejected s d QuotaExceededError) w1)) with (videoRef w) in B.
           congruence.
    + rewrite (trimBuffer_idle v _ s Hr2).
      * cbn. repeat split; auto. { apply (Hd [_]). repeat constructor. }
        left. now rewrite <- app_assoc.
      * intros st (A & _). congruence.
  - cbn. repeat split; auto. { apply (Hd [_]). repeat constructor. }
    left. now rewrite <- app_assoc.
Qed.

Lemma refused_direct_append_drops_segment_witness :
  deliveries (trace (appendData [x09] (AppendThrows QuotaExceededError) long_buffered
                       (set_sinks (alter (set_updating false) 0%nat
                                     (sinks (streaming_since 1000)))
                          (streaming_since 1000)))) =
  deliveries (trace (streaming_since 1000)).
Proof.
  refine (proj1 (proj2 (proj2 (refused_direct_append_drops_segment 0 [x09]
                                 QuotaExceededError long_buffered _ _ _)))).
  - split; [reflexivity|]. eexists. vm_compute. repeat split; reflexivity.
  - vm_compute. reflexivity.
Defined.

(** ** Playback sync of the second variant *)

Lemma Qgtb_lt (a b : Q) : Qgtb a b = true <-> (b < a)%Q.
Proof.
  unfold Qgtb. rewrite negb_true_iff. split.
  - intros H. apply Qnot_le_lt. intros Hle. apply Qle_bool_iff in Hle. congruence.
  - intros H. destruct (Qle_bool a b) eqn:E; [|reflexivity].
    apply Qle_bool_iff in E. exfalso. exact (Qlt_not_le _ _ H E).
Qed.

Lemma Qgtb_le (a b : Q) : Qgtb a b = false <-> (a <= b)%Q.
Proof.
  unfold Qgtb. rewrite negb_false_iff. apply Qle_bool_iff.
Qed.

(** X24 (the updateend handler of the second variant, its sync half). With
    seconds taken as exact rationals: the handler asks for a removal only of
    a non-empty range, which starts where the buffer starts and ends five
    seconds before the buffered end; afterwards the playback position is
    within the last five seconds of the buffer or ahead of it, never behind,
    and unchanged if it already was; the playback rate is the distance from
    the position to the buffered end but at least 0.1, so it lies between 0.1
    and 5 whenever the position was not past the buffered end, and it is 0.1
    when the position is within 0.1 s of the end or past it. *)
Theorem bufferSync_bounds (bufferedStart bufferedEnd : Q) (video : Adaptive.Playback) :
  let r := Adaptive.bufferSync bufferedStart bufferedEnd video in
  let p := Adaptive.position (Adaptive.playback r) in
  let rate := Adaptive.playbackRate (Adaptive.playback r) in
  (forall a b, Adaptive.removed r = Some (a, b) ->
     a = bufferedStart /\ b = (bufferedEnd - 5)%Q /\ (a < b)%Q) /\
  ((bufferedStart < bufferedEnd - 5)%Q -> Adaptive.removed r <> None) /\
  (bufferedEnd - 5 <= p)%Q /\
  ((bufferedEnd - 5 <= Adaptive.position video)%Q -> p = Adaptive.position video) /\
  (1 # 10 <= rate)%Q /\
  ((Adaptive.position video <= bufferedEnd)%Q -> (rate <= 5)%Q) /\
  ((bufferedEnd - (1 # 10) <= Adaptive.position video)%Q -> rate = (1 # 10)%Q).
Proof.
  cbv zeta. unfold Adaptive.bufferSync. cbn [Adaptive.removed Adaptive.playback
    Adaptive.position Adaptive.playbackRate].
  assert (Hlt : forall a b, Adaptive.Qltb a b = true <-> (a < b)%Q).
  { intros a b. unfold Adaptive.Qltb. apply (Qgtb_lt b a). }
  assert (Hge : forall a b, Adaptive.Qltb a b = false <-> (b <= a)%Q).
  { intros a b. unfold Adaptive.Qltb. apply (Qgtb_le b a). }
  repeat split.
  - destruct (Qgtb _ _); congruence.
  - destruct (Qgtb _ _); congruence.
  - destruct (Qgtb (bufferedEnd - 5) bufferedStart) eqn:E; [|discriminate].
    apply Qgtb_lt in E. injection H as <- <-. exact E.
  - intros H. apply Qgtb_lt in H. rewrite H. discriminate.
  - destruct (Adaptive.Qltb _ _) eqn:E; [lra|]. now apply Hge in E.
  - intros H. apply Hge in H. now rewrite H.
  - destruct (Qgtb _ (1 # 10)) eqn:E; [|lra]. apply Qgtb_lt in E. lra.
  - intros H. destruct (Adaptive.Qltb _ _) eqn:E1.
    + destruct (Qgtb _ (1 # 10)); lra.
    + apply Hge in E1. destruct (Qgtb _ (1 # 10)); lra.
  - intros H. destruct (Adaptive.Qltb _ _) eqn:E1.
    + apply Hlt in E1. lra.
    + destruct (Qgtb _ (1 # 10)) eqn:E2; [|reflexivity]. apply Qgtb_lt in E2. lra.
Qed.

Lemma bufferSync_bounds_witness :
  Adaptive.removed
    (Adaptive.bufferSync 2 12 {| Adaptive.position := 3; Adaptive.playbackRate := 1 |}) <>
  None.
Proof.
  apply (bufferSync_bounds 2 12 {| Adaptive.position := 3; Adaptive.playbackRate := 1 |}).
  reflexivity.
Defined.

(** ** The delay of a reconnect *)

Lemma adaptive_reconnect_timer (w : Adaptive.World2) :
  isMounted (state (Adaptive.base w)) = true ->
  isReconnecting (state (Adaptive.base w)) = false ->
  last (timers (Adaptive.base (Adaptive.reconnect w))) =
    Some {| tid := nextTimer (Adaptive.base w); cb := ReconnectFire;
            delay := Adaptive.reconnect_delay w; repeating := false |}.
Proof.
  destruct w as [b ts]. cbn [Adaptive.base]. intros Hm Hr.
  pose proof (adaptive_cleanup_nextTimer (upd_state (set_isReconnecting true) b)) as En.
  unfold Adaptive.reconnect, Adaptive.on_base. cbn [Adaptive.base Adaptive.connectTSRef].
  rewrite Hm, Hr. cbn [negb orb].
  revert En. generalize (Adaptive.cleanup (upd_state (set_isReconnecting true) b)).
  intros c En. cbn [nextTimer upd_state] in En.
  destruct (500 <? _); cbn; rewrite last_snoc, En; reflexivity.
Qed.

Lemma adaptive_reconnect_connectTSRef (w : Adaptive.World2) :
  Adaptive.connectTSRef (Adaptive.reconnect w) = Adaptive.connectTSRef w.
Proof.
  destruct w as [b ts]. unfold Adaptive.reconnect, Adaptive.on_base.
  cbn [Adaptive.base Adaptive.connectTSRef].
  destruct (negb (isMounted (state b)) || isReconnecting (state b)); [reflexivity|].
  generalize (Adaptive.cleanup (upd_state (set_isReconnecting true) b)). intros c.
  destruct (500 <? _); reflexivity.
Qed.

Lemma adaptive_connect_stamp cfg (w : Adaptive.World2) :
  Adaptive.connectTSRef (Adaptive.connect cfg w) = Date_now (Adaptive.base w) /\
  Date_now (Adaptive.base (Adaptive.connect cfg w)) = Date_now (Adaptive.base w) /\
  isMounted (state (Adaptive.base (Adaptive.connect cfg w))) =
    isMounted (state (Adaptive.base w)) /\
  isReconnecting (state (Adaptive.base (Adaptive.connect cfg w))) =
    isReconnecting (state (Adaptive.base w)).
Proof.
  unfold Adaptive.connect, Adaptive.on_base. destruct (validURL cfg _); cbn; auto.
Qed.

(** C6. In [MSEVideoStream.js] a reconnect that passes its guard always
    waits 2000 ms, whatever the age of the session.  In the second variant of
    [MSEVideoStream.tsx], [connect] stores the time of its call and nothing
    else changes it; a reconnect that passes its guard registers last the
    reconnect timeout with delay [max (15000 - (now - connectTSRef), 0)],
    which is never negative and is zero exactly when at least 15000 ms have
    passed since that time; so a reconnect that comes [dt] ms after
    [connect] waits [max (15000 - dt, 0)] ms. *)
Theorem reconnect_delay_floor (cfg : Config) :
  (forall w : World,
     reachable cfg w -> isMounted (state w) = true -> isReconnecting (state w) = false ->
     timers (reconnect w) =
       [{| tid := nextTimer w; cb := ReconnectFire; delay := 2000; repeating := false |}]) /\
  (forall w : Adaptive.World2,
     Adaptive.connectTSRef (Adaptive.connect cfg w) = Date_now (Adaptive.base w) /\
     Adaptive.connectTSRef (Adaptive.reconnect w) = Adaptive.connectTSRef w) /\
  (forall w : Adaptive.World2,
     isMounted (state (Adaptive.base w)) = true ->
     isReconnecting (state (Adaptive.base w)) = false ->
     let elapsed := Date_now (Adaptive.base w) - Adaptive.connectTSRef w in
     let d := Z.max (Adaptive.RECONNECT_TIMEOUT - elapsed) 0 in
     last (timers (Adaptive.base (Adaptive.reconnect w))) =
       Some {| tid := nextTimer (Adaptive.base w); cb := ReconnectFire;
               delay := d; repeating := false |} /\
     0 <= d /\
     (d = 0 <-> Adaptive.RECONNECT_TIMEOUT <= elapsed)) /\
  (forall (w : Adaptive.World2) (dt : Z),
     isMounted (state (Adaptive.base w)) = true ->
     isReconnecting (state (Adaptive.base w)) = false ->
     let later := Adaptive.elapse dt (Adaptive.connect cfg w) in
     last (timers (Adaptive.base (Adaptive.reconnect later))) =
       Some {| tid := nextTimer (Adaptive.base later); cb := ReconnectFire;
               delay := Z.max (Adaptive.RECONNECT_TIMEOUT - dt) 0; repeating := false |}).
Proof.
  split; [|split; [|split]].
  - intros w Hr Hm Hre.
    apply (reconnect_schedules w (inv_owned w (Inv_reachable cfg w Hr)) Hm Hre).
  - intros w. split; [apply adaptive_connect_stamp | apply adaptive_reconnect_connectTSRef].
  - intros w Hm Hr elapsed d. split; [|subst d; lia].
    apply (adaptive_reconnect_timer w Hm Hr).
  - intros w dt Hm Hr later.
    destruct (adaptive_connect_stamp cfg w) as (Ets & Enow & Em & Er).
    assert (Hm' : isMounted (state (Adaptive.base later)) = true) by (rewrite <- Hm, <- Em; reflexivity).
    assert (Hr' : isReconnecting (state (Adaptive.base later)) = false)
      by (rewrite <- Hr, <- Er; reflexivity).
    rewrite (adaptive_reconnect_timer later Hm' Hr'). do 2 f_equal.
    unfold Adaptive.reconnect_delay.
    change (Adaptive.connectTSRef later) with (Adaptive.connectTSRef (Adaptive.connect cfg w)).
    change (Date_now (Adaptive.base later))
      with (Date_now (Adaptive.base (Adaptive.connect cfg w)) + dt).
    rewrite Ets, Enow. f_equal. lia.
Qed.

Lemma reconnect_delay_floor_witness :
  let w := {| Adaptive.base := mount camera_page 1000; Adaptive.connectTSRef := 0 |} in
  last (timers (Adaptive.base
                  (Adaptive.reconnect
                     (Adaptive.elapse 3000 (Adaptive.connect camera_page w))))) =
    Some {| tid := 1; cb := ReconnectFire; delay := 12000; repeating := false |}.
Proof.
  intros w.
  pose proof (proj2 (proj2 (proj2 (reconnect_delay_floor camera_page))) w 3000
                eq_refl eq_refl) as H.
  cbv zeta in H. rewrite H. reflexivity.
Defined.

(** In [MSEVideoStream.js] the socket opens at clock time 1000.  Closed at
    once or a minute later, the reconnect waits 2000 ms; no session lifetime
    floor gives 2000 for both ages. *)
Lemma js_reconnect_delay_ignores_session_age :
  let young := step camera_page (streaming_since 1000) (WsClose 0) in
  let old := step camera_page
               (step camera_page (streaming_since 1000) (ClockAdvance 60000)) (WsClose 0) in
  Date_now young - 1000 = 0 /\ delay <$> timers young = [2000] /\
  Date_now old - 1000 = 60000 /\ delay <$> timers old = [2000] /\
  forall MinSessionLifetime : Z,
    ~ (2000 = Z.max (MinSessionLifetime - 0) 0 /\
       2000 = Z.max (MinSessionLifetime - 60000) 0).
Proof.
  cbv zeta. split; [reflexivity|]. split; [reflexivity|].
  split; [reflexivity|]. split; [reflexivity|]. intros M [H1 H2]. lia.
Qed.
